(** * Boot-stage overlay engine (jni/daemon/bootstages.c)

    A shallow embedding of the Magic Mount core of [bootstages.c]: the
    node tree and its builder ([insert_child], [construct_tree]), the
    skeleton materialiser ([clone_skeleton]), the mounters ([magic_mount],
    [simple_mount]), the image store ([round_size], [merge_img],
    [trim_img]) and the post-fs-data orchestrator ([post_fs_data]).

    Conventions of the embedding.
    - [uint8_t] fields ([type], [status]) are [Z] values; the bit
      operations of the source are [Z.lor] and [Z.land].
    - A [struct node_entry] lives at an address ([self]); the tree of
      owned children is a Rocq tree, and the non-owning [parent]
      back-pointer is the address of the parent.  [xcalloc] is a bump
      allocator whose next free address is threaded through the builders.
    - [get_full_path] walks the [parent] chain; the builders receive that
      chain as the list of ancestor names, nearest first.
    - Directories on disk (a module image, the staging directory, the
      mirror) are finite trees of [dirent]s; the live file system is
      queried through two oracles, [access(path, F_OK)] and the
      [xstat]/[S_ISLNK] test.
    - System calls with an effect are recorded as a trace of [event]s.
      Logging and [free] of scratch strings are not recorded, and the
      code under [#ifdef DEBUG] is left out.
    - [snprintf] into the [PATH_MAX] buffers is string concatenation:
      paths are assumed shorter than [PATH_MAX]. *)

From Stdlib Require Import ZArith String List Lia Bool.
From stdpp Require Import base list strings.
Import ListNotations.
Open Scope string_scope.
Open Scope Z_scope.
Open Scope list_scope.

(** ** Node structure *)

(* Precedence: MODULE > SKEL > INTER > DUMMY *)
Definition IS_DUMMY : Z := 0x01.   (* mount from mirror *)
Definition IS_INTER : Z := 0x02.   (* intermediate node *)
Definition IS_SKEL : Z := 0x04.    (* mount from skeleton *)
Definition IS_MODULE : Z := 0x08.  (* mount from module *)
Definition IS_VENDOR : Z := 0x10.  (* special vendor placeholder *)

(* <dirent.h> file types *)
Definition DT_UNKNOWN : Z := 0.
Definition DT_FIFO : Z := 1.
Definition DT_CHR : Z := 2.
Definition DT_DIR : Z := 4.
Definition DT_BLK : Z := 6.
Definition DT_REG : Z := 8.
Definition DT_LNK : Z := 10.
Definition DT_SOCK : Z := 12.

Definition ptr := nat.

Local Unset Elimination Schemes.

Inductive node_entry := Node {
  self : ptr;                 (* the address of this struct *)
  module : option string;     (* only used when status & IS_MODULE *)
  name : string;
  type : Z;
  status : Z;
  parent : option ptr;
  children : list node_entry  (* NULL and the empty vector iterate alike *)
}.

(** One entry returned by [readdir], together with what [opendir] on it
    would list when it is a directory. *)
Inductive dirent := Dirent {
  d_name : string;
  d_type : Z;
  d_sub : list dirent
}.

Local Set Elimination Schemes.

(** Induction on the nesting of nodes and of directory entries. *)
Section Induction.

Variable P : node_entry -> Prop.
Hypothesis P_node : forall a m nm ty s p cs,
  Forall P cs -> P (Node a m nm ty s p cs).

Fixpoint node_entry_ind (n : node_entry) : P n :=
  match n with
  | Node a m nm ty s p cs =>
      P_node a m nm ty s p cs
        ((fix all (l : list node_entry) : Forall P l :=
            match l with
            | [] => @List.Forall_nil _ P
            | c :: l' => @List.Forall_cons _ P c l' (node_entry_ind c) (all l')
            end) cs)
  end.

Variable Q : dirent -> Prop.
Hypothesis Q_dirent : forall nm ty sub, Forall Q sub -> Q (Dirent nm ty sub).

Fixpoint dirent_ind (e : dirent) : Q e :=
  match e with
  | Dirent nm ty sub =>
      Q_dirent nm ty sub
        ((fix all (l : list dirent) : Forall Q l :=
            match l with
            | [] => @List.Forall_nil _ Q
            | x :: l' => @List.Forall_cons _ Q x l' (dirent_ind x) (all l')
            end) sub)
  end.

End Induction.

Definition IS_DIR (n : node_entry) : bool := Z.eqb (type n) DT_DIR.
Definition IS_LNK (n : node_entry) : bool := Z.eqb (type n) DT_LNK.
Definition IS_REG (n : node_entry) : bool := Z.eqb (type n) DT_REG.

Definition set_status (n : node_entry) (s : Z) : node_entry :=
  Node (self n) (module n) (name n) (type n) s (parent n) (children n).
Definition set_parent (n : node_entry) (p : option ptr) : node_entry :=
  Node (self n) (module n) (name n) (type n) (status n) p (children n).
Definition set_name (n : node_entry) (s : string) : node_entry :=
  Node (self n) (module n) s (type n) (status n) (parent n) (children n).
Definition set_children (n : node_entry) (cs : list node_entry) : node_entry :=
  Node (self n) (module n) (name n) (type n) (status n) (parent n) cs.

(** [opendir] on a directory entry: only directories can be listed. *)
Definition opendir (e : dirent) : option (list dirent) :=
  if Z.eqb (d_type e) DT_DIR then Some (d_sub e) else None.

(** [access(dir/nm, F_OK) == 0] inside a listed directory. *)
Definition dir_has (nm : string) (es : list dirent) : bool :=
  existsb (fun e => String.eqb (d_name e) nm) es.

Definition dot_or_dotdot (nm : string) : bool :=
  String.eqb nm "." || String.eqb nm "..".

(** ** Paths *)

(** [get_full_path]: start from the node's name and, walking the parent
    chain upwards, prefix each ancestor's name and a slash. *)
Fixpoint get_full_path (chain : list string) (buffer : string) : string :=
  match chain with
  | [] => buffer
  | pname :: up => get_full_path up (pname +:+ "/" +:+ buffer)
  end.

(** ** Tree surgery *)

(** The addresses released by [destroy_subtree]: the node and, recursively,
    all its children. *)
Fixpoint destroy_subtree (n : node_entry) : list ptr :=
  match n with
  | Node a _ _ _ _ _ cs => flat_map destroy_subtree cs ++ [a]
  end.

Definition destroy_node (n : node_entry) : list ptr := [self n].

(** The [vec_for_each] loop of [insert_child] over the children from slot
    [i] on: the new vector, the slot of the returned child, and the
    addresses freed. *)
Fixpoint insert_loop (cs : list node_entry) (c : node_entry) (i : nat)
  : list node_entry * nat * list ptr :=
  match cs with
  | [] => ([c], i, [])                                  (* vec_push_back *)
  | e :: rest =>
      if String.eqb (name e) (name c) then
        (* Exist duplicate *)
        if Z.gtb (status c) (status e)
        then (c :: rest, i, destroy_subtree e)          (* replace with new node *)
        else (e :: rest, i, destroy_node c)             (* free the new entry, return old *)
      else
        let '(rest', j, fr) := insert_loop rest c (S i) in
        (e :: rest', j, fr)
  end.

Record inserted := Inserted {
  ins_parent : node_entry;   (* the parent after the insertion *)
  ins_slot : nat;            (* the slot of the returned child *)
  ins_freed : list ptr       (* the addresses destroyed *)
}.

Definition insert_child (p c : node_entry) : inserted :=
  let c := set_parent c (Some (self p)) in
  let '(cs, i, fr) := insert_loop (children p) c 0 in
  Inserted (set_children p cs) i fr.

(** The child returned by [insert_child]. *)
Definition ins_child (r : inserted) : option node_entry :=
  children (ins_parent r) !! ins_slot r.

(** ** Node-tree builder *)

Section Builder.

(** The live file system, as seen by [construct_tree]. *)
Variable live_access : string -> bool.  (* access(path, F_OK) == 0 *)
Variable live_islnk : string -> bool.   (* xstat(path, &s); S_ISLNK(s.st_mode) *)

(** Clone the parent in the following condition:
    1. File in module is a symlink
    2. Target file do not exist
    3. Target file is a symlink, but not /system/vendor *)
Definition clone_decision (parent node : node_entry) (buf : string) : bool :=
  if IS_LNK node || negb (live_access buf) then true
  else if negb (String.eqb (name parent) "/system")
          || negb (String.eqb (name node) "vendor")
       then live_islnk buf
       else false.

(** The status given to a fresh node, and the parent after the marking;
    [replace] tells whether the module directory holds a [.replace]. *)
Definition mark_node (clone replace : bool) (parent node : node_entry)
  : node_entry * node_entry :=
  if clone then
    (* Mark the parent folder as a skeleton *)
    (set_status parent (Z.lor (status parent) IS_SKEL), set_status node IS_MODULE)
  else if IS_DIR node then
    if replace
    then (parent, set_status node IS_MODULE)   (* replace everything, mark as leaf *)
    else (parent, set_status node IS_INTER)    (* an intermediate node *)
  else if IS_REG node then
    (parent, set_status node IS_MODULE)        (* a leaf, mark as target *)
  else (parent, node).

(** Whether [construct_tree] travels deeper into the inserted child. *)
Definition travels_deeper (node : node_entry) : bool :=
  negb (Z.eqb (Z.land (status node) (Z.lor IS_SKEL IS_INTER)) 0).

(** One round of the [readdir] loop of [construct_tree] on [entry], with
    the recursive call inlined; the state is the parent and the next free
    address.  [chain] holds the names of the ancestors of the parent and
    [parent_path] is [get_full_path(parent)]. *)
Fixpoint construct_entry (modname : string) (chain : list string)
    (parent_path : string) (entry : dirent) (st : node_entry * ptr)
    {struct entry} : node_entry * ptr :=
  let '(parent, next) := st in
  if dot_or_dotdot (d_name entry) then st else
  (* Create new node *)
  let node := Node next (Some modname) (d_name entry) (d_type entry) 0 None [] in
  let buf := parent_path +:+ "/" +:+ name node in
  let clone := clone_decision parent node buf in
  let '(parent, node) :=
    mark_node clone (dir_has ".replace" (d_sub entry)) parent node in
  let r := insert_child parent node in
  let parent := ins_parent r in
  match ins_child r with
  | None => (parent, S next)
  | Some node =>
      if travels_deeper node then
        (* Intermediate folder, travel deeper *)
        let chain' := name parent :: chain in
        let node_path := get_full_path chain' (name node) in
        let '(node', next') :=
          if Z.eqb (d_type entry) DT_DIR then       (* opendir succeeds *)
            fold_left (fun st e => construct_entry modname chain' node_path e st)
                      (d_sub entry) (node, S next)
          else (node, S next) in                    (* goto cleanup *)
        (set_children parent (<[ins_slot r := node']> (children parent)), next')
      else (parent, S next)
  end.

Definition construct_tree (modname : string) (chain : list string)
    (dir : option (list dirent)) (parent : node_entry) (next : ptr)
  : node_entry * ptr :=
  let parent_path := get_full_path chain (name parent) in
  match dir with
  | None => (parent, next)                       (* goto cleanup *)
  | Some ents =>
      fold_left (fun st e => construct_entry modname chain parent_path e st)
                ents (parent, next)
  end.

End Builder.

(** ** Effects *)

(** The calls with an effect outside the process, in program order. *)
Inductive event :=
| EBindMount (src tgt : string)          (* bind_mount(src, tgt) *)
| ECloneAttr (src tgt : string)          (* clone_attr(src, tgt) *)
| EMkdir (path : string)                 (* xmkdir(path, 0755) *)
| EMkdirP (path : string)                (* mkdir_p / xmkdir_p(path, 0755) *)
| EOpenNew (path : string)               (* close(open_new(path)) *)
| ECpAfc (src dst : string)              (* cp_afc(src, dst) *)
| ERename (src dst : string)
| EResizeImg (img : string) (size : Z)
| ECreateImg (img : string) (size : Z)
| EMountImage (img mnt : string)
| EUmountImage (mnt loop : string)
| ERmRf (path : string)
| ERmdir (path : string)
| EUnlink (path : string)
| ESymlink (target linkpath : string)
| ECloneDir (src dst : string)
| EXmount (src tgt : string)             (* xmount(src, tgt, "ext4", MS_RDONLY, NULL) *)
| ERunScript (path : string)             (* run_command(sh path); waitpid *)
| EReadPropFile (path : string)
| ESystem (cmd : string)
| EMonitorLogs
| EAck                                   (* write_int(client, 0); close(client) *)
| ELaunchHide                            (* detached start_magisk_hide thread *)
| ECreateUnblock                         (* close(open(UNBLOCKFILE, O_RDONLY | O_CREAT)) *)
| EThreadExit.                           (* pthread_exit(NULL) *)

(** ** Image handling *)

(** [round_size(a)] on C [int]s: the division truncates. *)
Definition round_size (a : Z) : Z := (Z.quot a 32 + 2) * 32.

(** What [merge_img] observes of its surroundings. *)
Record merge_env := MergeEnv {
  src_exists : bool;                 (* access(source, F_OK) == 0 *)
  dst_exists : bool;                 (* access(target, F_OK) == 0 *)
  s_used : Z; s_total : Z;           (* get_img_size(source, ...) *)
  t_used : Z; t_total : Z;           (* get_img_size(target, ...) *)
  s_loop : option string;            (* mount_image(source, SOURCE_TMP) *)
  t_loop : option string;            (* mount_image(target, TARGET_TMP) *)
  src_dir : option (list dirent);    (* opendir(SOURCE_TMP) and its entries *)
  in_target : string -> bool         (* access(path, F_OK) == 0 under TARGET_TMP *)
}.

Definition SOURCE_TMP := "/dev/source".
Definition TARGET_TMP := "/dev/target".

Definition merge_skipped (nm : string) : bool :=
  String.eqb nm "." || String.eqb nm ".." ||
  String.eqb nm ".core" || String.eqb nm "lost+found".

(** One round of the [readdir] loop of [merge_img]. *)
Definition merge_entry (env : merge_env) (entry : dirent) : list event :=
  if Z.eqb (d_type entry) DT_DIR then
    if merge_skipped (d_name entry) then []
    else
      (* Cleanup old module if exists *)
      let buf := TARGET_TMP +:+ "/" +:+ d_name entry in
      if in_target env buf then [ERmRf buf] else []
  else [].

(** [merge_img]: the trace and the returned [int]. *)
Definition merge_img (env : merge_env) (source target : string)
  : list event * Z :=
  if negb (src_exists env) then ([], 0)
  else if negb (dst_exists env) then ([ERename source target], 0)
  else
    (* resize target to worst case *)
    let n_total := round_size (s_used env + t_used env) in
    let tr :=
      (if negb (Z.eqb n_total (t_total env))
       then [EResizeImg target n_total] else [])
      ++ [EMkdir SOURCE_TMP; EMkdir TARGET_TMP; EMountImage source SOURCE_TMP] in
    match s_loop env with
    | None => (tr, 1)
    | Some sl =>
        let tr := tr ++ [EMountImage target TARGET_TMP] in
        match t_loop env with
        | None => (tr, 1)
        | Some tl =>
            match src_dir env with
            | None => (tr, 1)
            | Some ents =>
                (tr ++ flat_map (merge_entry env) ents
                    ++ [ECloneDir SOURCE_TMP TARGET_TMP;
                        (* Unmount all loop devices *)
                        EUmountImage SOURCE_TMP sl; EUmountImage TARGET_TMP tl;
                        ERmdir SOURCE_TMP; ERmdir TARGET_TMP;
                        EUnlink source], 0)
            end
        end
    end.

Definition trim_img (used total : Z) (img : string) : list event :=
  let new_size := round_size used in
  if negb (Z.eqb new_size total) then [EResizeImg img new_size] else [].

(** ** Scripts *)

Section Scripts.

Variable MOUNTPOINT COREDIR : string.
Variable access_f : string -> bool.   (* access(path, F_OK) == 0 *)
Variable access_x : string -> bool.   (* access(path, X_OK) == 0 *)

Definition exec_common_script (dir : option (list dirent)) (stage : string)
  : list event :=
  let buf := COREDIR +:+ "/" +:+ stage +:+ ".d" in
  match dir with
  | None => []
  | Some ents =>
      flat_map (fun entry =>
        if Z.eqb (d_type entry) DT_REG then
          let buf2 := buf +:+ "/" +:+ d_name entry in
          if access_x buf2 then [ERunScript buf2] else []
        else []) ents
  end.

Definition exec_module_script (module_list : list string) (stage : string)
  : list event :=
  flat_map (fun modname =>
    let buf := MOUNTPOINT +:+ "/" +:+ modname +:+ "/" +:+ stage +:+ ".sh" in
    if access_f buf then [ERunScript buf] else []) module_list.

End Scripts.

(** ** Magic Mount *)

(** The process-wide state the mounters touch: the allocator, the shared
    scratch buffer [buf2] (it can be read before it is rewritten) and the
    trace so far. *)
Record mstate := MState {
  ms_next : ptr;
  ms_buf2 : string;
  ms_trace : list event
}.

Definition emit (st : mstate) (evs : list event) : mstate :=
  MState (ms_next st) (ms_buf2 st) (ms_trace st ++ evs).
Definition set_buf2 (st : mstate) (s : string) : mstate :=
  MState (ms_next st) s (ms_trace st).
Definition set_next (st : mstate) (a : ptr) : mstate :=
  MState a (ms_buf2 st) (ms_trace st).

Definition has_flag (n : node_entry) (mask : Z) : bool :=
  negb (Z.eqb (Z.land (status n) mask) 0).

(** [printf("%s", child->module)]. *)
Definition module_str (n : node_entry) : string :=
  match module n with Some m => m | None => "(null)" end.

(** A [vec_for_each] loop whose body may update the visited child and the
    state, and may fail to return. *)
Fixpoint for_each_child (body : node_entry -> mstate -> option (node_entry * mstate))
    (cs : list node_entry) (st : mstate) : option (list node_entry * mstate) :=
  match cs with
  | [] => Some ([], st)
  | child :: rest =>
      match body child st with
      | None => None
      | Some (child', st') =>
          match for_each_child body rest st' with
          | None => None
          | Some (rest', st'') => Some (child' :: rest', st'')
          end
      end
  end.

(** The first loop of [clone_skeleton]: one mirror entry. *)
Definition insert_dummy (entry : dirent) (st : node_entry * ptr)
  : node_entry * ptr :=
  let '(node, next) := st in
  if dot_or_dotdot (d_name entry) then st else
  (* Create dummy node *)
  let dummy := Node next None (d_name entry) (d_type entry) IS_DUMMY None [] in
  (ins_parent (insert_child node dummy), S next).

Definition insert_dummies (ents : list dirent) (node : node_entry) (next : ptr)
  : node_entry * ptr :=
  fold_left (fun st e => insert_dummy e st) ents (node, next).

Section MagicMount.

Variable MOUNTPOINT MIRRDIR DUMMDIR : string.
(** [opendir(MIRRDIR full_path)] and its entries. *)
Variable mirror : string -> option (list dirent).

(** The body of the second loop of [clone_skeleton]; [recurse] is
    [clone_skeleton] itself. *)
Definition clone_child
    (recurse : node_entry -> mstate -> option (node_entry * mstate))
    (full_path : string) (child : node_entry) (st : mstate)
  : option (node_entry * mstate) :=
  let buf := DUMMDIR +:+ full_path +:+ "/" +:+ name child in
  (* Create the dummy file/directory *)
  let st := emit st (if IS_DIR child then [EMkdir buf]
                     else if IS_REG child then [EOpenNew buf]
                     else []) in
  (* Links will be handled later *)
  let finish (st : mstate) :=
    if IS_LNK child then
      (* Copy symlinks directly *)
      Some (child, emit st [ECpAfc (ms_buf2 st) buf])
    else
      Some (child, emit st [EBindMount (ms_buf2 st)
                                       (full_path +:+ "/" +:+ name child)]) in
  if has_flag child IS_VENDOR then
    Some (child,
          emit st (if IS_LNK child
                   then [ECpAfc (MIRRDIR +:+ "/system/vendor") "/system/vendor"]
                   else []))
  else if has_flag child IS_MODULE then
    (* Mount from module file to dummy file *)
    finish (set_buf2 st (MOUNTPOINT +:+ "/" +:+ module_str child +:+ full_path
                           +:+ "/" +:+ name child))
  else if has_flag child (Z.lor IS_SKEL IS_INTER) then
    (* It's a intermediate folder, recursive clone *)
    recurse child st
  else if has_flag child IS_DUMMY then
    (* Mount from mirror to dummy file *)
    finish (set_buf2 st (MIRRDIR +:+ full_path +:+ "/" +:+ name child))
  else finish st.

Fixpoint clone_skeleton (fuel : nat) (chain : list string) (node : node_entry)
    (st : mstate) : option (node_entry * mstate) :=
  match fuel with
  | O => None
  | S fuel' =>
      (* Clone the structure *)
      let full_path := get_full_path chain (name node) in
      match mirror (MIRRDIR +:+ full_path) with
      | None => Some (node, st)                     (* goto cleanup *)
      | Some ents =>
          let '(node, next) := insert_dummies ents node (ms_next st) in
          let buf := DUMMDIR +:+ full_path in
          let st :=
            emit (set_next st next)
                 ([EMkdirP buf; ECloneAttr full_path buf]
                  ++ (if has_flag node IS_SKEL
                      then [EBindMount buf full_path] else [])) in
          match for_each_child
                  (clone_child (clone_skeleton fuel' (name node :: chain)) full_path)
                  (children node) st with
          | None => None
          | Some (cs, st) => Some (set_children node cs, st)
          end
      end
  end.

Fixpoint magic_mount (fuel : nat) (chain : list string) (node : node_entry)
    (st : mstate) : option (node_entry * mstate) :=
  match fuel with
  | O => None
  | S fuel' =>
      if has_flag node IS_MODULE then
        (* The real deal, mount module item *)
        let real_path := get_full_path chain (name node) in
        let buf := MOUNTPOINT +:+ "/" +:+ module_str node +:+ real_path in
        Some (node, emit st [EBindMount buf real_path])
      else if has_flag node IS_SKEL then
        (* The node is labeled to be cloned with skeleton, lets do it *)
        clone_skeleton fuel chain node st
      else if has_flag node IS_INTER then
        (* It's an intermediate node, travel deeper *)
        match for_each_child (magic_mount fuel' (name node :: chain))
                             (children node) st with
        | None => None
        | Some (cs, st) => Some (set_children node cs, st)
        end
      else Some (node, st)
  end.

End MagicMount.

(** The longest chain of nodes below and including [n]: fuel that lets the
    mounters run to completion. *)
Fixpoint height (n : node_entry) : nat :=
  match n with
  | Node _ _ _ _ _ _ cs => S (fold_right (fun c m => Nat.max (height c) m) 0%nat cs)
  end.

(** ** Simple Mount *)

Section SimpleMount.

Variable CACHEMOUNT : string.
Variable live_access : string -> bool.   (* access(path, F_OK) == 0 *)

(** One round of the [readdir] loop of [simple_mount(path)], with the
    recursive call inlined. *)
Fixpoint simple_mount_entry (path : string) (entry : dirent) {struct entry}
  : list event :=
  if dot_or_dotdot (d_name entry) then [] else
  (* Target file path *)
  let buf2 := path +:+ "/" +:+ d_name entry in
  (* Only mount existing file *)
  if negb (live_access buf2) then []
  else if Z.eqb (d_type entry) DT_DIR then
    flat_map (simple_mount_entry buf2) (d_sub entry)
  else if Z.eqb (d_type entry) DT_REG then
    (* Actual file path *)
    let buf := CACHEMOUNT +:+ buf2 in
    (* Clone all attributes; finally, mount the file *)
    [ECloneAttr buf2 buf; EBindMount buf buf2]
  else [].

(** [simple_mount(path)]; [dir] is [opendir(CACHEMOUNT path)]. *)
Definition simple_mount (path : string) (dir : option (list dirent))
  : list event :=
  match dir with
  | None => []
  | Some ents => flat_map (simple_mount_entry path) ents
  end.

End SimpleMount.

(** ** Entry points *)

Definition unblock_boot_process : list event := [ECreateUnblock; EThreadExit].

(** [post_fs]: the two staged directories are [opendir(CACHEMOUNT
    "/system")] and [opendir(CACHEMOUNT "/vendor")]. *)
Definition post_fs (CACHEMOUNT : string) (live_access : string -> bool)
    (uninstaller disablefile : bool)
    (staged_system staged_vendor : option (list dirent)) : list event :=
  [EMonitorLogs; EAck]
  ++ (* Uninstall or core only mode *)
     (if uninstaller || disablefile then []
      else simple_mount CACHEMOUNT live_access "/system" staged_system
           ++ simple_mount CACHEMOUNT live_access "/vendor" staged_vendor)
  ++ unblock_boot_process.

(** [strstr(s, sub) != NULL]. *)
Fixpoint strstr (s sub : string) : bool :=
  String.prefix sub s ||
  match s with
  | EmptyString => false
  | String _ s' => strstr s' sub
  end.

Definition isspace (c : Ascii.ascii) : bool :=
  let n := Ascii.nat_of_ascii c in
  Nat.eqb n 32 || (Nat.leb 9 n && Nat.leb n 13).

Fixpoint skip_space (s : string) : string :=
  match s with
  | EmptyString => EmptyString
  | String c s' => if isspace c then skip_space s' else s
  end.

Fixpoint take_word (s : string) : string :=
  match s with
  | EmptyString => EmptyString
  | String c s' => if isspace c then EmptyString else String c (take_word s')
  end.

(** [sscanf(line, "%s", buf)]: the first blank-separated word. *)
Definition sscanf_s (line : string) : string := take_word (skip_space line).

Definition dir_lookup (nm : string) (es : list dirent) : option dirent :=
  List.find (fun e => String.eqb (d_name e) nm) es.

(** [post_fs_data(): Extract the vendor node out of system tree and swap
    with placeholder]: the loop over the children of [sys_root] from the
    given list on.  Returns the new vector and the former vendor node. *)
Fixpoint vendor_swap (seperate_vendor : bool) (next : ptr)
    (cs : list node_entry) : option (list node_entry * node_entry) :=
  match cs with
  | [] => None
  | child :: rest =>
      if String.eqb (name child) "vendor" then
        let ven_root := child in
        let child :=
          Node next None (name ven_root)
               (if seperate_vendor then DT_LNK else DT_DIR)
               IS_VENDOR (parent ven_root) [] in
        Some (child :: rest, set_parent (set_name ven_root "/vendor") None)
      else
        match vendor_swap seperate_vendor next rest with
        | None => None
        | Some (rest', ven_root) => Some (child :: rest', ven_root)
        end
  end.

(** The state of the module loop of [post_fs_data]. *)
Record loader := Loader {
  ld_list : list string;       (* module_list *)
  ld_has_modules : bool;
  ld_root : node_entry;        (* sys_root *)
  ld_next : ptr;
  ld_trace : list event
}.

(** What [post_fs_data] observes of its surroundings. *)
Record world := World {
  w_latelogmon : bool;               (* access(LATELOGMON, F_OK) == 0 *)
  w_check_data : bool;
  w_uninstaller : bool;              (* access(UNINSTALLER, F_OK) == 0 *)
  w_cache_data_bin : bool;           (* access("/cache/data_bin", F_OK) == 0 *)
  w_magisk_inject : bool;
  w_merge_cache : merge_env;         (* for merge_img("/cache/magisk.img", MAINIMG) *)
  w_merge_data : merge_env;          (* for merge_img("/data/magisk_merge.img", MAINIMG) *)
  w_mainimg : bool;                  (* access(MAINIMG, F_OK) == 0 after the merges *)
  w_create_img : Z;                  (* create_img(MAINIMG, 64) *)
  w_mount_first : option string;     (* the first mount_image(MAINIMG, MOUNTPOINT) *)
  w_common_dir : option (list dirent); (* opendir(COREDIR "/post-fs-data.d") *)
  w_access_x : string -> bool;       (* access(path, X_OK) == 0 *)
  w_disablefile : bool;              (* access(DISABLEFILE, F_OK) == 0 *)
  w_modules : list dirent;           (* the entries of MOUNTPOINT *)
  w_live_access : string -> bool;    (* access(path, F_OK) == 0 on live paths *)
  w_live_islnk : string -> bool;     (* xstat(path, &s); S_ISLNK(s.st_mode) *)
  w_used : Z; w_total : Z;           (* get_img_size(MAINIMG, ...) in trim_img *)
  w_mount_again : option string;     (* the second mount_image(MAINIMG, MOUNTPOINT) *)
  w_proc_mounts : list string;       (* the lines of /proc/mounts *)
  w_mirror : string -> option (list dirent);
  w_script : string -> bool;         (* access(path, F_OK) == 0 on module scripts *)
  w_hostsfile : bool;                (* access(HOSTSFILE, F_OK) == 0 *)
  w_hide_prop : option string        (* getprop(MAGISKHIDE_PROP) *)
}.

(** Create the system root entry: [xcalloc], then the name and the
    status; the module loop starts with an empty list. *)
Definition fresh_sys_root : node_entry :=
  Node 0%nat None "/system" 0 IS_INTER None [].

Definition initial_loader : loader :=
  Loader [] false fresh_sys_root 1%nat [].

(** Sequencing of traces: the events [evs], then the rest of the stage. *)
Definition and_then (evs : list event) (rest : list event * list string)
  : list event * list string :=
  (evs ++ fst rest, snd rest).

Notation "evs ;> rest" := (and_then evs rest)
  (at level 100, rest at level 200, right associativity, only parsing).

Section PostFsData.

(** Path macros of [magisk.h]. *)
Variable MOUNTPOINT COREDIR MIRRDIR DUMMDIR MAINIMG DATABIN UNINSTALLER HOSTSFILE
  : string.
Variable w : world.

(** One round of the module loop. *)
Definition load_module (entry : dirent) (st : loader) : loader :=
  if Z.eqb (d_type entry) DT_DIR then
    if merge_skipped (d_name entry) then st else
    let buf := MOUNTPOINT +:+ "/" +:+ d_name entry in
    (* Check whether remove *)
    if dir_has "remove" (d_sub entry) then
      Loader (ld_list st) (ld_has_modules st) (ld_root st) (ld_next st)
             (ld_trace st ++ [ERmRf buf])
    (* Check whether disable *)
    else if dir_has "disable" (d_sub entry) then st
    else
      (* Add the module to list *)
      let modname := d_name entry in
      let module_list := ld_list st ++ [modname] in
      (* Read props *)
      let tr := ld_trace st ++
                (if dir_has "system.prop" (d_sub entry)
                 then [EReadPropFile (buf +:+ "/system.prop")] else []) in
      (* Check whether enable auto_mount *)
      if negb (dir_has "auto_mount" (d_sub entry)) then
        Loader module_list (ld_has_modules st) (ld_root st) (ld_next st) tr
      else
        (* Double check whether the system folder exists *)
        match dir_lookup "system" (d_sub entry) with
        | None =>
            Loader module_list (ld_has_modules st) (ld_root st) (ld_next st) tr
        | Some sys =>
            (* Construct structure *)
            (* If /system/vendor exists in module, create a link outside *)
            let buf2 := buf +:+ "/system/vendor" in
            let tr := tr ++
                      (if dir_has "vendor" (d_sub sys)
                       then let buf := MOUNTPOINT +:+ "/" +:+ modname +:+ "/vendor" in
                            [EUnlink buf; ESymlink buf2 buf]
                       else []) in
            let '(root, next) :=
              construct_tree (w_live_access w) (w_live_islnk w) modname []
                             (opendir sys) (ld_root st) (ld_next st) in
            Loader module_list true root next tr
        end
  else st.

(** The module loop over the entries of MOUNTPOINT. *)
Definition load_modules : loader :=
  fold_left (fun st e => load_module e st) (w_modules w) initial_loader.

(** The scan of /proc/mounts, one line: [seperate_vendor], the value left
    in [buf2], and the trace. *)
Definition mount_mirror_line (line : string) (st : bool * string * list event)
  : bool * string * list event :=
  let '(seperate_vendor, old_buf2, tr) := st in
  if strstr line " /system " then
    let buf := sscanf_s line in
    let buf2 := MIRRDIR +:+ "/system" in
    (seperate_vendor, buf2, tr ++ [EMkdirP buf2; EXmount buf buf2])
  else if strstr line " /vendor " then
    let buf := sscanf_s line in
    let buf2 := MIRRDIR +:+ "/vendor" in
    (true, buf2, tr ++ [EMkdirP buf2; EXmount buf buf2])
  else st.

(** Mount mirrors; [buf2] is what the scratch buffer held before. *)
Definition mount_mirrors (buf2 : string) : bool * string * list event :=
  let '(seperate_vendor, buf2, tr) :=
    fold_left (fun st line => mount_mirror_line line st) (w_proc_mounts w)
              (false, buf2, []) in
  if negb seperate_vendor then
    let buf := MIRRDIR +:+ "/system/vendor" in
    let buf2 := MIRRDIR +:+ "/vendor" in
    (seperate_vendor, buf2, tr ++ [ESymlink buf buf2])
  else (seperate_vendor, buf2, tr).

(** The mounters given enough fuel to return. *)
Definition magic_mount_root (node : node_entry) (st : mstate)
  : node_entry * mstate :=
  match magic_mount MOUNTPOINT MIRRDIR DUMMDIR (w_mirror w)
                    (height node) [] node st with
  | Some r => r
  | None => (node, st)
  end.

(** The part of [post_fs_data] guarded by [has_modules]: mirrors, vendor
    hoist, magic mount.  Returns the two roots and the trace. *)
Definition mount_overlay (sys_root : node_entry) (next : ptr) (buf2 : string)
  : node_entry * option node_entry * list event :=
  (* Mount mirrors *)
  let '(seperate_vendor, buf2, tr) := mount_mirrors buf2 in
  (* Extract the vendor node out of system tree and swap with placeholder *)
  let '(sys_root, ven_root, next) :=
    match vendor_swap seperate_vendor next (children sys_root) with
    | Some (cs, ven_root) => (set_children sys_root cs, Some ven_root, S next)
    | None => (sys_root, None, next)
    end in
  (* Magic!! *)
  let '(sys_root, st) := magic_mount_root sys_root (MState next buf2 tr) in
  match ven_root with
  | Some v =>
      let '(v, st) := magic_mount_root v st in
      (sys_root, Some v, ms_trace st)
  | None => (sys_root, None, ms_trace st)
  end.

(** The tail of [post_fs_data] from the label [core_only] on. *)
Definition core_only : list event :=
  (* Systemless hosts *)
  (if w_hostsfile w then [EBindMount HOSTSFILE "/system/etc/hosts"] else [])
  (* Enable magiskhide by default, only disable when set explicitly *)
  ++ (match w_hide_prop w with
      | Some "0" => []
      | _ => [ELaunchHide]
      end)
  ++ unblock_boot_process.

(** [post_fs_data]: the trace of the stage and the module list it leaves.
    [evs ;> rest] is: do [evs], then go on with [rest]. *)
Definition post_fs_data : list event * list string :=
  ((if w_latelogmon w then [EMonitorLogs] else []) ++ [EAck]) ;>
  if negb (w_check_data w) then (unblock_boot_process, [])
  (* uninstaller *)
  else if w_uninstaller w then
    ([ECreateUnblock;
      ESystem ("(BOOTMODE=true sh " +:+ UNINSTALLER +:+ ") &")], [])
  else
    (* Cache support *)
    ((if w_cache_data_bin w
      then [ERmRf DATABIN; ERename "/cache/data_bin" DATABIN] else [])
     (* Magisk Manual Injector support *)
     ++ (if w_magisk_inject w
         then [ERmRf DATABIN; ERename "/data/local/tmp/magisk_inject" DATABIN]
         else [])
     ++ [ESystem "mv /data/magisk/stock_boot* /data;"]) ;>
    (* Merge images *)
    let m1 := merge_img (w_merge_cache w) "/cache/magisk.img" MAINIMG in
    fst m1 ;>
    if negb (Z.eqb (snd m1) 0) then (unblock_boot_process, []) else
    let m2 := merge_img (w_merge_data w) "/data/magisk_merge.img" MAINIMG in
    fst m2 ;>
    if negb (Z.eqb (snd m2) 0) then (unblock_boot_process, []) else
    let new_img := negb (w_mainimg w) in
    (if new_img then [ECreateImg MAINIMG 64] else []) ;>
    if new_img && negb (Z.eqb (w_create_img w) 0)
    then (unblock_boot_process, []) else
    (* Mounting magisk image *)
    [EMountImage MAINIMG MOUNTPOINT] ;>
    match w_mount_first w with
    | None => (unblock_boot_process, [])
    | Some magiskloop =>
        ((if new_img
          then [EMkdir COREDIR; EMkdir (COREDIR +:+ "/post-fs-data.d");
                EMkdir (COREDIR +:+ "/service.d");
                EMkdir (COREDIR +:+ "/props")]
          else [])
         (* Run common scripts *)
         ++ exec_common_script COREDIR (w_access_x w) (w_common_dir w)
                               "post-fs-data") ;>
        (* Core only mode *)
        if w_disablefile w then (core_only, []) else
        (* Create the system root entry; travel through each modules *)
        let ld := load_modules in
        ld_trace ld ;>
        (* Trim image *)
        ([EUmountImage MOUNTPOINT magiskloop]
         ++ trim_img (w_used w) (w_total w) MAINIMG) ;>
        (* Remount them back :) *)
        [EMountImage MAINIMG MOUNTPOINT] ;>
        (if ld_has_modules ld then
           (* whatever buf2 held is overwritten while mounting the mirrors *)
           snd (mount_overlay (ld_root ld) (ld_next ld) EmptyString)
         else []) ;>
        (* Execute module scripts *)
        exec_module_script MOUNTPOINT (w_script w) (ld_list ld)
                           "post-fs-data" ;>
        (core_only, ld_list ld)
    end.

(** The stage gets as far as the first [mount_image(MAINIMG, MOUNTPOINT)]:
    data is there, no uninstaller, both merges and the creation of a
    missing image succeed. *)
Definition reaches_mount : Prop :=
  w_check_data w = true /\ w_uninstaller w = false /\
  snd (merge_img (w_merge_cache w) "/cache/magisk.img" MAINIMG) = 0 /\
  snd (merge_img (w_merge_data w) "/data/magisk_merge.img" MAINIMG) = 0 /\
  (w_mainimg w = true \/ w_create_img w = 0).

(** The trace up to and including that first mount. *)
Definition up_to_mount : list event :=
  ((if w_latelogmon w then [EMonitorLogs] else []) ++ [EAck])
  ++ ((if w_cache_data_bin w
       then [ERmRf DATABIN; ERename "/cache/data_bin" DATABIN] else [])
      ++ (if w_magisk_inject w
          then [ERmRf DATABIN; ERename "/data/local/tmp/magisk_inject" DATABIN]
          else [])
      ++ [ESystem "mv /data/magisk/stock_boot* /data;"])
  ++ fst (merge_img (w_merge_cache w) "/cache/magisk.img" MAINIMG)
  ++ fst (merge_img (w_merge_data w) "/data/magisk_merge.img" MAINIMG)
  ++ (if negb (w_mainimg w) then [ECreateImg MAINIMG 64] else [])
  ++ [EMountImage MAINIMG MOUNTPOINT].

(** What follows a successful first mount, up to the module loop. *)
Definition image_setup : list event :=
  (if negb (w_mainimg w)
   then [EMkdir COREDIR; EMkdir (COREDIR +:+ "/post-fs-data.d");
         EMkdir (COREDIR +:+ "/service.d"); EMkdir (COREDIR +:+ "/props")]
   else [])
  ++ exec_common_script COREDIR (w_access_x w) (w_common_dir w) "post-fs-data".

End PostFsData.

(** ** Late start *)

(** The effects of [late_start]: those of the other stages, and its own. *)
Inductive late_event :=
| LStage (e : event)                (* an effect the other stages have too *)
| LJoinSepol                        (* pthread_join(sepol_patch, NULL) *)
| LSetprop (key value : string)     (* setprop(key, value) *)
| LSleep (seconds : Z)              (* sleep(seconds) *)
| LInstallManager (apk : string)    (* run_command(... Pm install -r apk); waitpid *)
| LFreeBuffers                      (* free(buf); free(buf2); buf = buf2 = NULL *)
| LDestroyModuleList.               (* vec_deep_destroy(&module_list) *)

Section LateStart.

Variable MOUNTPOINT COREDIR MANAGERAPK : string.
Variable access_f : string -> bool.   (* access(path, F_OK) == 0 *)
Variable access_x : string -> bool.   (* access(path, X_OK) == 0 *)
Variable service_dir : option (list dirent).  (* opendir(COREDIR "/service.d") *)
Variable disablefile : bool.          (* access(DISABLEFILE, F_OK) == 0 *)
Variable manager_apk : bool.          (* access(MANAGERAPK, F_OK) == 0 *)
(** What [buf] holds after [fdgets(buf, PATH_MAX, apk_res)] in the round
    with the given number, counted from 0. *)
Variable pm_output : nat -> string.

(** The [while (1)] loop of [late_start] from the round [attempt] on;
    [None] when the fuel does not reach a round that leaves the loop. *)
Fixpoint install_manager (fuel attempt : nat) : option (list late_event) :=
  match fuel with
  | O => None
  | S fuel' =>
      let round := [LSleep 5; LInstallManager MANAGERAPK] in
      (* Keep trying until pm is started *)
      if strstr (pm_output attempt) "Error:" then
        match install_manager fuel' (S attempt) with
        | Some rest => Some (round ++ rest)
        | None => None
        end
      else Some round
  end.

(** [late_start]: the trace and the module list it leaves. *)
Definition late_start (fuel : nat) (module_list : list string)
  : option (list late_event * list string) :=
  let tr :=
    [LStage EAck; LJoinSepol]
    (* Run scripts after full patch, most reliable way to run scripts *)
    ++ map LStage (exec_common_script COREDIR access_x service_dir "service") in
  (* Core only mode *)
  if disablefile then Some (tr ++ [LSetprop "ro.magisk.disable" "1"], module_list)
  else
    let tr :=
      tr ++ map LStage (exec_module_script MOUNTPOINT access_f module_list
                                           "service") in
    (* All boot stage done, cleanup everything *)
    let cleanup := [LFreeBuffers; LDestroyModuleList] in
    (* Install Magisk Manager if exists *)
    if manager_apk then
      match install_manager fuel 0 with
      | None => None
      | Some rounds =>
          Some (tr ++ rounds ++ [LStage (EUnlink MANAGERAPK)] ++ cleanup, [])
      end
    else Some (tr ++ cleanup, []).

End LateStart.

(** ** Vocabulary of the statements *)

(** The node reached from [n] by following child names. *)
Fixpoint find_path (path : list string) (n : node_entry) : option node_entry :=
  match path with
  | [] => Some n
  | nm :: rest =>
      match List.find (fun c => String.eqb (name c) nm) (children n) with
      | Some c => find_path rest c
      | None => None
      end
  end.

(** The [parent] pointer of [c] is the address [a]. *)
Definition points_to (a : ptr) (c : node_entry) : bool :=
  match parent c with
  | Some q => Nat.eqb q a
  | None => false
  end.

(** Below [n], every child points back to the node that owns it. *)
Fixpoint well_linked (n : node_entry) : bool :=
  match n with
  | Node a _ _ _ _ _ cs =>
      forallb (fun c => points_to a c && well_linked c) cs
  end.

(** [descends root anc n]: [n] lies in the tree of [root], below the
    ancestors [anc] (the root first). *)
Inductive descends : node_entry -> list node_entry -> node_entry -> Prop :=
| descends_here n : descends n [] n
| descends_child p c anc n :
    In c (children p) -> descends c anc n -> descends p (p :: anc) n.

(** The first child of a vector carrying a given name, with its slot. *)
Definition first_named (nm : string) (cs : list node_entry) (i : nat)
    (e : node_entry) : Prop :=
  cs !! i = Some e /\ name e = nm /\
  forall j e', (j < i)%nat -> cs !! j = Some e' -> name e' <> nm.

(** The same search as a function. *)
Fixpoint find_first (nm : string) (cs : list node_entry)
  : option (nat * node_entry) :=
  match cs with
  | [] => None
  | e :: rest =>
      if String.eqb (name e) nm then Some (0%nat, e)
      else match find_first nm rest with
           | Some (i, x) => Some (S i, x)
           | None => None
           end
  end.

(** The tree after the module loop of [post_fs_data] has called
    [construct_tree] for each of the given modules (name and content of
    its [system] directory), in order. *)
Definition build (live_access live_islnk : string -> bool)
    (mods : list (string * list dirent)) (start : node_entry * ptr)
  : node_entry * ptr :=
  fold_left (fun st m =>
               construct_tree live_access live_islnk (fst m) []
                              (Some (snd m)) (fst st) (snd st))
            mods start.

(** The statuses [construct_tree] leaves behind: nothing, [IS_INTER],
    [IS_INTER | IS_SKEL] or [IS_MODULE], children only below the two in
    the middle. *)
Definition inner_status (s : Z) : bool :=
  Z.eqb s IS_INTER || Z.eqb s (Z.lor IS_INTER IS_SKEL).

Fixpoint well_marked (n : node_entry) : bool :=
  match n with
  | Node _ _ _ _ s _ cs =>
      (inner_status s
       || ((Z.eqb s 0 || Z.eqb s IS_MODULE)
           && match cs with [] => true | _ => false end))
      && forallb well_marked cs
  end.

(** [walked live path ents dirpath dirents]: [simple_mount(path)], having
    listed [ents], comes to list the staged directory [dirents] for the
    live path [dirpath]: it descends only through staged directories
    whose live path exists. *)
Inductive walked (live_access : string -> bool)
  : string -> list dirent -> string -> list dirent -> Prop :=
| walked_top path ents : walked live_access path ents path ents
| walked_sub path ents e dirpath dirents :
    In e ents ->
    dot_or_dotdot (d_name e) = false ->
    live_access (path +:+ "/" +:+ d_name e) = true ->
    d_type e = DT_DIR ->
    walked live_access (path +:+ "/" +:+ d_name e) (d_sub e) dirpath dirents ->
    walked live_access path ents dirpath dirents.

(** A staged regular file in a walked directory whose live target [tgt]
    exists; [src] is its staged path. *)
Definition staged_file (CACHEMOUNT : string) (live_access : string -> bool)
    (path : string) (ents : list dirent) (src tgt : string) : Prop :=
  exists dirpath dirents e,
    walked live_access path ents dirpath dirents /\
    In e dirents /\
    dot_or_dotdot (d_name e) = false /\
    d_type e = DT_REG /\
    tgt = dirpath +:+ "/" +:+ d_name e /\
    src = CACHEMOUNT +:+ tgt /\
    live_access tgt = true.

(** What [simple_mount] does for one live target. *)
Definition mount_pair (CACHEMOUNT tgt : string) : list event :=
  [ECloneAttr tgt (CACHEMOUNT +:+ tgt); EBindMount (CACHEMOUNT +:+ tgt) tgt].

(** A node put into slot [i] by the first loop of [clone_skeleton]: a
    dummy, where the old vector had either a node of the same name with a
    status below [IS_DUMMY], or no slot [i] and no node of that name. *)
Definition dummy_slot (old : list node_entry) (i : nat) (d : node_entry)
  : Prop :=
  status d = IS_DUMMY /\ module d = None /\ children d = [] /\
  match old !! i with
  | Some e => name e = name d /\ status e < IS_DUMMY
  | None => forall e, In e old -> name e <> name d
  end.

(** The vector [new] is [old] with dummies added. *)
Definition dummies_added (old new : list node_entry) : Prop :=
  (length old <= length new)%nat /\
  forall i d, new !! i = Some d -> old !! i = Some d \/ dummy_slot old i d.

(** The number of nodes of a subtree. *)
Fixpoint node_count (n : node_entry) : nat :=
  match n with
  | Node _ _ _ _ _ _ cs => S (fold_right (fun c m => (node_count c + m)%nat) 0%nat cs)
  end.

(** No name occurs twice. *)
Fixpoint names_distinct (l : list string) : bool :=
  match l with
  | [] => true
  | x :: l' => negb (existsb (String.eqb x) l') && names_distinct l'
  end.

(** Below and at [n], no directory has two children of one name. *)
Fixpoint unique_names (n : node_entry) : bool :=
  match n with
  | Node _ _ _ _ _ _ cs =>
      names_distinct (map name cs) && forallb unique_names cs
  end.

(** The tests of the module loop on an entry of MOUNTPOINT: a module
    directory that is deleted, one that is loaded, one that is handed to
    [construct_tree]. *)
Definition module_dir (e : dirent) : bool :=
  Z.eqb (d_type e) DT_DIR && negb (merge_skipped (d_name e)).

Definition module_removed (e : dirent) : bool :=
  module_dir e && dir_has "remove" (d_sub e).

Definition module_active (e : dirent) : bool :=
  module_dir e && negb (dir_has "remove" (d_sub e))
  && negb (dir_has "disable" (d_sub e)).

Definition module_overlays (e : dirent) : bool :=
  module_active e && dir_has "auto_mount" (d_sub e)
  && dir_has "system" (d_sub e).

(** [path] is [dirpath] or lies below it. *)
Definition under (dirpath path : string) : Prop :=
  path = dirpath \/ exists rest, path = dirpath +:+ "/" +:+ rest.

(** An event that neither mounts, nor runs a script, nor reads a property
    file. *)
Definition quiet_event (e : event) : bool :=
  match e with
  | EBindMount _ _ | EXmount _ _ | ERunScript _ | EReadPropFile _ => false
  | _ => true
  end.

(** A run of [post_fs_data] that gives up: it leaves no module list, and
    ends by unblocking the boot after events that neither mount, nor run
    a script, nor read a property file. *)
Definition stops_quietly (r : list event * list string) : Prop :=
  snd r = [] /\
  exists before,
    fst r = before ++ unblock_boot_process /\
    forallb quiet_event before = true.

(** Every bind mount among [evs] has its target at or below [path]. *)
Definition mounts_below (path : string) (evs : list event) : Prop :=
  forall src tgt, In (EBindMount src tgt) evs -> under path tgt.

(** ** Example inputs *)

Definition reg (nm : string) : dirent := Dirent nm DT_REG [].
Definition dir (nm : string) (sub : list dirent) : dirent := Dirent nm DT_DIR sub.
Definition fifo (nm : string) : dirent := Dirent nm DT_FIFO [].

Definition everything_exists : string -> bool := fun _ => true.
Definition nothing_is_a_link : string -> bool := fun _ => false.

(** A module tree [system/etc/hosts]. *)
Definition hosts_module : list dirent := [dir "etc" [reg "hosts"]].

(** The image-merge scenario: 10 used in the source, 20 used and 32 in
    total in the target. *)
Definition merge_scenario : merge_env :=
  MergeEnv true true 10 16 20 32 (Some "/dev/block/loop0")
           (Some "/dev/block/loop1")
           (Some [dir "." []; dir ".." []; dir ".core" []; dir "lost+found" [];
                  dir "modA" []; dir "modB" []; reg "note"])
           (fun path => String.eqb path "/dev/target/modA").

(** A merge with nothing to merge: the source image is absent. *)
Definition no_merge : merge_env :=
  MergeEnv false true 0 0 0 0 None None None (fun _ => false).

(** A boot with data mounted, no uninstaller, nothing staged for merging,
    an existing image whose first mount succeeds, and [/system] as the
    only partition of interest in /proc/mounts. *)
Definition example_world (modules : list dirent)
    (live_access : string -> bool) (mount_again : option string)
    (mirror : string -> option (list dirent)) : world :=
  World false true false false false no_merge no_merge true 0
        (Some "/dev/block/loop0") None (fun _ => false) false
        modules live_access nothing_is_a_link 10 64 mount_again
        ["/dev/block/sda1 /system ext4 ro 0 0"] mirror
        (fun _ => true) false (Some "0").

(** Modules [A] and [B], in this order, both with [system/etc/hosts]. *)
Definition two_hosts_world : world :=
  example_world
    [dir "A" [reg "auto_mount"; dir "system" hosts_module];
     dir "B" [reg "auto_mount"; dir "system" hosts_module]]
    everything_exists (Some "/dev/block/loop0") (fun _ => None).

(** A module that adds the new file [/system/etc/new]. *)
Definition new_file_module : dirent :=
  dir "modA" [reg "auto_mount"; dir "system" [dir "etc" [reg "new"]]].

Definition all_but_new : string -> bool :=
  fun path => negb (String.eqb path "/system/etc/new").

Definition with_proc_mounts (w : world) (lines : list string) : world :=
  World (w_latelogmon w) (w_check_data w) (w_uninstaller w)
        (w_cache_data_bin w) (w_magisk_inject w) (w_merge_cache w)
        (w_merge_data w) (w_mainimg w) (w_create_img w) (w_mount_first w)
        (w_common_dir w) (w_access_x w) (w_disablefile w) (w_modules w)
        (w_live_access w) (w_live_islnk w) (w_used w) (w_total w)
        (w_mount_again w) lines (w_mirror w) (w_script w) (w_hostsfile w)
        (w_hide_prop w).

Definition with_mount_again (w : world) (loop : option string) : world :=
  World (w_latelogmon w) (w_check_data w) (w_uninstaller w)
        (w_cache_data_bin w) (w_magisk_inject w) (w_merge_cache w)
        (w_merge_data w) (w_mainimg w) (w_create_img w) (w_mount_first w)
        (w_common_dir w) (w_access_x w) (w_disablefile w) (w_modules w)
        (w_live_access w) (w_live_islnk w) (w_used w) (w_total w)
        loop (w_proc_mounts w) (w_mirror w) (w_script w) (w_hostsfile w)
        (w_hide_prop w).

(** The mirror of a system whose [/system/etc] holds [hosts] only. *)
Definition etc_mirror : string -> option (list dirent) :=
  fun path =>
    if String.eqb path "/dev/magisk/mirror/system/etc"
    then Some [reg "hosts"] else None.

(** A boot with the module of [new_file_module] in which the image cannot
    be mounted again after trimming. *)
Definition remount_fails : world :=
  example_world [new_file_module] all_but_new None etc_mirror.

(** A module with a stage script and a property file, but without
    [auto_mount] and without [system/]. *)
Definition scripts_only_module : dirent :=
  dir "modB" [reg "post-fs-data.sh"; reg "system.prop"].

Definition scripts_only_world : world :=
  example_world [scripts_only_module] everything_exists
                (Some "/dev/block/loop0") (fun _ => None).

(** A module that adds [/system/etc/new] and ships a named pipe for the
    existing [/system/etc/pipe]; the mirror of [/system/etc] lists the
    pipe and [hosts]. *)
Definition pipe_module : dirent :=
  dir "modA" [reg "auto_mount";
              dir "system" [dir "etc" [fifo "pipe"; reg "new"]]].

Definition pipe_mirror : string -> option (list dirent) :=
  fun path =>
    if String.eqb path "/dev/magisk/mirror/system/etc"
    then Some [fifo "pipe"; reg "hosts"] else None.

Definition pipe_world : world :=
  example_world [pipe_module] all_but_new (Some "/dev/block/loop0") pipe_mirror.

(** A system tree to which a module gave [vendor/lib/x.so], on a device
    whose [/vendor] is a partition of its own. *)
Definition vendor_node : node_entry :=
  Node 1%nat (Some "modA") "vendor" DT_DIR IS_INTER (Some 0%nat)
       [Node 2%nat (Some "modA") "lib" DT_DIR IS_INTER (Some 1%nat)
             [Node 3%nat (Some "modA") "x.so" DT_REG IS_MODULE (Some 2%nat) []]].

Definition vendor_sys_root : node_entry :=
  Node 0%nat None "/system" 0 IS_INTER None [vendor_node].

Definition vendor_world : world :=
  with_proc_mounts (example_world [] everything_exists None (fun _ => None))
    ["/dev/block/sda1 /system ext4 ro 0 0";
     "/dev/block/sda2 /vendor ext4 ro 0 0"].

(** A live system without [/system/bin/new]. *)
Definition live_without_new : string -> bool :=
  fun path => negb (String.eqb path "/system/bin/new").

(** A merge whose second loop mount fails. *)
Definition merge_target_busy : merge_env :=
  MergeEnv true true 10 16 20 64 (Some "/dev/block/loop0") None None
           (fun _ => false).

(** The boot of [remount_fails] when already the first mount of the image
    fails, and when the disable file is there. *)
Definition first_mount_fails : world :=
  World false true false false false no_merge no_merge true 0
        None None (fun _ => false) false
        [new_file_module] all_but_new nothing_is_a_link 10 64 None
        ["/dev/block/sda1 /system ext4 ro 0 0"] etc_mirror
        (fun _ => true) false (Some "0").

Definition core_only_world : world :=
  World false true false false false no_merge no_merge true 0
        (Some "/dev/block/loop0") None (fun _ => false) true
        [new_file_module] all_but_new nothing_is_a_link 10 64 None
        ["/dev/block/sda1 /system ext4 ro 0 0"] etc_mirror
        (fun _ => true) true (Some "0").

(** The answers of the package manager: two rounds too early, then it is
    up. *)
Definition pm_up_at_third : nat -> string :=
  fun n => if Nat.ltb n 2 then "Error: Could not access the Package Manager."
           else "Success".

Definition pm_never_up : nat -> string :=
  fun _ => "Error: Could not access the Package Manager.".

(** * Properties *)

(** ** Image store *)

Lemma round_size_30 : round_size (10 + 20) = 64.
Proof. reflexivity. Qed.

(** C5, as stated, fails: with 10 used in the source and 20 used, 32 in
    total in the target, [round_size] of the sum is 64, and the only
    resize [merge_img] asks for is to 64, never to 96. *)
Lemma merge_img_resize_not_96 :
  round_size (s_used merge_scenario + t_used merge_scenario) <> 96 /\
  ~ In (EResizeImg "/data/magisk.img" 96)
       (fst (merge_img merge_scenario "/cache/magisk.img" "/data/magisk.img")) /\
  In (EResizeImg "/data/magisk.img" 64)
     (fst (merge_img merge_scenario "/cache/magisk.img" "/data/magisk.img")).
Proof.
  split; [vm_compute; discriminate|].
  split.
  - vm_compute. intros H.
    repeat (destruct H as [H|H]; [discriminate H|]). exact H.
  - vm_compute. left. reflexivity.
Qed.

(** C5, amended: merging a source image with 10 used into a target image
    with 20 used and 32 in total resizes the target to
    [((30/32)+2)*32 = 64] units, the rounding function applied to
    [used_src + used_dst], before anything else is done. *)
Theorem merge_img_resize_64 (env : merge_env) (source target : string) :
  src_exists env = true -> dst_exists env = true ->
  s_used env = 10 -> t_used env = 20 -> t_total env = 32 ->
  round_size (s_used env + t_used env) = (Z.quot 30 32 + 2) * 32 /\
  (Z.quot 30 32 + 2) * 32 = 64 /\
  exists rest,
    fst (merge_img env source target) = EResizeImg target 64 :: rest.
Proof.
  intros Hs Hd Hsu Htu Htt.
  split; [rewrite Hsu, Htu; reflexivity|].
  split; [reflexivity|].
  unfold merge_img. rewrite Hs, Hd, Hsu, Htu, Htt. simpl.
  destruct (s_loop env); [|eexists; reflexivity].
  destruct (t_loop env); [|eexists; reflexivity].
  destruct (src_dir env); eexists; reflexivity.
Qed.

Lemma merge_img_resize_64_witness :
  exists rest,
    fst (merge_img merge_scenario "/cache/magisk.img" "/data/magisk.img")
    = EResizeImg "/data/magisk.img" 64 :: rest.
Proof.
  apply (merge_img_resize_64 merge_scenario "/cache/magisk.img"
                             "/data/magisk.img");
    reflexivity.
Defined.

Lemma merge_entry_skipped (env : merge_env) (e : dirent) :
  merge_skipped (d_name e) = true -> merge_entry env e = [].
Proof.
  intros H. unfold merge_entry. rewrite H. destruct (Z.eqb _ _); reflexivity.
Qed.

Lemma merge_loop_ignores (env : merge_env) (ents : list dirent) :
  flat_map (merge_entry env) ents
  = flat_map (merge_entry env)
             (List.filter (fun e => negb (merge_skipped (d_name e))) ents).
Proof.
  induction ents as [|e ents IH]; [reflexivity|].
  simpl. destruct (merge_skipped (d_name e)) eqn:Hs; simpl.
  - rewrite (merge_entry_skipped env e Hs). exact IH.
  - rewrite IH. reflexivity.
Qed.

(** C6: [merge_img] returns 0 with an empty trace when the source is
    absent; when the source exists and the target is absent it renames
    the source to the target and returns 0; otherwise, when both loop
    mounts and the [opendir] succeed, it returns 0 after cloning the
    source into the target, unmounting both temporary mounts and
    unlinking the source, and the entries named [.], [..], [.core] and
    [lost+found] take no part in the clean-up loop. *)
Theorem merge_img_cases (env : merge_env) (source target : string) :
  (src_exists env = false -> merge_img env source target = ([], 0)) /\
  (src_exists env = true -> dst_exists env = false ->
   merge_img env source target = ([ERename source target], 0)) /\
  (forall sl tl ents,
     src_exists env = true -> dst_exists env = true ->
     s_loop env = Some sl -> t_loop env = Some tl -> src_dir env = Some ents ->
     snd (merge_img env source target) = 0 /\
     (exists before,
        fst (merge_img env source target)
        = before
          ++ flat_map (merge_entry env)
               (List.filter (fun e => negb (merge_skipped (d_name e))) ents)
          ++ [ECloneDir SOURCE_TMP TARGET_TMP;
              EUmountImage SOURCE_TMP sl; EUmountImage TARGET_TMP tl;
              ERmdir SOURCE_TMP; ERmdir TARGET_TMP; EUnlink source]) /\
     (forall e, In e ents -> merge_skipped (d_name e) = true ->
                merge_entry env e = [])).
Proof.
  split; [|split].
  - intros H. unfold merge_img. rewrite H. reflexivity.
  - intros H1 H2. unfold merge_img. rewrite H1, H2. reflexivity.
  - intros sl tl ents H1 H2 Hsl Htl Hdir.
    unfold merge_img. rewrite H1, H2, Hsl, Htl, Hdir. simpl.
    split; [reflexivity|]. split.
    + exists ((if negb (Z.eqb (round_size (s_used env + t_used env)) (t_total env))
               then [EResizeImg target (round_size (s_used env + t_used env))]
               else [])
              ++ [EMkdir SOURCE_TMP; EMkdir TARGET_TMP;
                  EMountImage source SOURCE_TMP; EMountImage target TARGET_TMP]).
      rewrite <- merge_loop_ignores.
      rewrite <- !app_assoc. reflexivity.
    + intros e _ Hs. apply merge_entry_skipped. exact Hs.
Qed.

Lemma merge_img_cases_witness :
  snd (merge_img merge_scenario "/cache/magisk.img" "/data/magisk.img") = 0.
Proof.
  apply (proj2 (proj2 (merge_img_cases merge_scenario "/cache/magisk.img"
                                       "/data/magisk.img"))
               "/dev/block/loop0" "/dev/block/loop1"
               [dir "." []; dir ".." []; dir ".core" []; dir "lost+found" [];
                dir "modA" []; dir "modB" []; reg "note"]);
    reflexivity.
Defined.

(** ** Insertion *)

Lemma find_first_Some nm cs i e :
  find_first nm cs = Some (i, e) <-> first_named nm cs i e.
Proof.
  revert i. induction cs as [|x cs IH]; intros i; simpl.
  - split; [discriminate|]. intros [H _]. discriminate H.
  - destruct (String.eqb (name x) nm) eqn:Hx.
    + apply String.eqb_eq in Hx. split.
      * intros H. injection H as <- <-. split; [reflexivity|].
        split; [exact Hx|]. intros j e' Hj. lia.
      * intros (Hi & Hn & Hfst). destruct i as [|i].
        -- simpl in Hi. congruence.
        -- exfalso. apply (Hfst 0%nat x); [lia|reflexivity|exact Hx].
    + apply String.eqb_neq in Hx. split.
      * destruct (find_first nm cs) as [[k y]|] eqn:Hf; [|discriminate].
        intros H. injection H as <- <-.
        destruct (proj1 (IH k) eq_refl) as (Hk & Hn & Hfst).
        split; [exact Hk|]. split; [exact Hn|].
        intros [|j] e' Hj He'; simpl in He'.
        -- congruence.
        -- apply (Hfst j e'); [lia|exact He'].
      * intros (Hi & Hn & Hfst). destruct i as [|i]; simpl in Hi.
        -- congruence.
        -- rewrite (proj2 (IH i)); [reflexivity|].
           split; [exact Hi|]. split; [exact Hn|].
           intros j e' Hj He'. apply (Hfst (S j) e'); [lia|exact He'].
Qed.

Lemma find_first_None nm cs :
  find_first nm cs = None <-> forall e, In e cs -> name e <> nm.
Proof.
  induction cs as [|x cs IH]; simpl.
  - split; [intros _ e []|reflexivity].
  - destruct (String.eqb (name x) nm) eqn:Hx.
    + apply String.eqb_eq in Hx. split; [discriminate|].
      intros H. exfalso. apply (H x); [left; reflexivity|exact Hx].
    + apply String.eqb_neq in Hx.
      destruct (find_first nm cs) as [[k y]|].
      * split; [discriminate|]. intros H.
        assert (Hn : Some (k, y) = @None (nat * node_entry)).
        { apply IH. intros e He. apply H. right. exact He. }
        discriminate Hn.
      * split; [|reflexivity]. intros _ e [<-|He]; [exact Hx|].
        apply (proj1 IH eq_refl e He).
Qed.

(** [insert_loop] in closed form. *)
Lemma insert_loop_find cs c k :
  insert_loop cs c k =
  match find_first (name c) cs with
  | Some (i, e) =>
      if Z.gtb (status c) (status e)
      then (<[i:=c]> cs, (k + i)%nat, destroy_subtree e)
      else (cs, (k + i)%nat, destroy_node c)
  | None => (cs ++ [c], (k + length cs)%nat, [])
  end.
Proof.
  revert k. induction cs as [|x cs IH]; intros k; simpl.
  - rewrite Nat.add_0_r. reflexivity.
  - destruct (String.eqb (name x) (name c)) eqn:Hx.
    + rewrite Nat.add_0_r. destruct (Z.gtb _ _); reflexivity.
    + rewrite IH. destruct (find_first (name c) cs) as [[i e]|].
      * destruct (Z.gtb _ _); simpl; f_equal; f_equal; lia.
      * f_equal. f_equal. lia.
Qed.

Lemma set_children_same p : set_children p (children p) = p.
Proof. destruct p; reflexivity. Qed.

(** C1, as stated, fails: with modules [A] and [B], enumerated in this
    order, both providing the regular file [system/etc/hosts], the leaf
    that survives is a [MODULE] node whose module is [A], not [B]. *)
Lemma collision_keeps_first_module :
  ld_list (load_modules "/magisk" two_hosts_world) = ["A"; "B"] /\
  exists hosts,
    find_path ["etc"; "hosts"] (ld_root (load_modules "/magisk" two_hosts_world))
    = Some hosts /\
    status hosts = IS_MODULE /\
    module hosts = Some "A" /\
    module hosts <> Some "B".
Proof.
  split; [vm_compute; reflexivity|].
  eexists. split; [vm_compute; reflexivity|].
  split; [reflexivity|]. split; [reflexivity|]. discriminate.
Qed.

(** C1, amended: when a node is inserted into a parent whose children
    already contain a node of the same name, the new node takes the slot,
    and the old node's subtree is destroyed, only if the new status is
    strictly higher; otherwise the old node is kept and the new one is
    freed.  In particular, when two modules [A] and [B] (enumerated in
    the order [A], [B]) both provide the same regular file path, the
    surviving [MODULE] leaf's module field is [A]: on equal precedence
    the first writer wins. *)
Theorem insert_child_precedence :
  (forall p c i e,
     first_named (name c) (children p) i e ->
     let c' := set_parent c (Some (self p)) in
     let r := insert_child p c in
     ins_slot r = i /\
     (status c > status e ->
      children (ins_parent r) = <[i:=c']> (children p) /\
      ins_child r = Some c' /\
      ins_freed r = destroy_subtree e) /\
     (status c <= status e ->
      ins_parent r = p /\
      ins_child r = Some e /\
      ins_freed r = destroy_node c)) /\
  (forall A B : string,
     exists hosts,
       find_path ["etc"; "hosts"]
         (fst (build everything_exists nothing_is_a_link
                     [(A, hosts_module); (B, hosts_module)]
                     (fresh_sys_root, 1%nat)))
       = Some hosts /\
       status hosts = IS_MODULE /\ module hosts = Some A).
Proof.
  split.
  - intros p c i e Hfst c' r.
    assert (Hf : find_first (name c') (children p) = Some (i, e))
      by (apply find_first_Some; exact Hfst).
    destruct Hfst as (Hi & _ & _).
    unfold r, insert_child. fold c'. rewrite insert_loop_find, Hf.
    change (status c') with (status c).
    destruct (Z.gtb (status c) (status e)) eqn:Hgt;
      unfold ins_child; cbn [ins_parent ins_slot ins_freed].
    + apply Z.gtb_lt in Hgt. split; [reflexivity|]. split; [|lia].
      intros _. split; [reflexivity|]. split; [|reflexivity].
      cbn [set_children children]. apply list_lookup_insert_eq.
      apply lookup_lt_Some in Hi. exact Hi.
    + assert (Hle : status c <= status e).
      { destruct (Z.gtb_spec (status c) (status e)); [discriminate|lia]. }
      split; [reflexivity|]. split; [lia|].
      intros _. rewrite set_children_same. split; [reflexivity|].
      split; [exact Hi|reflexivity].
  - intros A B. eexists. split; [vm_compute; reflexivity|].
    split; reflexivity.
Qed.

Lemma insert_child_precedence_witness :
  ins_child (insert_child
               (Node 1%nat (Some "A") "etc" DT_DIR IS_INTER (Some 0%nat)
                     [Node 2%nat (Some "A") "hosts" DT_REG IS_MODULE
                           (Some 1%nat) []])
               (Node 3%nat (Some "B") "hosts" DT_REG IS_MODULE None []))
  = Some (Node 2%nat (Some "A") "hosts" DT_REG IS_MODULE (Some 1%nat) []).
Proof.
  apply (proj1 insert_child_precedence
           (Node 1%nat (Some "A") "etc" DT_DIR IS_INTER (Some 0%nat)
                 [Node 2%nat (Some "A") "hosts" DT_REG IS_MODULE
                       (Some 1%nat) []])
           (Node 3%nat (Some "B") "hosts" DT_REG IS_MODULE None [])
           0%nat
           (Node 2%nat (Some "A") "hosts" DT_REG IS_MODULE (Some 1%nat) [])).
  - split; [reflexivity|]. split; [reflexivity|]. intros j e' Hj; lia.
  - simpl. unfold IS_MODULE. lia.
Defined.

Lemma insert_child_returns p c :
  exists n, ins_child (insert_child p c) = Some n.
Proof.
  unfold insert_child, ins_child. rewrite insert_loop_find.
  set (c' := set_parent c (Some (self p))).
  destruct (find_first (name c') (children p)) as [[i e]|] eqn:Hf.
  - apply find_first_Some in Hf. destruct Hf as (Hi & _ & _).
    destruct (Z.gtb _ _); cbn [ins_parent ins_slot set_children children].
    + exists c'. apply list_lookup_insert_eq.
      apply lookup_lt_Some in Hi. exact Hi.
    + exists e. exact Hi.
  - cbn [ins_parent ins_slot set_children children].
    exists c'. rewrite lookup_app_r by lia.
    replace (0 + length (children p) - length (children p))%nat with 0%nat by lia.
    reflexivity.
Qed.

(** ** Node-tree builder *)

Lemma let_pair {A B C : Type} (x : A * B) (f : A -> B -> C) :
  (let '(a, b) := x in f a b) = f (fst x) (snd x).
Proof. destruct x; reflexivity. Qed.

Section BuilderProperties.

Variable live_access live_islnk : string -> bool.

Lemma construct_tree_opendir modname chain (entry : dirent) node next :
  construct_tree live_access live_islnk modname chain (opendir entry) node next
  = if Z.eqb (d_type entry) DT_DIR
    then fold_left
           (fun st e =>
              construct_entry live_access live_islnk modname chain
                              (get_full_path chain (name node)) e st)
           (d_sub entry) (node, next)
    else (node, next).
Proof.
  unfold construct_tree, opendir. destruct (Z.eqb _ _); reflexivity.
Qed.

(** One round of the loop, with the recursive call folded back into
    [construct_tree]. *)
Lemma construct_entry_step modname chain pp (entry : dirent) parent next :
  dot_or_dotdot (d_name entry) = false ->
  construct_entry live_access live_islnk modname chain pp entry (parent, next)
  = let fresh :=
      Node next (Some modname) (d_name entry) (d_type entry) 0 None [] in
    let marked :=
      mark_node (clone_decision live_access live_islnk parent fresh
                                (pp +:+ "/" +:+ d_name entry))
                (dir_has ".replace" (d_sub entry)) parent fresh in
    let r := insert_child (fst marked) (snd marked) in
    match ins_child r with
    | None => (ins_parent r, S next)
    | Some node =>
        if travels_deeper node then
          let built :=
            construct_tree live_access live_islnk modname
                           (name (ins_parent r) :: chain) (opendir entry)
                           node (S next) in
          (set_children (ins_parent r)
                        (<[ins_slot r := fst built]> (children (ins_parent r))),
           snd built)
        else (ins_parent r, S next)
    end.
Proof.
  intros Hdot. destruct entry as [nm ty sub]. cbn [d_name d_type d_sub] in *.
  cbn [construct_entry d_name d_type d_sub]. rewrite Hdot. cbn [name].
  cbv zeta. destruct (mark_node _ _ _ _) as [p1 n1]. cbn [fst snd].
  destruct (ins_child (insert_child p1 n1)) as [node|]; [|reflexivity].
  destruct (travels_deeper node); [|reflexivity].
  rewrite construct_tree_opendir. cbn [d_type d_sub].
  destruct (Z.eqb ty DT_DIR); [|reflexivity].
  rewrite let_pair. reflexivity.
Qed.

(** C3: for every entry of a module directory other than [.] and [..],
    [construct_tree] decides to clone exactly when the entry is a
    symlink, or the live path does not exist, or the live path is a
    symlink and we are not at parent [/system], name [vendor]; on a clone
    the new node is [MODULE] and [SKEL] is OR-ed into the parent's
    status; otherwise the parent is left alone and a directory with a
    [.replace] marker is [MODULE], a directory without it is [INTER] and
    a regular file is [MODULE]; and the builder recurses into the
    inserted child exactly when its final status contains [SKEL] or
    [INTER]. *)
Theorem construct_entry_marks (modname : string) (chain : list string)
    (entry : dirent) (parent : node_entry) (next : ptr) :
  dot_or_dotdot (d_name entry) = false ->
  let parent_path := get_full_path chain (name parent) in
  let buf := parent_path +:+ "/" +:+ d_name entry in
  let fresh := Node next (Some modname) (d_name entry) (d_type entry) 0 None [] in
  let clone := clone_decision live_access live_islnk parent fresh buf in
  let replace := dir_has ".replace" (d_sub entry) in
  let marked := mark_node clone replace parent fresh in
  let r := insert_child (fst marked) (snd marked) in
  (clone = true <->
     d_type entry = DT_LNK \/ live_access buf = false \/
     (live_islnk buf = true /\
      ~ (name parent = "/system" /\ d_name entry = "vendor"))) /\
  (clone = true ->
     status (snd marked) = IS_MODULE /\
     fst marked = set_status parent (Z.lor (status parent) IS_SKEL)) /\
  (clone = false ->
     fst marked = parent /\
     (d_type entry = DT_DIR -> replace = true ->
      status (snd marked) = IS_MODULE) /\
     (d_type entry = DT_DIR -> replace = false ->
      status (snd marked) = IS_INTER) /\
     (d_type entry = DT_REG -> status (snd marked) = IS_MODULE)) /\
  (exists node,
     ins_child r = Some node /\
     construct_entry live_access live_islnk modname chain parent_path entry
                     (parent, next)
     = if negb (Z.eqb (Z.land (status node) (Z.lor IS_SKEL IS_INTER)) 0)
       then
         let built :=
           construct_tree live_access live_islnk modname
                          (name (ins_parent r) :: chain) (opendir entry)
                          node (S next) in
         (set_children (ins_parent r)
                       (<[ins_slot r := fst built]> (children (ins_parent r))),
          snd built)
       else (ins_parent r, S next)).
Proof.
  intros Hdot parent_path buf fresh clone replace marked r.
  split; [|split; [|split]].
  - unfold clone, clone_decision, IS_LNK, fresh. cbn [type name].
    destruct (Z.eqb_spec (d_type entry) DT_LNK) as [Hl|Hl]; cbn [orb].
    { split; [intros _; left; exact Hl|reflexivity]. }
    destruct (live_access buf); cbn [negb].
    2:{ split; [intros _; right; left; reflexivity|reflexivity]. }
    destruct (String.eqb_spec (name parent) "/system") as [Hp|Hp];
      destruct (String.eqb_spec (d_name entry) "vendor") as [Hv|Hv];
      cbn [negb orb].
    + split; [discriminate|].
      intros [H|[H|[_ H]]]; [contradiction|discriminate|].
      exfalso. apply H. split; assumption.
    + split.
      * intros H. right. right. split; [exact H|]. intros [_ H']. contradiction.
      * intros [H|[H|[H _]]]; [contradiction|discriminate|exact H].
    + split.
      * intros H. right. right. split; [exact H|]. intros [H' _]. contradiction.
      * intros [H|[H|[H _]]]; [contradiction|discriminate|exact H].
    + split.
      * intros H. right. right. split; [exact H|]. intros [H' _]. contradiction.
      * intros [H|[H|[H _]]]; [contradiction|discriminate|exact H].
  - intros Hc. unfold marked, mark_node. rewrite Hc. split; reflexivity.
  - intros Hc. unfold marked, mark_node, IS_DIR, IS_REG. rewrite Hc.
    unfold fresh. cbn [type]. split; [|split; [|split]].
    + destruct (Z.eqb _ DT_DIR); [destruct replace; reflexivity|].
      destruct (Z.eqb _ DT_REG); reflexivity.
    + intros Hd Hr. rewrite Hd, Hr. reflexivity.
    + intros Hd Hr. rewrite Hd, Hr. reflexivity.
    + intros Hd. rewrite Hd. reflexivity.
  - destruct (insert_child_returns (fst marked) (snd marked)) as [node Hn].
    exists node. split; [exact Hn|].
    rewrite construct_entry_step by exact Hdot.
    subst r marked replace clone buf fresh parent_path. cbv zeta.
    rewrite Hn. unfold travels_deeper. reflexivity.
Qed.

End BuilderProperties.

Lemma construct_entry_marks_witness :
  exists node,
    ins_child (insert_child fresh_sys_root
                 (Node 1%nat (Some "A") "etc" DT_DIR IS_INTER None []))
    = Some node /\
    status node = IS_INTER.
Proof.
  destruct (construct_entry_marks everything_exists nothing_is_a_link "A" []
              (dir "etc" [reg "hosts"]) fresh_sys_root 1%nat eq_refl)
    as (_ & _ & _ & node & Hn & _).
  exists node. split; [exact Hn|].
  vm_compute in Hn. injection Hn as <-. reflexivity.
Defined.

(** *** Statuses along the spine *)

Lemma inner_status_cases s :
  inner_status s = true <-> s = IS_INTER \/ s = Z.lor IS_INTER IS_SKEL.
Proof.
  unfold inner_status. rewrite orb_true_iff, !Z.eqb_eq. reflexivity.
Qed.

Lemma inner_status_skel s :
  inner_status s = true -> inner_status (Z.lor s IS_SKEL) = true.
Proof.
  intros H. apply inner_status_cases in H. destruct H as [-> | ->]; reflexivity.
Qed.

Lemma well_marked_unfold n :
  well_marked n =
  (inner_status (status n)
   || ((Z.eqb (status n) 0 || Z.eqb (status n) IS_MODULE)
       && match children n with [] => true | _ => false end))
  && forallb well_marked (children n).
Proof. destruct n; reflexivity. Qed.

Lemma well_marked_inner n :
  inner_status (status n) = true ->
  well_marked n = forallb well_marked (children n).
Proof. intros H. rewrite well_marked_unfold, H. reflexivity. Qed.

Lemma well_marked_children n :
  well_marked n = true -> Forall (fun c => well_marked c = true) (children n).
Proof.
  rewrite well_marked_unfold, andb_true_iff. intros [_ H].
  apply Forall_forall. intros c Hc.
  rewrite forallb_forall in H. apply H. apply list_elem_of_In. exact Hc.
Qed.

Lemma well_marked_parent n c :
  well_marked n = true -> In c (children n) ->
  inner_status (status n) = true /\ well_marked c = true.
Proof.
  intros Hn Hc. split.
  - rewrite well_marked_unfold, andb_true_iff in Hn. destruct Hn as [Hn _].
    apply orb_true_iff in Hn. destruct Hn as [Hn|Hn]; [exact Hn|].
    apply andb_true_iff in Hn. destruct Hn as [_ Hn].
    destruct (children n); [destruct Hc|discriminate].
  - apply well_marked_children in Hn. rewrite Forall_forall in Hn.
    apply Hn. apply list_elem_of_In. exact Hc.
Qed.

Lemma well_marked_set_children n cs :
  inner_status (status n) = true ->
  Forall (fun c => well_marked c = true) cs ->
  well_marked (set_children n cs) = true.
Proof.
  intros Hs Hcs. rewrite well_marked_inner by exact Hs.
  cbn [set_children children]. apply forallb_forall. intros c Hc.
  rewrite Forall_forall in Hcs. apply Hcs. apply list_elem_of_In. exact Hc.
Qed.

Lemma well_marked_deeper n :
  well_marked n = true -> travels_deeper n = true ->
  inner_status (status n) = true.
Proof.
  rewrite well_marked_unfold, andb_true_iff. intros [H _] Ht.
  apply orb_true_iff in H. destruct H as [H|H]; [exact H|].
  apply andb_true_iff in H. destruct H as [H _].
  apply orb_true_iff in H. unfold travels_deeper in Ht.
  destruct H as [H|H]; apply Z.eqb_eq in H; rewrite H in Ht; discriminate Ht.
Qed.

Lemma insert_child_forall (P : node_entry -> Prop) p c :
  Forall P (children p) -> P (set_parent c (Some (self p))) ->
  Forall P (children (ins_parent (insert_child p c))).
Proof.
  intros Hcs Hc. unfold insert_child. rewrite insert_loop_find.
  destruct (find_first _ _) as [[i e]|].
  - destruct (Z.gtb _ _); cbn [ins_parent set_children children].
    + apply Forall_insert; assumption.
    + exact Hcs.
  - cbn [ins_parent set_children children]. apply Forall_app. split; [exact Hcs|].
    apply Forall_cons. split; [exact Hc|apply Forall_nil; exact I].
Qed.

Lemma insert_child_status p c :
  status (ins_parent (insert_child p c)) = status p.
Proof.
  unfold insert_child. destruct (insert_loop _ _ _) as [[cs i] fr]. reflexivity.
Qed.

Lemma ins_child_In r n :
  ins_child r = Some n -> In n (children (ins_parent r)).
Proof.
  unfold ins_child. intros H. apply list_elem_of_In.
  apply list_elem_of_lookup. exists (ins_slot r). exact H.
Qed.

Lemma mark_node_fst clone replace parent node :
  fst (mark_node clone replace parent node)
  = if clone then set_status parent (Z.lor (status parent) IS_SKEL) else parent.
Proof.
  unfold mark_node. destruct clone; [reflexivity|].
  destruct (IS_DIR node); [destruct replace; reflexivity|].
  destruct (IS_REG node); reflexivity.
Qed.

Lemma mark_node_fresh clone replace parent a m nm ty q :
  well_marked
    (set_parent (snd (mark_node clone replace parent (Node a m nm ty 0 None []))) q)
  = true.
Proof.
  unfold mark_node. destruct clone; [reflexivity|].
  destruct (IS_DIR _); [destruct replace; reflexivity|].
  destruct (IS_REG _); reflexivity.
Qed.

Section SpineInvariant.

Variable live_access live_islnk : string -> bool.

Lemma construct_entry_status modname chain pp (entry : dirent) parent next :
  status (fst (construct_entry live_access live_islnk modname chain pp entry
                               (parent, next)))
  = if dot_or_dotdot (d_name entry) then status parent
    else if clone_decision live_access live_islnk parent
              (Node next (Some modname) (d_name entry) (d_type entry) 0 None [])
              (pp +:+ "/" +:+ d_name entry)
         then Z.lor (status parent) IS_SKEL
         else status parent.
Proof.
  destruct (dot_or_dotdot (d_name entry)) eqn:Hdot.
  - destruct entry as [nm ty sub]. cbn [d_name] in Hdot.
    cbn [construct_entry d_name]. rewrite Hdot. reflexivity.
  - rewrite construct_entry_step by exact Hdot. cbv zeta.
    match goal with
    | |- context [insert_child ?a ?b] =>
        assert (Hst : status (ins_parent (insert_child a b)) = status a)
          by apply insert_child_status;
        destruct (ins_child (insert_child a b)) as [node|];
        [destruct (travels_deeper node)|]; cbn [fst set_children status];
        rewrite Hst
    end;
      rewrite mark_node_fst; destruct (clone_decision _ _ _ _ _); reflexivity.
Qed.

(** The spine invariant through one entry, given it for the entries below. *)
Lemma construct_tree_spine modname chain (dir : option (list dirent)) node next :
  (forall ents, dir = Some ents ->
     Forall (fun e => forall modname chain pp parent next,
                well_marked parent = true ->
                inner_status (status parent) = true ->
                well_marked (fst (construct_entry live_access live_islnk
                                    modname chain pp e (parent, next))) = true)
            ents) ->
  well_marked node = true -> inner_status (status node) = true ->
  well_marked (fst (construct_tree live_access live_islnk modname chain dir
                                   node next)) = true /\
  inner_status (status (fst (construct_tree live_access live_islnk modname
                                            chain dir node next))) = true.
Proof.
  intros Hall. unfold construct_tree. destruct dir as [ents|]; [|auto].
  specialize (Hall ents eq_refl).
  generalize (get_full_path chain (name node)) as pp. intros pp.
  revert node next.
  induction Hall as [|e ents He _ IH]; intros node next Hw Hs; [auto|].
  cbn [fold_left].
  destruct (construct_entry live_access live_islnk modname chain pp e
                            (node, next)) as [node' next'] eqn:Hstep.
  apply IH.
  - specialize (He modname chain pp node next Hw Hs).
    rewrite Hstep in He. exact He.
  - pose proof (construct_entry_status modname chain pp e node next) as Hst.
    rewrite Hstep in Hst. cbn [fst] in Hst. rewrite Hst.
    destruct (dot_or_dotdot _); [exact Hs|].
    destruct (clone_decision _ _ _ _ _); [apply inner_status_skel|]; exact Hs.
Qed.

Lemma construct_entry_spine (entry : dirent) :
  forall modname chain pp parent next,
    well_marked parent = true ->
    inner_status (status parent) = true ->
    well_marked (fst (construct_entry live_access live_islnk modname chain pp
                                      entry (parent, next))) = true.
Proof.
  induction entry as [nm ty sub IH] using dirent_ind.
  intros modname chain pp parent next Hw Hs.
  destruct (dot_or_dotdot nm) eqn:Hdot.
  { cbn [construct_entry d_name]. rewrite Hdot. exact Hw. }
  rewrite construct_entry_step by exact Hdot. cbv zeta. cbn [d_name d_type d_sub].
  set (marked := mark_node _ _ parent _).
  set (r := insert_child (fst marked) (snd marked)).
  assert (Hs1 : inner_status (status (fst marked)) = true).
  { unfold marked. rewrite mark_node_fst.
    destruct (clone_decision _ _ _ _ _); [apply inner_status_skel|]; exact Hs. }
  assert (Hw1 : Forall (fun c => well_marked c = true) (children (fst marked))).
  { unfold marked. rewrite mark_node_fst.
    destruct (clone_decision _ _ _ _ _); apply well_marked_children in Hw;
      exact Hw. }
  assert (Hsr : inner_status (status (ins_parent r)) = true).
  { unfold r. rewrite insert_child_status. exact Hs1. }
  assert (Hwr : Forall (fun c => well_marked c = true) (children (ins_parent r))).
  { unfold r. apply insert_child_forall; [exact Hw1|].
    unfold marked. apply mark_node_fresh. }
  assert (Hr : well_marked (ins_parent r) = true).
  { rewrite <- (set_children_same (ins_parent r)).
    apply well_marked_set_children; assumption. }
  destruct (ins_child r) as [node|] eqn:Hn; [|exact Hr].
  destruct (travels_deeper node) eqn:Ht; [|exact Hr].
  cbn [fst]. apply well_marked_set_children; [exact Hsr|].
  apply Forall_insert; [exact Hwr|].
  assert (Hwn : well_marked node = true).
  { apply ins_child_In in Hn. rewrite Forall_forall in Hwr. apply Hwr.
    apply list_elem_of_In. exact Hn. }
  apply construct_tree_spine; [|exact Hwn|apply well_marked_deeper; assumption].
  intros ents Hents. unfold opendir in Hents. cbn [d_type d_sub] in Hents.
  destruct (Z.eqb ty DT_DIR); [|discriminate].
  injection Hents as <-. exact IH.
Qed.

Lemma construct_tree_well_marked modname chain dir node next :
  well_marked node = true -> inner_status (status node) = true ->
  well_marked (fst (construct_tree live_access live_islnk modname chain dir
                                   node next)) = true /\
  inner_status (status (fst (construct_tree live_access live_islnk modname
                                            chain dir node next))) = true.
Proof.
  intros Hw Hs. apply construct_tree_spine; [|exact Hw|exact Hs].
  intros ents _. apply Forall_forall. intros e _. apply construct_entry_spine.
Qed.

End SpineInvariant.

Lemma descends_well_marked root anc n :
  descends root anc n -> well_marked root = true ->
  well_marked n = true /\
  Forall (fun a => inner_status (status a) = true) anc.
Proof.
  induction 1 as [n|p c anc n Hc Hd IH]; intros Hw.
  - split; [exact Hw|apply Forall_nil; exact I].
  - destruct (well_marked_parent p c Hw Hc) as [Hp Hwc].
    destruct (IH Hwc) as [Hn Hanc].
    split; [exact Hn|]. apply Forall_cons. split; assumption.
Qed.

Lemma well_marked_skel n :
  well_marked n = true -> Z.land (status n) IS_SKEL <> 0 ->
  status n = Z.lor IS_INTER IS_SKEL.
Proof.
  rewrite well_marked_unfold, andb_true_iff. intros [H _] Hsk.
  apply orb_true_iff in H. destruct H as [H|H].
  - apply inner_status_cases in H. destruct H as [H|H]; [|exact H].
    rewrite H in Hsk. exfalso. apply Hsk. reflexivity.
  - apply andb_true_iff in H. destruct H as [H _]. apply orb_true_iff in H.
    destruct H as [H|H]; apply Z.eqb_eq in H; rewrite H in Hsk;
      exfalso; apply Hsk; reflexivity.
Qed.

(** *** Parent pointers *)

Lemma well_linked_unfold n :
  well_linked n
  = forallb (fun c => points_to (self n) c && well_linked c) (children n).
Proof. destruct n; reflexivity. Qed.

Lemma well_linked_children n :
  well_linked n = true <->
  Forall (fun c => parent c = Some (self n) /\ well_linked c = true)
         (children n).
Proof.
  rewrite well_linked_unfold, forallb_forall, Forall_forall. split.
  - intros H c Hc. apply list_elem_of_In in Hc. specialize (H c Hc).
    apply andb_true_iff in H. destruct H as [Hp Hw]. split; [|exact Hw].
    unfold points_to in Hp. destruct (parent c) as [q|]; [|discriminate].
    apply Nat.eqb_eq in Hp. rewrite Hp. reflexivity.
  - intros H c Hc. apply list_elem_of_In in Hc. destruct (H c Hc) as [Hp Hw].
    unfold points_to. rewrite Hp, Nat.eqb_refl, Hw. reflexivity.
Qed.

Lemma insert_child_fields p c :
  self (ins_parent (insert_child p c)) = self p /\
  parent (ins_parent (insert_child p c)) = parent p /\
  name (ins_parent (insert_child p c)) = name p.
Proof.
  unfold insert_child. destruct (insert_loop _ _ _) as [[cs i] fr].
  repeat split.
Qed.

Section ParentPointers.

Variable live_access live_islnk : string -> bool.

Lemma construct_entry_fields modname chain pp (entry : dirent) p next :
  self (fst (construct_entry live_access live_islnk modname chain pp entry
                             (p, next))) = self p /\
  parent (fst (construct_entry live_access live_islnk modname chain pp entry
                               (p, next))) = parent p.
Proof.
  destruct (dot_or_dotdot (d_name entry)) eqn:Hdot.
  - destruct entry as [nm ty sub]. cbn [d_name] in Hdot.
    cbn [construct_entry d_name]. rewrite Hdot. auto.
  - rewrite construct_entry_step by exact Hdot. cbv zeta.
    match goal with
    | |- context [insert_child ?a ?b] =>
        destruct (insert_child_fields a b) as (Hs & Hp & _);
        assert (Ha : self a = self p /\ parent a = parent p)
          by (rewrite mark_node_fst; destruct (clone_decision _ _ _ _ _); auto);
        destruct Ha as [Ha1 Ha2];
        destruct (ins_child (insert_child a b)) as [node|];
        [destruct (travels_deeper node)|];
        cbn [fst set_children self parent]; rewrite Hs, Hp; auto
    end.
Qed.

Lemma construct_tree_fields modname chain dir node next :
  self (fst (construct_tree live_access live_islnk modname chain dir node next))
  = self node /\
  parent (fst (construct_tree live_access live_islnk modname chain dir node
                              next))
  = parent node.
Proof.
  unfold construct_tree. destruct dir as [ents|]; [|auto].
  generalize (get_full_path chain (name node)) as pp. intros pp.
  revert node next. induction ents as [|e ents IH]; intros node next; [auto|].
  cbn [fold_left].
  pose proof (construct_entry_fields modname chain pp e node next) as [H1 H2].
  destruct (construct_entry _ _ _ _ _ _ _) as [node' next']. cbn [fst] in *.
  destruct (IH node' next') as [K1 K2]. rewrite K1, K2. auto.
Qed.

Lemma construct_tree_linked modname chain (dir : option (list dirent)) node next :
  (forall ents, dir = Some ents ->
     Forall (fun e => forall modname chain pp p next,
                well_linked p = true ->
                well_linked (fst (construct_entry live_access live_islnk
                                    modname chain pp e (p, next))) = true)
            ents) ->
  well_linked node = true ->
  well_linked (fst (construct_tree live_access live_islnk modname chain dir
                                   node next)) = true.
Proof.
  intros Hall. unfold construct_tree. destruct dir as [ents|]; [|auto].
  specialize (Hall ents eq_refl).
  generalize (get_full_path chain (name node)) as pp. intros pp.
  revert node next.
  induction Hall as [|e ents He _ IH]; intros node next Hw; [exact Hw|].
  cbn [fold_left]. specialize (He modname chain pp node next Hw).
  destruct (construct_entry _ _ _ _ _ _ _) as [node' next']. apply IH. exact He.
Qed.

Lemma construct_entry_linked (entry : dirent) :
  forall modname chain pp p next,
    well_linked p = true ->
    well_linked (fst (construct_entry live_access live_islnk modname chain pp
                                      entry (p, next))) = true.
Proof.
  induction entry as [nm ty sub IH] using dirent_ind.
  intros modname chain pp p next Hw.
  destruct (dot_or_dotdot nm) eqn:Hdot.
  { cbn [construct_entry d_name]. rewrite Hdot. exact Hw. }
  rewrite construct_entry_step by exact Hdot. cbv zeta. cbn [d_name d_type d_sub].
  set (marked := mark_node _ _ p _).
  set (r := insert_child (fst marked) (snd marked)).
  assert (Hself : self (fst marked) = self p).
  { unfold marked. rewrite mark_node_fst.
    destruct (clone_decision _ _ _ _ _); reflexivity. }
  assert (Hkids : children (fst marked) = children p).
  { unfold marked. rewrite mark_node_fst.
    destruct (clone_decision _ _ _ _ _); reflexivity. }
  assert (Hnew : parent (set_parent (snd marked) (Some (self (fst marked))))
                 = Some (self (fst marked)) /\
                 well_linked (set_parent (snd marked) (Some (self (fst marked))))
                 = true).
  { split; [reflexivity|]. unfold marked, mark_node.
    destruct (clone_decision _ _ _ _ _); [reflexivity|].
    destruct (IS_DIR _); [destruct (dir_has _ _); reflexivity|].
    destruct (IS_REG _); reflexivity. }
  destruct (insert_child_fields (fst marked) (snd marked)) as (Hrs & _ & _).
  fold r in Hrs.
  assert (Hwr : Forall (fun c => parent c = Some (self (ins_parent r)) /\
                                 well_linked c = true)
                       (children (ins_parent r))).
  { rewrite Hrs. unfold r. apply insert_child_forall; [|exact Hnew].
    rewrite Hkids, Hself. apply well_linked_children. exact Hw. }
  destruct (ins_child r) as [node|] eqn:Hn;
    [|apply well_linked_children; exact Hwr].
  destruct (travels_deeper node); [|apply well_linked_children; exact Hwr].
  cbn [fst]. apply well_linked_children. cbn [set_children children self].
  apply Forall_insert; [exact Hwr|].
  assert (Hnode : parent node = Some (self (ins_parent r)) /\
                  well_linked node = true).
  { apply ins_child_In in Hn. rewrite Forall_forall in Hwr. apply Hwr.
    apply list_elem_of_In. exact Hn. }
  destruct Hnode as [Hp Hwn].
  destruct (construct_tree_fields modname (name (ins_parent r) :: chain)
              (opendir (Dirent nm ty sub)) node (S next)) as [_ K2].
  split; [rewrite K2; exact Hp|].
  apply construct_tree_linked; [|exact Hwn].
  intros ents Hents. unfold opendir in Hents. cbn [d_type d_sub] in Hents.
  destruct (Z.eqb ty DT_DIR); [|discriminate].
  injection Hents as <-. exact IH.
Qed.

End ParentPointers.

Lemma load_modules_linked MOUNTPOINT w :
  well_linked (ld_root (load_modules MOUNTPOINT w)) = true /\
  self (ld_root (load_modules MOUNTPOINT w)) = self fresh_sys_root.
Proof.
  unfold load_modules.
  assert (H0 : well_linked (ld_root initial_loader) = true /\
               self (ld_root initial_loader) = self fresh_sys_root)
    by (split; reflexivity).
  revert H0. generalize initial_loader as st.
  induction (w_modules w) as [|e es IH]; intros st H0; [exact H0|].
  cbn [fold_left]. apply IH. destruct H0 as [Hw Hs]. unfold load_module.
  destruct (Z.eqb _ _); [|auto].
  destruct (merge_skipped _); [auto|].
  destruct (dir_has "remove" _); [auto|].
  destruct (dir_has "disable" _); [auto|].
  destruct (negb (dir_has "auto_mount" _)); [auto|].
  destruct (dir_lookup "system" _) as [sys|]; [|auto].
  pose proof (construct_tree_linked (w_live_access w) (w_live_islnk w)
                (d_name e) [] (opendir sys) (ld_root st) (ld_next st)) as Hl.
  pose proof (construct_tree_fields (w_live_access w) (w_live_islnk w)
                (d_name e) [] (opendir sys) (ld_root st) (ld_next st)) as [Hf _].
  destruct (construct_tree _ _ _ _ _ _ _) as [root next].
  cbn [ld_root fst] in *. split; [|rewrite Hf; exact Hs].
  apply Hl; [|exact Hw].
  intros ents _. apply Forall_forall. intros x _. apply construct_entry_linked.
Qed.

Lemma append_assoc (a b c : string) : (a +:+ b) +:+ c = a +:+ (b +:+ c).
Proof.
  induction a as [|x a IH]; [reflexivity|].
  change (String x ((a +:+ b) +:+ c) = String x (a +:+ (b +:+ c))).
  rewrite IH. reflexivity.
Qed.

(** The chain of names [get_full_path] collects is the path of the parent
    followed by the name of the child. *)
Lemma get_full_path_child chain pname cname :
  get_full_path (pname :: chain) cname
  = get_full_path chain pname +:+ "/" +:+ cname.
Proof.
  cbn [get_full_path].
  assert (H : forall a b, get_full_path chain (a +:+ b)
                          = get_full_path chain a +:+ b).
  { induction chain as [|q chain IH]; intros a b; cbn [get_full_path];
      [reflexivity|].
    rewrite <- IH. f_equal. rewrite !append_assoc. reflexivity. }
  apply H.
Qed.

(** *** The tree of the module loop *)

Lemma load_module_spine MOUNTPOINT w (entry : dirent) st :
  well_marked (ld_root st) = true /\ inner_status (status (ld_root st)) = true ->
  well_marked (ld_root (load_module MOUNTPOINT w entry st)) = true /\
  inner_status (status (ld_root (load_module MOUNTPOINT w entry st))) = true.
Proof.
  intros [Hw Hs]. unfold load_module.
  destruct (Z.eqb _ _); [|auto].
  destruct (merge_skipped _); [auto|].
  destruct (dir_has "remove" _); [auto|].
  destruct (dir_has "disable" _); [auto|].
  destruct (negb (dir_has "auto_mount" _)); [auto|].
  destruct (dir_lookup "system" _) as [sys|]; [|auto].
  pose proof (construct_tree_well_marked (w_live_access w) (w_live_islnk w)
                (d_name entry) [] (opendir sys) (ld_root st) (ld_next st) Hw Hs)
    as H.
  destruct (construct_tree _ _ _ _ _ _ _) as [root next]. exact H.
Qed.

Lemma load_modules_spine MOUNTPOINT w :
  well_marked (ld_root (load_modules MOUNTPOINT w)) = true /\
  inner_status (status (ld_root (load_modules MOUNTPOINT w))) = true.
Proof.
  unfold load_modules.
  assert (H0 : well_marked (ld_root initial_loader) = true /\
               inner_status (status (ld_root initial_loader)) = true)
    by (split; reflexivity).
  revert H0. generalize initial_loader as st.
  induction (w_modules w) as [|e es IH]; intros st H0; [exact H0|].
  cbn [fold_left]. apply IH. apply load_module_spine. exact H0.
Qed.

(** C2, as stated, fails: a module adding the new file [/system/etc/new]
    makes [etc] a skeleton ([SKEL] set), while its ancestor, the root
    [/system], keeps status [INTER], which holds neither [SKEL] nor
    [MODULE]. *)
Lemma skel_parent_stays_inter :
  let root :=
    ld_root (load_modules "/magisk"
               (example_world [new_file_module] all_but_new None
                              (fun _ => None))) in
  exists etc,
    descends root [root] etc /\
    name etc = "etc" /\
    Z.land (status etc) IS_SKEL <> 0 /\
    status root = IS_INTER /\
    Z.land (status root) (Z.lor IS_SKEL IS_MODULE) = 0.
Proof.
  exists (Node 1%nat (Some "modA") "etc" DT_DIR (Z.lor IS_INTER IS_SKEL)
               (Some 0%nat)
               [Node 2%nat (Some "modA") "new" DT_REG IS_MODULE (Some 1%nat) []]).
  split.
  - eapply descends_child; [|apply descends_here].
    vm_compute. left. reflexivity.
  - split; [reflexivity|]. split; [vm_compute; discriminate|].
    split; vm_compute; reflexivity.
Qed.

(** C2, amended: in every tree the module loop builds with
    [construct_tree], whatever the modules and the live file system,
    every ancestor of every node has status [INTER] or [INTER | SKEL],
    and a node whose status contains [SKEL] has status [INTER | SKEL];
    one round of [construct_tree] changes the status of the directory it
    works on only by OR-ing [SKEL] into it when its own entry must be
    cloned, so marking a directory [SKEL] leaves the statuses of the
    directories above it as they were. *)
Theorem skel_ancestors_are_inter (MOUNTPOINT : string) (w : world) :
  (forall anc n,
     descends (ld_root (load_modules MOUNTPOINT w)) anc n ->
     Forall (fun a => status a = IS_INTER \/ status a = Z.lor IS_INTER IS_SKEL)
            anc /\
     (Z.land (status n) IS_SKEL <> 0 -> status n = Z.lor IS_INTER IS_SKEL)) /\
  (forall modname chain pp (entry : dirent) parent next,
     status (fst (construct_entry (w_live_access w) (w_live_islnk w) modname
                                  chain pp entry (parent, next)))
     = if dot_or_dotdot (d_name entry) then status parent
       else if clone_decision (w_live_access w) (w_live_islnk w) parent
                 (Node next (Some modname) (d_name entry) (d_type entry) 0
                       None [])
                 (pp +:+ "/" +:+ d_name entry)
            then Z.lor (status parent) IS_SKEL
            else status parent).
Proof.
  split.
  - intros anc n Hd.
    destruct (load_modules_spine MOUNTPOINT w) as [Hw _].
    destruct (descends_well_marked _ _ _ Hd Hw) as [Hn Hanc].
    split.
    + eapply Forall_impl; [exact Hanc|].
      intros a Ha. apply inner_status_cases. exact Ha.
    + apply well_marked_skel. exact Hn.
  - intros. apply construct_entry_status.
Qed.

Lemma skel_ancestors_are_inter_witness :
  let root :=
    ld_root (load_modules "/magisk"
               (example_world [new_file_module] all_but_new None
                              (fun _ => None))) in
  Forall (fun a => status a = IS_INTER \/ status a = Z.lor IS_INTER IS_SKEL)
         [root].
Proof.
  intros root.
  apply (proj1 (skel_ancestors_are_inter "/magisk"
                  (example_world [new_file_module] all_but_new None
                                 (fun _ => None)))
               [root]
               (Node 1%nat (Some "modA") "etc" DT_DIR (Z.lor IS_INTER IS_SKEL)
                     (Some 0%nat)
                     [Node 2%nat (Some "modA") "new" DT_REG IS_MODULE
                           (Some 1%nat) []])).
  eapply descends_child; [|apply descends_here].
  vm_compute. left. reflexivity.
Defined.

(** ** Mounters: the trace only grows *)

Section MounterTrace.

Variable MOUNTPOINT MIRRDIR DUMMDIR : string.
Variable mirror : string -> option (list dirent).

Lemma for_each_child_trace body cs :
  (forall c st r, In c cs -> body c st = Some r ->
     exists evs, ms_trace (snd r) = ms_trace st ++ evs) ->
  forall st r, for_each_child body cs st = Some r ->
    exists evs, ms_trace (snd r) = ms_trace st ++ evs.
Proof.
  induction cs as [|c cs IH]; intros Hbody st r; cbn [for_each_child].
  - intros H. injection H as <-. exists []. rewrite app_nil_r. reflexivity.
  - destruct (body c st) as [[c' st']|] eqn:Hc; [|discriminate].
    destruct (for_each_child body cs st') as [[cs' st'']|] eqn:Hcs; [|discriminate].
    intros H. injection H as <-. cbn [snd].
    destruct (Hbody c st (c', st') (or_introl eq_refl) Hc) as [e1 He1].
    destruct (IH (fun c0 st0 r0 Hin => Hbody c0 st0 r0 (or_intror Hin)) st'
                 (cs', st'') Hcs) as [e2 He2].
    cbn [snd] in *. exists (e1 ++ e2). rewrite He2, He1, app_assoc. reflexivity.
Qed.

Lemma clone_child_trace recurse full_path child st r :
  (forall st r, recurse child st = Some r ->
     exists evs, ms_trace (snd r) = ms_trace st ++ evs) ->
  clone_child MOUNTPOINT MIRRDIR DUMMDIR recurse full_path child st = Some r ->
  exists evs, ms_trace (snd r) = ms_trace st ++ evs.
Proof.
  intros Hrec. unfold clone_child.
  set (ev1 := if IS_DIR child then _ else _).
  assert (Hfin : forall b2 r,
             (if IS_LNK child
              then Some (child, emit (set_buf2 (emit st ev1) b2)
                                     [ECpAfc b2 (DUMMDIR +:+ full_path +:+ "/"
                                                   +:+ name child)])
              else Some (child, emit (set_buf2 (emit st ev1) b2)
                                     [EBindMount b2 (full_path +:+ "/"
                                                       +:+ name child)]))
             = Some r ->
             exists evs, ms_trace (snd r) = ms_trace st ++ evs).
  { intros b2 r0. destruct (IS_LNK child); intros H; injection H as <-;
      cbn [snd emit set_buf2 ms_trace]; rewrite <- app_assoc; eexists;
      reflexivity. }
  destruct (has_flag child IS_VENDOR).
  { intros H. injection H as <-. cbn [snd emit ms_trace].
    rewrite <- app_assoc. eexists. reflexivity. }
  destruct (has_flag child IS_MODULE); [apply Hfin|].
  destruct (has_flag child (Z.lor IS_SKEL IS_INTER)).
  { intros H. destruct (Hrec _ _ H) as [evs Hevs].
    exists (ev1 ++ evs). rewrite Hevs. cbn [emit ms_trace].
    rewrite app_assoc. reflexivity. }
  destruct (has_flag child IS_DUMMY); [apply Hfin|].
  intros H. apply (Hfin (ms_buf2 st)). exact H.
Qed.

Lemma clone_skeleton_trace fuel :
  forall chain node st r,
    clone_skeleton MOUNTPOINT MIRRDIR DUMMDIR mirror fuel chain node st = Some r ->
    exists evs, ms_trace (snd r) = ms_trace st ++ evs.
Proof.
  induction fuel as [|fuel IH]; intros chain node st r; cbn [clone_skeleton];
    [discriminate|].
  destruct (mirror _) as [ents|].
  2:{ intros H. injection H as <-. exists []. rewrite app_nil_r. reflexivity. }
  destruct (insert_dummies ents node (ms_next st)) as [node' next'].
  match goal with
  | |- context [for_each_child ?b ?cs ?s] =>
      destruct (for_each_child b cs s) as [[cs' st']|] eqn:Hloop;
      [|discriminate]
  end.
  intros H. injection H as <-. cbn [snd].
  apply for_each_child_trace in Hloop.
  - destruct Hloop as [evs Hevs]. cbn [snd emit set_next ms_trace] in Hevs.
    rewrite Hevs, <- app_assoc. eexists. reflexivity.
  - intros c st0 r0 _. apply clone_child_trace. intros st1 r1. apply IH.
Qed.

Lemma magic_mount_trace fuel :
  forall chain node st r,
    magic_mount MOUNTPOINT MIRRDIR DUMMDIR mirror fuel chain node st = Some r ->
    exists evs, ms_trace (snd r) = ms_trace st ++ evs.
Proof.
  induction fuel as [|fuel IH]; intros chain node st r; cbn [magic_mount];
    [discriminate|].
  destruct (has_flag node IS_MODULE).
  { intros H. injection H as <-. eexists. reflexivity. }
  destruct (has_flag node IS_SKEL); [apply clone_skeleton_trace|].
  destruct (has_flag node IS_INTER).
  - destruct (for_each_child _ _ _) as [[cs' st']|] eqn:Hloop; [|discriminate].
    intros H. injection H as <-. cbn [snd].
    apply for_each_child_trace in Hloop; [exact Hloop|].
    intros c st0 r0 _. apply IH.
  - intros H. injection H as <-. exists []. rewrite app_nil_r. reflexivity.
Qed.

End MounterTrace.

(** ** Mounters: enough fuel *)

Lemma height_unfold n :
  height n = S (fold_right (fun c m => Nat.max (height c) m) 0%nat (children n)).
Proof. destruct n; reflexivity. Qed.

Lemma height_child n c : In c (children n) -> (height c < height n)%nat.
Proof.
  rewrite (height_unfold n). induction (children n) as [|x cs IH]; [intros []|].
  cbn [fold_right]. intros [<-|Hc]; [lia|]. specialize (IH Hc). lia.
Qed.

Lemma height_pos n : (1 <= height n)%nat.
Proof. rewrite height_unfold. lia. Qed.

Lemma insert_dummy_forall (P : node_entry -> Prop) entry node next :
  (forall a nm ty q, P (Node a None nm ty IS_DUMMY q [])) ->
  Forall P (children node) ->
  Forall P (children (fst (insert_dummy entry (node, next)))).
Proof.
  intros Hd Hcs. unfold insert_dummy.
  destruct (dot_or_dotdot _); [exact Hcs|]. cbn [fst].
  apply insert_child_forall; [exact Hcs|]. apply Hd.
Qed.

Lemma insert_dummies_forall (P : node_entry -> Prop) ents :
  (forall a nm ty q, P (Node a None nm ty IS_DUMMY q [])) ->
  forall node next,
    Forall P (children node) ->
    Forall P (children (fst (insert_dummies ents node next))).
Proof.
  intros Hd. unfold insert_dummies.
  induction ents as [|e ents IH]; intros node next Hcs; [exact Hcs|].
  cbn [fold_left].
  pose proof (insert_dummy_forall P e node next Hd Hcs) as H.
  destruct (insert_dummy e (node, next)) as [node' next']. apply IH. exact H.
Qed.

Lemma for_each_child_returns body cs :
  (forall c, In c cs -> forall st, exists r, body c st = Some r) ->
  forall st, exists r, for_each_child body cs st = Some r.
Proof.
  induction cs as [|c cs IH]; intros Hbody st; cbn [for_each_child].
  - eexists. reflexivity.
  - destruct (Hbody c (or_introl eq_refl) st) as [[c' st'] Hc]. rewrite Hc.
    destruct (IH (fun c0 Hin => Hbody c0 (or_intror Hin)) st') as [[cs' st''] Hcs].
    rewrite Hcs. eexists. reflexivity.
Qed.

Section MounterFuel.

Variable MOUNTPOINT MIRRDIR DUMMDIR : string.
Variable mirror : string -> option (list dirent).

Lemma clone_child_returns recurse full_path child :
  (has_flag child (Z.lor IS_SKEL IS_INTER) = true ->
   forall st, exists r, recurse child st = Some r) ->
  forall st, exists r,
    clone_child MOUNTPOINT MIRRDIR DUMMDIR recurse full_path child st = Some r.
Proof.
  intros Hrec st. unfold clone_child.
  destruct (has_flag child IS_VENDOR); [eexists; reflexivity|].
  destruct (has_flag child IS_MODULE).
  { destruct (IS_LNK child); eexists; reflexivity. }
  destruct (has_flag child (Z.lor IS_SKEL IS_INTER)); [apply Hrec; reflexivity|].
  destruct (has_flag child IS_DUMMY); destruct (IS_LNK child);
    eexists; reflexivity.
Qed.

Lemma clone_skeleton_returns fuel :
  forall chain node st,
    (height node <= fuel)%nat ->
    exists r,
      clone_skeleton MOUNTPOINT MIRRDIR DUMMDIR mirror fuel chain node st
      = Some r.
Proof.
  induction fuel as [|fuel IH]; intros chain node st Hh.
  { pose proof (height_pos node). lia. }
  cbn [clone_skeleton].
  destruct (mirror _) as [ents|]; [|eexists; reflexivity].
  assert (Hkids :
    Forall (fun c => has_flag c (Z.lor IS_SKEL IS_INTER) = true ->
                     (height c <= fuel)%nat)
           (children (fst (insert_dummies ents node (ms_next st))))).
  { apply insert_dummies_forall.
    - intros a nm ty q H. discriminate H.
    - apply Forall_forall. intros c Hc _.
      apply list_elem_of_In, height_child in Hc. lia. }
  destruct (insert_dummies ents node (ms_next st)) as [node' next'].
  cbn [fst] in Hkids.
  match goal with
  | |- context [for_each_child ?b ?cs ?s] =>
      destruct (for_each_child_returns b cs) with (st := s) as [[cs' st'] Hl]
  end.
  - intros c Hc. apply clone_child_returns. intros Hf st0. apply IH.
    rewrite Forall_forall in Hkids. apply Hkids; [|exact Hf].
    apply list_elem_of_In. exact Hc.
  - rewrite Hl. eexists. reflexivity.
Qed.

Lemma magic_mount_returns fuel :
  forall chain node st,
    (height node <= fuel)%nat ->
    exists r,
      magic_mount MOUNTPOINT MIRRDIR DUMMDIR mirror fuel chain node st = Some r.
Proof.
  induction fuel as [|fuel IH]; intros chain node st Hh.
  { pose proof (height_pos node). lia. }
  cbn [magic_mount].
  destruct (has_flag node IS_MODULE); [eexists; reflexivity|].
  destruct (has_flag node IS_SKEL); [apply clone_skeleton_returns; exact Hh|].
  destruct (has_flag node IS_INTER); [|eexists; reflexivity].
  match goal with
  | |- context [for_each_child ?b ?cs ?s] =>
      destruct (for_each_child_returns b cs) with (st := s) as [[cs' st'] Hl]
  end.
  - intros c Hc st0. apply IH. apply height_child in Hc. lia.
  - rewrite Hl. eexists. reflexivity.
Qed.

End MounterFuel.

(** The fuel [magic_mount_root] hands out is enough: it is the mounter. *)
Lemma magic_mount_root_spec MOUNTPOINT MIRRDIR DUMMDIR w node st :
  magic_mount MOUNTPOINT MIRRDIR DUMMDIR (w_mirror w) (height node) [] node st
  = Some (magic_mount_root MOUNTPOINT MIRRDIR DUMMDIR w node st).
Proof.
  unfold magic_mount_root.
  destruct (magic_mount_returns MOUNTPOINT MIRRDIR DUMMDIR (w_mirror w)
              (height node) [] node st (le_n _)) as [r Hr].
  rewrite Hr. reflexivity.
Qed.

Lemma magic_mount_root_trace MOUNTPOINT MIRRDIR DUMMDIR w node st :
  exists evs,
    ms_trace (snd (magic_mount_root MOUNTPOINT MIRRDIR DUMMDIR w node st))
    = ms_trace st ++ evs.
Proof.
  eapply magic_mount_trace. apply magic_mount_root_spec.
Qed.

(** ** Vendor hoist *)

Lemma vendor_swap_find seperate_vendor next cs :
  vendor_swap seperate_vendor next cs =
  match find_first "vendor" cs with
  | Some (i, ven) =>
      Some (<[i := Node next None (name ven)
                        (if seperate_vendor then DT_LNK else DT_DIR)
                        IS_VENDOR (parent ven) []]> cs,
            set_parent (set_name ven "/vendor") None)
  | None => None
  end.
Proof.
  induction cs as [|c cs IH]; cbn [vendor_swap find_first]; [reflexivity|].
  destruct (String.eqb (name c) "vendor"); [reflexivity|].
  rewrite IH. destruct (find_first "vendor" cs) as [[i ven]|]; reflexivity.
Qed.

Lemma mount_mirror_lines_vendor MIRRDIR lines :
  forall sep buf2 tr,
    fst (fst (fold_left (fun st line => mount_mirror_line MIRRDIR line st)
                        lines (sep, buf2, tr)))
    = sep || existsb (fun line => negb (strstr line " /system ")
                                  && strstr line " /vendor ") lines.
Proof.
  induction lines as [|line lines IH]; intros sep buf2 tr; cbn [fold_left existsb].
  - rewrite orb_false_r. reflexivity.
  - unfold mount_mirror_line at 2.
    destruct (strstr line " /system "); cbn [negb andb orb].
    + apply IH.
    + destruct (strstr line " /vendor "); rewrite IH; cbn [orb].
      * rewrite orb_true_r. reflexivity.
      * reflexivity.
Qed.

Lemma mount_mirrors_vendor MIRRDIR w buf2 :
  fst (fst (mount_mirrors MIRRDIR w buf2))
  = existsb (fun line => negb (strstr line " /system ")
                         && strstr line " /vendor ") (w_proc_mounts w).
Proof.
  unfold mount_mirrors.
  pose proof (mount_mirror_lines_vendor MIRRDIR (w_proc_mounts w) false buf2 [])
    as H.
  destruct (fold_left _ _ _) as [[sep b2] tr]. cbn [fst orb] in H.
  destruct sep; cbn [negb fst]; exact H.
Qed.

Lemma load_module_children MOUNTPOINT w (entry : dirent) st :
  (ld_has_modules st = false -> ld_root st = fresh_sys_root) ->
  ld_has_modules (load_module MOUNTPOINT w entry st) = false ->
  ld_root (load_module MOUNTPOINT w entry st) = fresh_sys_root.
Proof.
  intros H0. unfold load_module.
  destruct (Z.eqb _ _); [|exact H0].
  destruct (merge_skipped _); [exact H0|].
  destruct (dir_has "remove" _); [exact H0|].
  destruct (dir_has "disable" _); [exact H0|].
  destruct (negb (dir_has "auto_mount" _)); [exact H0|].
  destruct (dir_lookup "system" _) as [sys|]; [|exact H0].
  destruct (construct_tree _ _ _ _ _ _ _). discriminate.
Qed.

Lemma load_modules_children MOUNTPOINT w :
  ld_has_modules (load_modules MOUNTPOINT w) = false ->
  ld_root (load_modules MOUNTPOINT w) = fresh_sys_root.
Proof.
  unfold load_modules.
  assert (H0 : ld_has_modules initial_loader = false ->
               ld_root initial_loader = fresh_sys_root) by reflexivity.
  revert H0. generalize initial_loader as st.
  induction (w_modules w) as [|e es IH]; intros st H0; [exact H0|].
  cbn [fold_left]. apply IH. apply load_module_children. exact H0.
Qed.

(** C4: when the [/system] root has a child named [vendor] after the
    module loop, the overlay is mounted ([has_modules] is set) and the
    hoist puts into that child's slot a newly allocated node with status
    [VENDOR], type [LNK] when a line of /proc/mounts names [/vendor] as a
    mount point and [DIR] otherwise, the name [vendor] and the old node's
    parent pointer (in the tree of the module loop, the address of the
    root); the old vendor node is renamed [/vendor], its parent
    pointer is null, and it is magic-mounted in the state the mount of
    the system tree leaves, so its mounts come after those of the system
    tree. *)
Theorem vendor_hoist (MOUNTPOINT MIRRDIR DUMMDIR : string) (w : world)
    (sys_root : node_entry) (next : ptr) (buf2 : string)
    (i : nat) (ven : node_entry) :
  first_named "vendor" (children sys_root) i ven ->
  let seperate_vendor :=
    existsb (fun line => negb (strstr line " /system ")
                         && strstr line " /vendor ") (w_proc_mounts w) in
  let sentinel :=
    Node next None "vendor" (if seperate_vendor then DT_LNK else DT_DIR)
         IS_VENDOR (parent ven) [] in
  let ven_root :=
    Node (self ven) (module ven) "/vendor" (type ven) (status ven) None
         (children ven) in
  let swapped := set_children sys_root (<[i := sentinel]> (children sys_root)) in
  (sys_root = ld_root (load_modules MOUNTPOINT w) ->
   ld_has_modules (load_modules MOUNTPOINT w) = true /\
   parent sentinel = Some (self sys_root)) /\
  fst (fst (mount_mirrors MIRRDIR w buf2)) = seperate_vendor /\
  vendor_swap seperate_vendor next (children sys_root)
  = Some (<[i := sentinel]> (children sys_root), ven_root) /\
  children swapped !! i = Some sentinel /\
  exists st0 : mstate,
    ms_next st0 = S next /\
    ms_trace st0 = snd (mount_mirrors MIRRDIR w buf2) /\
    let sys_done := magic_mount_root MOUNTPOINT MIRRDIR DUMMDIR w swapped st0 in
    let ven_done :=
      magic_mount_root MOUNTPOINT MIRRDIR DUMMDIR w ven_root (snd sys_done) in
    mount_overlay MOUNTPOINT MIRRDIR DUMMDIR w sys_root next buf2
    = (fst sys_done, Some (fst ven_done), ms_trace (snd ven_done)) /\
    exists sys_events ven_events,
      ms_trace (snd sys_done) = ms_trace st0 ++ sys_events /\
      ms_trace (snd ven_done) = ms_trace st0 ++ sys_events ++ ven_events.
Proof.
  intros Hfst seperate_vendor sentinel ven_root swapped.
  assert (Hf : find_first "vendor" (children sys_root) = Some (i, ven))
    by (apply find_first_Some; exact Hfst).
  destruct Hfst as (Hi & Hname & _).
  assert (Hswap : vendor_swap seperate_vendor next (children sys_root)
                  = Some (<[i := sentinel]> (children sys_root), ven_root)).
  { rewrite vendor_swap_find, Hf. unfold sentinel, ven_root.
    rewrite Hname. destruct ven; reflexivity. }
  split; [|split; [|split; [|split]]].
  - intros Hroot. split.
    + destruct (ld_has_modules (load_modules MOUNTPOINT w)) eqn:Hm;
        [reflexivity|].
      apply load_modules_children in Hm. rewrite <- Hroot in Hm.
      rewrite Hm in Hi. destruct i; discriminate Hi.
    + destruct (load_modules_linked MOUNTPOINT w) as [Hl _].
      rewrite <- Hroot in Hl. apply well_linked_children in Hl.
      rewrite Forall_forall in Hl.
      assert (Hven : ven ∈ children sys_root)
        by (apply list_elem_of_lookup; exists i; exact Hi).
      exact (proj1 (Hl ven Hven)).
  - apply mount_mirrors_vendor.
  - exact Hswap.
  - cbn [swapped set_children children]. apply list_lookup_insert_eq.
    apply lookup_lt_Some in Hi. exact Hi.
  - pose proof (mount_mirrors_vendor MIRRDIR w buf2) as Hsep.
    fold seperate_vendor in Hsep.
    unfold mount_overlay.
    destruct (mount_mirrors MIRRDIR w buf2) as [[sep b2] tr].
    cbn [fst snd] in *. subst sep. rewrite Hswap.
    exists (MState (S next) b2 tr).
    split; [reflexivity|]. split; [reflexivity|].
    fold swapped. cbv zeta.
    destruct (magic_mount_root_trace MOUNTPOINT MIRRDIR DUMMDIR w swapped
                (MState (S next) b2 tr)) as [e1 He1].
    destruct (magic_mount_root MOUNTPOINT MIRRDIR DUMMDIR w swapped
                (MState (S next) b2 tr)) as [sys1 st1].
    cbn [fst snd] in *.
    destruct (magic_mount_root_trace MOUNTPOINT MIRRDIR DUMMDIR w ven_root st1)
      as [e2 He2].
    destruct (magic_mount_root MOUNTPOINT MIRRDIR DUMMDIR w ven_root st1)
      as [ven1 st2].
    cbn [fst snd] in *. split; [reflexivity|].
    exists e1, e2. split; [exact He1|].
    rewrite He2, He1, app_assoc. reflexivity.
Qed.

Lemma vendor_hoist_witness :
  vendor_swap true 4%nat (children vendor_sys_root)
  = Some ([Node 4%nat None "vendor" DT_LNK IS_VENDOR (Some 0%nat) []],
          Node 1%nat (Some "modA") "/vendor" DT_DIR IS_INTER None
               (children vendor_node)).
Proof.
  apply (vendor_hoist "/magisk" "/dev/magisk/mirror" "/dev/magisk/dummy"
                      vendor_world vendor_sys_root 4%nat EmptyString
                      0%nat vendor_node).
  split; [reflexivity|]. split; [reflexivity|]. intros j e' Hj. lia.
Defined.

(** ** Simple mount *)

Section SimpleMountProperties.

Variable CACHEMOUNT : string.
Variable live_access : string -> bool.

Lemma simple_mount_entry_unfold path (e : dirent) :
  simple_mount_entry CACHEMOUNT live_access path e
  = if dot_or_dotdot (d_name e) then []
    else if negb (live_access (path +:+ "/" +:+ d_name e)) then []
    else if Z.eqb (d_type e) DT_DIR then
      flat_map (simple_mount_entry CACHEMOUNT live_access
                                   (path +:+ "/" +:+ d_name e)) (d_sub e)
    else if Z.eqb (d_type e) DT_REG then
      mount_pair CACHEMOUNT (path +:+ "/" +:+ d_name e)
    else [].
Proof. destruct e; reflexivity. Qed.

(** The bind mounts of a listed directory, given those of its entries. *)
Lemma simple_mount_dir src tgt (ents : list dirent) :
  Forall (fun e => forall path,
            In (EBindMount src tgt)
               (simple_mount_entry CACHEMOUNT live_access path e) <->
            dot_or_dotdot (d_name e) = false /\
            live_access (path +:+ "/" +:+ d_name e) = true /\
            ((d_type e = DT_REG /\ tgt = path +:+ "/" +:+ d_name e /\
              src = CACHEMOUNT +:+ tgt) \/
             (d_type e = DT_DIR /\
              staged_file CACHEMOUNT live_access (path +:+ "/" +:+ d_name e)
                          (d_sub e) src tgt)))
         ents ->
  forall path,
    In (EBindMount src tgt)
       (flat_map (simple_mount_entry CACHEMOUNT live_access path) ents) <->
    staged_file CACHEMOUNT live_access path ents src tgt.
Proof.
  intros Hall path. rewrite Forall_forall in Hall.
  rewrite in_flat_map. split.
  - intros (e & He & Hin).
    apply (Hall e (proj2 (list_elem_of_In _ _) He)) in Hin.
    destruct Hin as (Hdot & Hlive & [(Hreg & Ht & Hs)|(Hdir & Hst)]).
    + exists path, ents, e. split; [apply walked_top|].
      split; [exact He|]. split; [exact Hdot|]. split; [exact Hreg|].
      split; [exact Ht|]. split; [exact Hs|]. rewrite Ht. exact Hlive.
    + destruct Hst as (dp & des & x & Hw & Hx).
      exists dp, des, x. split; [|exact Hx].
      eapply walked_sub; eassumption.
  - intros (dp & des & x & Hw & Hx & Hdot & Hreg & Ht & Hs & Hlive).
    destruct Hw as [path ents|path ents e dp des He Hedot Helive Hedir Hw].
    + exists x. split; [exact Hx|].
      apply (Hall x (proj2 (list_elem_of_In _ _) Hx)).
      split; [exact Hdot|]. split; [rewrite <- Ht; exact Hlive|].
      left. repeat split; assumption.
    + exists e. split; [exact He|].
      apply (Hall e (proj2 (list_elem_of_In _ _) He)).
      split; [exact Hedot|]. split; [exact Helive|]. right.
      split; [exact Hedir|]. exists dp, des, x. repeat split; assumption.
Qed.

Lemma simple_mount_entry_bind src tgt (e : dirent) :
  forall path,
    In (EBindMount src tgt) (simple_mount_entry CACHEMOUNT live_access path e) <->
    dot_or_dotdot (d_name e) = false /\
    live_access (path +:+ "/" +:+ d_name e) = true /\
    ((d_type e = DT_REG /\ tgt = path +:+ "/" +:+ d_name e /\
      src = CACHEMOUNT +:+ tgt) \/
     (d_type e = DT_DIR /\
      staged_file CACHEMOUNT live_access (path +:+ "/" +:+ d_name e)
                  (d_sub e) src tgt)).
Proof.
  induction e as [nm ty sub IH] using dirent_ind. intros path.
  rewrite simple_mount_entry_unfold. cbn [d_name d_type d_sub].
  destruct (dot_or_dotdot nm).
  { split; [intros []|intros [H _]; discriminate H]. }
  destruct (live_access (path +:+ "/" +:+ nm)); cbn [negb].
  2:{ split; [intros []|intros (_ & H & _); discriminate H]. }
  destruct (Z.eqb_spec ty DT_DIR) as [Hd|Hd].
  { rewrite (simple_mount_dir src tgt sub IH). split.
    - intros H. split; [reflexivity|]. split; [reflexivity|]. right.
      split; assumption.
    - intros (_ & _ & [(Hreg & _)|(_ & H)]); [|exact H].
      rewrite Hd in Hreg. discriminate Hreg. }
  destruct (Z.eqb_spec ty DT_REG) as [Hr|Hr].
  - unfold mount_pair. split.
    + intros [H|[H|[]]]; [discriminate H|]. injection H as <- <-.
      split; [reflexivity|]. split; [reflexivity|]. left. repeat split. exact Hr.
    + intros (_ & _ & [(_ & -> & ->)|(H & _)]); [|contradiction].
      right. left. reflexivity.
  - split; [intros []|].
    intros (_ & _ & [(H & _)|(H & _)]); contradiction.
Qed.

Lemma simple_mount_entry_pairs (e : dirent) :
  forall path,
    exists targets,
      simple_mount_entry CACHEMOUNT live_access path e
      = flat_map (mount_pair CACHEMOUNT) targets /\
      Forall (fun t => live_access t = true) targets.
Proof.
  induction e as [nm ty sub IH] using dirent_ind. intros path.
  rewrite simple_mount_entry_unfold. cbn [d_name d_type d_sub].
  destruct (dot_or_dotdot nm).
  { exists []. split; [reflexivity|apply Forall_nil; exact I]. }
  destruct (live_access (path +:+ "/" +:+ nm)) eqn:Hlive; cbn [negb].
  2:{ exists []. split; [reflexivity|apply Forall_nil; exact I]. }
  destruct (Z.eqb ty DT_DIR).
  { generalize (path +:+ "/" +:+ nm) as p. intros p.
    induction IH as [|x sub Hx _ IHsub].
    - exists []. split; [reflexivity|apply Forall_nil; exact I].
    - destruct (Hx p) as (t1 & E1 & F1). destruct IHsub as (t2 & E2 & F2).
      exists (t1 ++ t2). cbn [flat_map]. rewrite E1, E2, flat_map_app.
      split; [reflexivity|]. apply Forall_app. split; assumption. }
  destruct (Z.eqb ty DT_REG).
  - exists [path +:+ "/" +:+ nm]. cbn [flat_map]. rewrite app_nil_r.
    split; [reflexivity|]. apply Forall_cons. split; [exact Hlive|].
    apply Forall_nil. exact I.
  - exists []. split; [reflexivity|apply Forall_nil; exact I].
Qed.

(** C8: in the walk of [simple_mount], a bind mount of a staged path over
    a live path happens if and only if the staged path is a regular file
    in a walked directory and the live path exists; the whole trace is a
    sequence of pairs, [clone_attr] from the live path to the staged file
    and then [bind_mount] of the staged file over it, all on live paths
    that exist, so nothing is done for an entry whose live target is
    missing and no path is created. *)
Theorem simple_mount_only_existing (path : string) (ents : list dirent) :
  (forall src tgt,
     In (EBindMount src tgt)
        (simple_mount CACHEMOUNT live_access path (Some ents)) <->
     staged_file CACHEMOUNT live_access path ents src tgt) /\
  (exists targets,
     simple_mount CACHEMOUNT live_access path (Some ents)
     = flat_map (mount_pair CACHEMOUNT) targets /\
     Forall (fun t => live_access t = true) targets) /\
  (forall e,
     In e ents -> live_access (path +:+ "/" +:+ d_name e) = false ->
     simple_mount_entry CACHEMOUNT live_access path e = []).
Proof.
  split; [|split].
  - intros src tgt. cbn [simple_mount]. apply simple_mount_dir.
    apply Forall_forall. intros e _. apply simple_mount_entry_bind.
  - cbn [simple_mount]. induction ents as [|e ents IH].
    + exists []. split; [reflexivity|apply Forall_nil; exact I].
    + destruct (simple_mount_entry_pairs e path) as (t1 & E1 & F1).
      destruct IH as (t2 & E2 & F2).
      exists (t1 ++ t2). cbn [flat_map]. rewrite E1, E2, flat_map_app.
      split; [reflexivity|]. apply Forall_app. split; assumption.
  - intros e _ Hlive. rewrite simple_mount_entry_unfold, Hlive.
    destruct (dot_or_dotdot _); reflexivity.
Qed.

End SimpleMountProperties.

Lemma simple_mount_only_existing_witness :
  simple_mount_entry "/cache/magisk_mount" live_without_new "/system/bin"
                     (reg "new") = [].
Proof.
  apply (proj2 (proj2 (simple_mount_only_existing "/cache/magisk_mount"
                         live_without_new "/system/bin" [reg "su"; reg "new"]))
               (reg "new")).
  - right. left. reflexivity.
  - reflexivity.
Defined.

(** ** Stage orchestrator *)

(** An active module with [auto_mount] and [system] hands its [system]
    directory to [construct_tree], at the root. *)
Lemma load_module_constructs MOUNTPOINT w (entry sys : dirent) st :
  d_type entry = DT_DIR -> merge_skipped (d_name entry) = false ->
  dir_has "remove" (d_sub entry) = false ->
  dir_has "disable" (d_sub entry) = false ->
  dir_has "auto_mount" (d_sub entry) = true ->
  dir_lookup "system" (d_sub entry) = Some sys ->
  (ld_root (load_module MOUNTPOINT w entry st),
   ld_next (load_module MOUNTPOINT w entry st))
  = construct_tree (w_live_access w) (w_live_islnk w) (d_name entry) []
                   (opendir sys) (ld_root st) (ld_next st).
Proof.
  intros Hd Hs Hr Hdis Ha Hsys. unfold load_module.
  rewrite Hd, Hs, Hr, Hdis, Ha, Hsys.
  change (Z.eqb DT_DIR DT_DIR) with true. cbn [negb].
  destruct (construct_tree _ _ _ _ _ _ _). reflexivity.
Qed.

Lemma load_module_listed MOUNTPOINT w (entry : dirent) st m :
  In m (ld_list st) -> In m (ld_list (load_module MOUNTPOINT w entry st)).
Proof.
  intros Hm. unfold load_module.
  destruct (Z.eqb _ _); [|exact Hm].
  destruct (merge_skipped _); [exact Hm|].
  destruct (dir_has "remove" _); [exact Hm|].
  destruct (dir_has "disable" _); [exact Hm|].
  assert (Hm' : In m (ld_list st ++ [d_name entry]))
    by (apply in_or_app; left; exact Hm).
  destruct (negb (dir_has "auto_mount" _)); [exact Hm'|].
  destruct (dir_lookup "system" _) as [sys|]; [|exact Hm'].
  destruct (construct_tree _ _ _ _ _ _ _). exact Hm'.
Qed.

Lemma load_module_active MOUNTPOINT w (entry : dirent) st :
  d_type entry = DT_DIR -> merge_skipped (d_name entry) = false ->
  dir_has "remove" (d_sub entry) = false ->
  dir_has "disable" (d_sub entry) = false ->
  ld_list (load_module MOUNTPOINT w entry st) = ld_list st ++ [d_name entry] /\
  (dir_has "system.prop" (d_sub entry) = true ->
   In (EReadPropFile ((MOUNTPOINT +:+ "/" +:+ d_name entry) +:+ "/system.prop"))
      (ld_trace (load_module MOUNTPOINT w entry st))) /\
  (dir_has "auto_mount" (d_sub entry) = false \/
   dir_lookup "system" (d_sub entry) = None ->
   ld_root (load_module MOUNTPOINT w entry st) = ld_root st /\
   ld_has_modules (load_module MOUNTPOINT w entry st) = ld_has_modules st).
Proof.
  intros Hd Hs Hr Hdis. unfold load_module. rewrite Hd, Hs, Hr, Hdis.
  cbn [Z.eqb]. change (Z.eqb DT_DIR DT_DIR) with true. cbv iota.
  split; [|split].
  - destruct (negb (dir_has "auto_mount" _)); [reflexivity|].
    destruct (dir_lookup "system" _) as [sys|]; [|reflexivity].
    destruct (construct_tree _ _ _ _ _ _ _). reflexivity.
  - intros Hp. rewrite Hp.
    destruct (negb (dir_has "auto_mount" _)); cbn [ld_trace].
    { apply in_or_app. right. left. reflexivity. }
    destruct (dir_lookup "system" _) as [sys|]; cbn [ld_trace].
    2:{ apply in_or_app. right. left. reflexivity. }
    destruct (construct_tree _ _ _ _ _ _ _). cbn [ld_trace].
    apply in_or_app. left. apply in_or_app. right. left. reflexivity.
  - intros [Ha|Hsys].
    + rewrite Ha. split; reflexivity.
    + rewrite Hsys. destruct (negb (dir_has "auto_mount" _)); split; reflexivity.
Qed.

Lemma load_modules_listed MOUNTPOINT w (entry : dirent) :
  In entry (w_modules w) ->
  d_type entry = DT_DIR -> merge_skipped (d_name entry) = false ->
  dir_has "remove" (d_sub entry) = false ->
  dir_has "disable" (d_sub entry) = false ->
  In (d_name entry) (ld_list (load_modules MOUNTPOINT w)).
Proof.
  intros Hin Hd Hs Hr Hdis. unfold load_modules.
  generalize initial_loader as st.
  induction (w_modules w) as [|e es IH]; intros st; [destruct Hin|].
  cbn [fold_left]. destruct Hin as [->|Hin]; [|apply IH; exact Hin].
  assert (Hnow : In (d_name entry)
                    (ld_list (load_module MOUNTPOINT w entry st))).
  { rewrite (proj1 (load_module_active MOUNTPOINT w entry st Hd Hs Hr Hdis)).
    apply in_or_app. right. left. reflexivity. }
  revert Hnow. generalize (load_module MOUNTPOINT w entry st) as st'.
  clear IH. induction es as [|e es IH]; intros st' Hnow; [exact Hnow|].
  cbn [fold_left]. apply IH. apply load_module_listed. exact Hnow.
Qed.

Lemma exec_module_script_runs MOUNTPOINT access_f module_list stage m :
  In m module_list ->
  access_f (MOUNTPOINT +:+ "/" +:+ m +:+ "/" +:+ stage +:+ ".sh") = true ->
  In (ERunScript (MOUNTPOINT +:+ "/" +:+ m +:+ "/" +:+ stage +:+ ".sh"))
     (exec_module_script MOUNTPOINT access_f module_list stage).
Proof.
  intros Hm Hacc. unfold exec_module_script. apply in_flat_map.
  exists m. split; [exact Hm|]. rewrite Hacc. left. reflexivity.
Qed.

Section Orchestrator.

Variable MOUNTPOINT COREDIR MIRRDIR DUMMDIR MAINIMG DATABIN UNINSTALLER HOSTSFILE
  : string.

Lemma post_fs_data_first_mount (w : world) :
  reaches_mount MAINIMG w -> w_mount_first w = None ->
  post_fs_data MOUNTPOINT COREDIR MIRRDIR DUMMDIR MAINIMG DATABIN UNINSTALLER
               HOSTSFILE w
  = (up_to_mount MOUNTPOINT MAINIMG DATABIN w ++ unblock_boot_process, []).
Proof.
  intros (Hc & Hu & Hm1 & Hm2 & Himg) Hmount.
  assert (Hgo : negb (w_mainimg w) && negb (Z.eqb (w_create_img w) 0) = false).
  { destruct Himg as [-> | ->]; [reflexivity|]. apply andb_false_r. }
  unfold post_fs_data, up_to_mount. cbv zeta.
  rewrite Hc, Hu, Hm1, Hm2, Hgo, Hmount.
  unfold and_then. cbn [negb Z.eqb fst snd]. rewrite <- !app_assoc.
  reflexivity.
Qed.

(** Past the first mount and outside core-only mode: the module loop,
    the trim, the second mount whose result is not looked at, the
    overlay, the module scripts. *)
Lemma post_fs_data_loaded (w : world) (loop : string) :
  reaches_mount MAINIMG w -> w_mount_first w = Some loop ->
  w_disablefile w = false ->
  post_fs_data MOUNTPOINT COREDIR MIRRDIR DUMMDIR MAINIMG DATABIN UNINSTALLER
               HOSTSFILE w
  = (up_to_mount MOUNTPOINT MAINIMG DATABIN w
     ++ image_setup COREDIR w
     ++ ld_trace (load_modules MOUNTPOINT w)
     ++ [EUmountImage MOUNTPOINT loop]
     ++ trim_img (w_used w) (w_total w) MAINIMG
     ++ [EMountImage MAINIMG MOUNTPOINT]
     ++ (if ld_has_modules (load_modules MOUNTPOINT w)
         then snd (mount_overlay MOUNTPOINT MIRRDIR DUMMDIR w
                     (ld_root (load_modules MOUNTPOINT w))
                     (ld_next (load_modules MOUNTPOINT w)) EmptyString)
         else [])
     ++ exec_module_script MOUNTPOINT (w_script w)
          (ld_list (load_modules MOUNTPOINT w)) "post-fs-data"
     ++ core_only HOSTSFILE w,
     ld_list (load_modules MOUNTPOINT w)).
Proof.
  intros (Hc & Hu & Hm1 & Hm2 & Himg) Hmount Hdis.
  assert (Hgo : negb (w_mainimg w) && negb (Z.eqb (w_create_img w) 0) = false).
  { destruct Himg as [-> | ->]; [reflexivity|]. apply andb_false_r. }
  unfold post_fs_data, up_to_mount, image_setup. cbv zeta.
  rewrite Hc, Hu, Hm1, Hm2, Hgo, Hmount, Hdis.
  unfold and_then. cbn [negb Z.eqb fst snd]. rewrite <- !app_assoc.
  reflexivity.
Qed.

(** The result of the second [mount_image] plays no part in the stage. *)
Lemma post_fs_data_ignores_remount (w : world) (l1 l2 : option string) :
  post_fs_data MOUNTPOINT COREDIR MIRRDIR DUMMDIR MAINIMG DATABIN UNINSTALLER
               HOSTSFILE (with_mount_again w l1)
  = post_fs_data MOUNTPOINT COREDIR MIRRDIR DUMMDIR MAINIMG DATABIN UNINSTALLER
                 HOSTSFILE (with_mount_again w l2).
Proof. reflexivity. Qed.

End Orchestrator.

(** C7, at the failing input [remount_fails]: the second
    [mount_image(MAINIMG, MOUNTPOINT)], after the trim, fails (returns
    NULL), and the stage goes on all the same: the mirror is mounted, the
    skeleton of [/system/etc] and the module file are bind-mounted, the
    module script runs, and only then the boot is unblocked. *)
Theorem remount_failure_goes_on :
  w_mount_first remount_fails = Some "/dev/block/loop0" /\
  w_mount_again remount_fails = None /\
  post_fs_data "/magisk" "/magisk/.core" "/dev/magisk/mirror"
               "/dev/magisk/dummy" "/data/magisk.img" "/data/magisk"
               "/cache/magisk_uninstaller.sh" "/magisk/.core/hosts"
               remount_fails
  = ([EAck; ESystem "mv /data/magisk/stock_boot* /data;";
      EMountImage "/data/magisk.img" "/magisk";
      EUmountImage "/magisk" "/dev/block/loop0";
      EMountImage "/data/magisk.img" "/magisk";
      EMkdirP "/dev/magisk/mirror/system";
      EXmount "/dev/block/sda1" "/dev/magisk/mirror/system";
      ESymlink "/dev/magisk/mirror/system/vendor" "/dev/magisk/mirror/vendor";
      EMkdirP "/dev/magisk/dummy/system/etc";
      ECloneAttr "/system/etc" "/dev/magisk/dummy/system/etc";
      EBindMount "/dev/magisk/dummy/system/etc" "/system/etc";
      EOpenNew "/dev/magisk/dummy/system/etc/new";
      EBindMount "/magisk/modA/system/etc/new" "/system/etc/new";
      EOpenNew "/dev/magisk/dummy/system/etc/hosts";
      EBindMount "/dev/magisk/mirror/system/etc/hosts" "/system/etc/hosts";
      ERunScript "/magisk/modA/post-fs-data.sh";
      ECreateUnblock; EThreadExit],
     ["modA"]).
Proof.
  split; [reflexivity|]. split; [reflexivity|]. vm_compute. reflexivity.
Qed.

(** C10: a module directory with neither a [remove] nor a [disable]
    marker is appended to the module list, and its [system.prop] is read,
    whether or not it has [auto_mount] and [system/]; without one of
    these the round leaves the tree and [has_modules] as they were; and
    [exec_module_script] runs the stage script of every listed module
    that has one, so in a stage that mounts the image outside core-only
    mode the module is in the list left behind and its [post-fs-data.sh]
    is run. *)
Theorem module_listed_before_auto_mount
    (MOUNTPOINT COREDIR MIRRDIR DUMMDIR MAINIMG DATABIN UNINSTALLER HOSTSFILE
     : string) (w : world) (entry : dirent) :
  In entry (w_modules w) ->
  d_type entry = DT_DIR -> merge_skipped (d_name entry) = false ->
  dir_has "remove" (d_sub entry) = false ->
  dir_has "disable" (d_sub entry) = false ->
  (forall st,
     ld_list (load_module MOUNTPOINT w entry st) = ld_list st ++ [d_name entry] /\
     (dir_has "system.prop" (d_sub entry) = true ->
      In (EReadPropFile ((MOUNTPOINT +:+ "/" +:+ d_name entry) +:+ "/system.prop"))
         (ld_trace (load_module MOUNTPOINT w entry st))) /\
     (dir_has "auto_mount" (d_sub entry) = false \/
      dir_lookup "system" (d_sub entry) = None ->
      ld_root (load_module MOUNTPOINT w entry st) = ld_root st /\
      ld_has_modules (load_module MOUNTPOINT w entry st) = ld_has_modules st)) /\
  In (d_name entry) (ld_list (load_modules MOUNTPOINT w)) /\
  (forall stage access_f,
     access_f (MOUNTPOINT +:+ "/" +:+ d_name entry +:+ "/" +:+ stage +:+ ".sh")
     = true ->
     In (ERunScript (MOUNTPOINT +:+ "/" +:+ d_name entry +:+ "/" +:+ stage
                       +:+ ".sh"))
        (exec_module_script MOUNTPOINT access_f
                            (ld_list (load_modules MOUNTPOINT w)) stage)) /\
  (forall loop,
     reaches_mount MAINIMG w -> w_mount_first w = Some loop ->
     w_disablefile w = false ->
     let done :=
       post_fs_data MOUNTPOINT COREDIR MIRRDIR DUMMDIR MAINIMG DATABIN
                    UNINSTALLER HOSTSFILE w in
     In (d_name entry) (snd done) /\
     (w_script w (MOUNTPOINT +:+ "/" +:+ d_name entry +:+ "/" +:+ "post-fs-data"
                    +:+ ".sh") = true ->
      In (ERunScript (MOUNTPOINT +:+ "/" +:+ d_name entry +:+ "/"
                        +:+ "post-fs-data" +:+ ".sh"))
         (fst done))).
Proof.
  intros Hin Hd Hs Hr Hdis.
  pose proof (load_modules_listed MOUNTPOINT w entry Hin Hd Hs Hr Hdis) as Hl.
  split; [|split; [|split]].
  - intros st. apply load_module_active; assumption.
  - exact Hl.
  - intros stage access_f Hacc. apply exec_module_script_runs; assumption.
  - intros loop Hreach Hmount Hcore done. unfold done.
    rewrite (post_fs_data_loaded MOUNTPOINT COREDIR MIRRDIR DUMMDIR MAINIMG
               DATABIN UNINSTALLER HOSTSFILE w loop Hreach Hmount Hcore).
    cbn [fst snd]. split; [exact Hl|].
    intros Hacc. rewrite !in_app_iff.
    do 7 right. left. apply exec_module_script_runs; assumption.
Qed.

Lemma module_listed_before_auto_mount_witness :
  In "modB" (ld_list (load_modules "/magisk" scripts_only_world)) /\
  In (ERunScript "/magisk/modB/post-fs-data.sh")
     (fst (post_fs_data "/magisk" "/magisk/.core" "/dev/magisk/mirror"
                        "/dev/magisk/dummy" "/data/magisk.img" "/data/magisk"
                        "/cache/magisk_uninstaller.sh" "/magisk/.core/hosts"
                        scripts_only_world)).
Proof.
  destruct (module_listed_before_auto_mount "/magisk" "/magisk/.core"
              "/dev/magisk/mirror" "/dev/magisk/dummy" "/data/magisk.img"
              "/data/magisk" "/cache/magisk_uninstaller.sh"
              "/magisk/.core/hosts" scripts_only_world scripts_only_module)
    as (_ & Hl & _ & Hrun).
  - left. reflexivity.
  - reflexivity.
  - reflexivity.
  - reflexivity.
  - reflexivity.
  - split; [exact Hl|].
    apply (Hrun "/dev/block/loop0").
    + repeat split; try reflexivity. left. reflexivity.
    + reflexivity.
    + reflexivity.
    + reflexivity.
Defined.

(** ** Skeleton cloning: dummies *)

Lemma dummies_added_refl cs : dummies_added cs cs.
Proof. split; [lia|]. intros i d H. left. exact H. Qed.

Lemma dummies_added_trans a b c :
  dummies_added a b -> dummies_added b c -> dummies_added a c.
Proof.
  intros [Lab Hab] [Lbc Hbc]. split; [lia|].
  intros i d Hc. destruct (Hbc i d Hc) as [Hb|(Hs & Hm & Hk & Hb)].
  { apply Hab. exact Hb. }
  right. split; [exact Hs|]. split; [exact Hm|]. split; [exact Hk|].
  destruct (b !! i) as [e|] eqn:Hbi.
  - destruct Hb as [Hn Hlt].
    destruct (Hab i e Hbi) as [Ha|(Hse & _)].
    + rewrite Ha. split; assumption.
    + rewrite Hse in Hlt. lia.
  - assert (Hai : a !! i = None).
    { apply lookup_ge_None. apply lookup_ge_None in Hbi. lia. }
    rewrite Hai. intros e He.
    apply list_elem_of_In, list_elem_of_lookup in He. destruct He as [k Hk'].
    assert (Hlt : (k < length b)%nat).
    { apply lookup_lt_Some in Hk'. lia. }
    apply lookup_lt_is_Some in Hlt. destruct Hlt as [x Hx].
    assert (Hxb : In x b).
    { apply list_elem_of_In, list_elem_of_lookup. exists k. exact Hx. }
    destruct (Hab k x Hx) as [Ha|(_ & _ & _ & Ha)].
    + rewrite Hk' in Ha. injection Ha as ->. apply Hb. exact Hxb.
    + rewrite Hk' in Ha. destruct Ha as [Hn _]. rewrite Hn. apply Hb. exact Hxb.
Qed.

Lemma insert_dummy_added entry node next :
  dummies_added (children node)
                (children (fst (insert_dummy entry (node, next)))).
Proof.
  unfold insert_dummy.
  destruct (dot_or_dotdot _); [apply dummies_added_refl|]. cbn [fst].
  unfold insert_child. rewrite insert_loop_find.
  set (c := set_parent _ _).
  assert (Hc : status c = IS_DUMMY /\ module c = None /\ children c = [])
    by (repeat split; reflexivity).
  destruct (find_first (name c) (children node)) as [[i e]|] eqn:Hf.
  - apply find_first_Some in Hf. destruct Hf as (Hi & Hn & _).
    destruct (Z.gtb (status c) (status e)) eqn:Hgt;
      cbn [ins_parent set_children children]; [|apply dummies_added_refl].
    apply Z.gtb_lt in Hgt. split; [rewrite length_insert; lia|].
    intros j d Hj. destruct (Nat.eq_dec i j) as [<-|Hne].
    + rewrite list_lookup_insert_eq in Hj
        by (apply lookup_lt_Some in Hi; exact Hi).
      injection Hj as <-. right.
      destruct Hc as (Hs & Hm & Hk). split; [exact Hs|]. split; [exact Hm|].
      split; [exact Hk|]. rewrite Hi. split; [exact Hn|]. rewrite <- Hs. lia.
    + rewrite list_lookup_insert_ne in Hj by exact Hne. left. exact Hj.
  - cbn [ins_parent set_children children].
    split; [rewrite length_app; lia|].
    intros j d Hj.
    destruct (Nat.lt_ge_cases j (length (children node))) as [Hlt|Hge].
    + rewrite lookup_app_l in Hj by exact Hlt. left. exact Hj.
    + rewrite lookup_app_r in Hj by exact Hge.
      destruct (j - length (children node))%nat eqn:Hz; [|discriminate Hj].
      cbn in Hj. injection Hj as <-. right.
      destruct Hc as (Hs & Hm & Hk). split; [exact Hs|]. split; [exact Hm|].
      split; [exact Hk|].
      rewrite (proj2 (lookup_ge_None _ _) Hge).
      apply find_first_None. exact Hf.
Qed.

Lemma insert_dummies_added ents :
  forall node next,
    dummies_added (children node)
                  (children (fst (insert_dummies ents node next))).
Proof.
  unfold insert_dummies.
  induction ents as [|e ents IH]; intros node next; cbn [fold_left].
  - apply dummies_added_refl.
  - pose proof (insert_dummy_added e node next) as H1.
    destruct (insert_dummy e (node, next)) as [node' next']. cbn [fst] in H1.
    eapply dummies_added_trans; [exact H1|apply IH].
Qed.

Lemma dummies_added_keeps old new i e :
  dummies_added old new -> old !! i = Some e -> IS_DUMMY <= status e ->
  new !! i = Some e.
Proof.
  intros [Hlen Hadd] Hi Hs.
  assert (Hlt : (i < length new)%nat) by (apply lookup_lt_Some in Hi; lia).
  apply lookup_lt_is_Some in Hlt. destruct Hlt as [d Hd].
  destruct (Hadd i d Hd) as [H|(_ & _ & _ & H)].
  - rewrite Hi in H. injection H as ->. exact Hd.
  - rewrite Hi in H. destruct H as [_ H]. lia.
Qed.

Lemma insert_dummy_root entry node next :
  status (fst (insert_dummy entry (node, next))) = status node /\
  module (fst (insert_dummy entry (node, next))) = module node /\
  name (fst (insert_dummy entry (node, next))) = name node.
Proof.
  unfold insert_dummy. destruct (dot_or_dotdot _); [auto|]. cbn [fst].
  unfold insert_child. destruct (insert_loop _ _ _) as [[cs i] fr].
  repeat split.
Qed.

Lemma insert_dummies_root ents :
  forall node next,
    status (fst (insert_dummies ents node next)) = status node /\
    module (fst (insert_dummies ents node next)) = module node /\
    name (fst (insert_dummies ents node next)) = name node.
Proof.
  unfold insert_dummies.
  induction ents as [|e ents IH]; intros node next; cbn [fold_left]; [auto|].
  pose proof (insert_dummy_root e node next) as (H1 & H2 & H3).
  destruct (insert_dummy e (node, next)) as [node' next']. cbn [fst] in *.
  destruct (IH node' next') as (K1 & K2 & K3).
  rewrite K1, K2, K3. auto.
Qed.

Lemma for_each_child_slots body cs :
  (forall c st c' st', body c st = Some (c', st') ->
     status c' = status c /\ module c' = module c /\ name c' = name c) ->
  forall st cs' st',
    for_each_child body cs st = Some (cs', st') ->
    forall i c, cs !! i = Some c ->
      exists c', cs' !! i = Some c' /\
                 status c' = status c /\ module c' = module c /\
                 name c' = name c.
Proof.
  intros Hbody. induction cs as [|x cs IH]; intros st cs' st' H i c Hi.
  - discriminate Hi.
  - cbn [for_each_child] in H.
    destruct (body x st) as [[x' st1]|] eqn:Hx; [|discriminate].
    destruct (for_each_child body cs st1) as [[rest st2]|] eqn:Hrest;
      [|discriminate].
    injection H as <- <-. destruct i as [|i]; cbn in Hi |- *.
    + injection Hi as <-. exists x'. split; [reflexivity|].
      eapply Hbody. exact Hx.
    + eapply IH; eassumption.
Qed.

Section SkeletonProperties.

Variable MOUNTPOINT MIRRDIR DUMMDIR : string.
Variable mirror : string -> option (list dirent).

Lemma clone_skeleton_root fuel chain node st node' st' :
  clone_skeleton MOUNTPOINT MIRRDIR DUMMDIR mirror fuel chain node st
  = Some (node', st') ->
  status node' = status node /\ module node' = module node /\
  name node' = name node.
Proof.
  destruct fuel as [|fuel]; cbn [clone_skeleton]; [discriminate|].
  destruct (mirror _) as [ents|].
  2:{ intros H. injection H as <- <-. auto. }
  pose proof (insert_dummies_root ents node (ms_next st)) as (H1 & H2 & H3).
  destruct (insert_dummies ents node (ms_next st)) as [n1 next1].
  cbn [fst] in *.
  destruct (for_each_child _ _ _) as [[cs st1]|]; [|discriminate].
  intros H. injection H as <- <-.
  cbn [set_children status module name]. auto.
Qed.

Lemma clone_child_root fuel chain full_path child st child' st' :
  clone_child MOUNTPOINT MIRRDIR DUMMDIR
              (clone_skeleton MOUNTPOINT MIRRDIR DUMMDIR mirror fuel chain)
              full_path child st = Some (child', st') ->
  status child' = status child /\ module child' = module child /\
  name child' = name child.
Proof.
  unfold clone_child.
  destruct (has_flag child IS_VENDOR).
  { intros H. injection H as <- <-. auto. }
  destruct (has_flag child IS_MODULE).
  { destruct (IS_LNK child); intros H; injection H as <- <-; auto. }
  destruct (has_flag child (Z.lor IS_SKEL IS_INTER)).
  { apply clone_skeleton_root. }
  destruct (has_flag child IS_DUMMY); destruct (IS_LNK child);
    intros H; injection H as <- <-; auto.
Qed.

(** After [clone_skeleton], every child that had a status of at least
    [IS_DUMMY] is in its slot with the same status, module and name. *)
Lemma clone_skeleton_keeps fuel chain node st node' st' :
  clone_skeleton MOUNTPOINT MIRRDIR DUMMDIR mirror fuel chain node st
  = Some (node', st') ->
  forall i e,
    children node !! i = Some e -> IS_DUMMY <= status e ->
    exists e', children node' !! i = Some e' /\
               status e' = status e /\ module e' = module e /\
               name e' = name e.
Proof.
  destruct fuel as [|fuel]; cbn [clone_skeleton]; [discriminate|].
  destruct (mirror _) as [ents|].
  2:{ intros H. injection H as <- <-. intros i e Hi _. exists e. auto. }
  pose proof (insert_dummies_added ents node (ms_next st)) as Hadd.
  destruct (insert_dummies ents node (ms_next st)) as [n1 next1].
  cbn [fst] in Hadd.
  destruct (for_each_child _ _ _) as [[cs st1]|] eqn:Hloop; [|discriminate].
  intros H. injection H as <- <-. intros i e Hi Hs.
  cbn [set_children children].
  eapply for_each_child_slots in Hloop.
  - exact Hloop.
  - intros c s0 c' s1. apply clone_child_root.
  - eapply dummies_added_keeps; eassumption.
Qed.

End SkeletonProperties.

(** C9, as stated, fails: a module's named pipe for the existing
    [/system/etc/pipe] is neither cloned nor a directory nor a regular
    file, so its node keeps status 0; when [/system/etc] is cloned as a
    skeleton, the dummy for the mirror entry [pipe] has the higher status
    and takes the place of the module's node. *)
Lemma dummy_displaces_unmarked_child :
  let loaded := load_modules "/magisk" pipe_world in
  let mounted :=
    fst (magic_mount_root "/magisk" "/dev/magisk/mirror" "/dev/magisk/dummy"
                          pipe_world (ld_root loaded)
                          (MState (ld_next loaded) EmptyString [])) in
  exists before after,
    find_path ["etc"; "pipe"] (ld_root loaded) = Some before /\
    module before = Some "modA" /\ status before = 0 /\
    find_path ["etc"; "pipe"] mounted = Some after /\
    module after = None /\ status after = IS_DUMMY /\
    self after <> self before.
Proof.
  exists (Node 2%nat (Some "modA") "pipe" DT_FIFO 0 (Some 1%nat) []),
         (Node 4%nat None "pipe" DT_FIFO IS_DUMMY (Some 1%nat) []).
  split; [vm_compute; reflexivity|].
  split; [reflexivity|]. split; [reflexivity|].
  split; [vm_compute; reflexivity|].
  split; [reflexivity|]. split; [reflexivity|].
  cbn [self]. lia.
Qed.

(** C9, amended: in [clone_skeleton], a dummy made for a mirror entry
    never displaces a child whose status is at least [IS_DUMMY]:
    [insert_child] frees the new dummy and keeps the child already there
    under that name, so every [MODULE], [SKEL] or [INTER] child (and the
    [VENDOR] placeholder) is in its slot, with its status and its module,
    after the skeleton has been cloned; and a node that the first loop
    put into the vector is a dummy whose name no child had, or had only
    with a status below [IS_DUMMY]. *)
Theorem dummies_keep_marked_children
    (MOUNTPOINT MIRRDIR DUMMDIR : string)
    (mirror : string -> option (list dirent))
    (ents : list dirent) (node : node_entry) (next : ptr) :
  let cloned := fst (insert_dummies ents node next) in
  (forall i e,
     children node !! i = Some e -> IS_DUMMY <= status e ->
     children cloned !! i = Some e) /\
  (forall i d,
     children cloned !! i = Some d ->
     children node !! i = Some d \/ dummy_slot (children node) i d) /\
  (forall fuel chain st,
     (height node <= fuel)%nat ->
     exists node' st',
       clone_skeleton MOUNTPOINT MIRRDIR DUMMDIR mirror fuel chain node st
       = Some (node', st') /\
       forall i e,
         children node !! i = Some e -> IS_DUMMY <= status e ->
         exists e', children node' !! i = Some e' /\
                    status e' = status e /\ module e' = module e /\
                    name e' = name e).
Proof.
  intros cloned.
  pose proof (insert_dummies_added ents node next) as Hadd. fold cloned in Hadd.
  split; [|split].
  - intros i e Hi Hs. eapply dummies_added_keeps; eassumption.
  - apply Hadd.
  - intros fuel chain st Hh.
    destruct (clone_skeleton_returns MOUNTPOINT MIRRDIR DUMMDIR mirror fuel
                chain node st Hh) as [[node' st'] Hr].
    exists node', st'. split; [exact Hr|].
    eapply clone_skeleton_keeps. exact Hr.
Qed.

Lemma dummies_keep_marked_children_witness :
  children
    (fst (insert_dummies [fifo "pipe"; reg "new"; reg "hosts"]
            (Node 1%nat (Some "modA") "etc" DT_DIR (Z.lor IS_INTER IS_SKEL)
                  (Some 0%nat)
                  [Node 3%nat (Some "modA") "new" DT_REG IS_MODULE
                        (Some 1%nat) []])
            4%nat)) !! 0%nat
  = Some (Node 3%nat (Some "modA") "new" DT_REG IS_MODULE (Some 1%nat) []).
Proof.
  apply (proj1 (dummies_keep_marked_children "/magisk" "/dev/magisk/mirror"
                  "/dev/magisk/dummy" pipe_mirror
                  [fifo "pipe"; reg "new"; reg "hosts"]
                  (Node 1%nat (Some "modA") "etc" DT_DIR (Z.lor IS_INTER IS_SKEL)
                        (Some 0%nat)
                        [Node 3%nat (Some "modA") "new" DT_REG IS_MODULE
                              (Some 1%nat) []])
                  4%nat)).
  - reflexivity.
  - cbn [status]. unfold IS_DUMMY, IS_MODULE. lia.
Defined.

(** * Further properties *)

(** ** Image store *)






(** X3: [merge_img] returns 0 or 1, and 1 exactly when both images exist
    and a loop mount or the [opendir] fails; it has then done no more than
    the resize, the two [mkdir] and the mounts up to the failing step:
    nothing is unmounted, nothing is removed or cloned, and the source
    image is not unlinked. *)
Theorem merge_img_failure (env : merge_env) (source target : string) :
  (snd (merge_img env source target) = 0 \/
   snd (merge_img env source target) = 1) /\
  (snd (merge_img env source target) = 1 <->
   src_exists env = true /\ dst_exists env = true /\
   (s_loop env = None \/ t_loop env = None \/ src_dir env = None)) /\
  (snd (merge_img env source target) = 1 ->
   fst (merge_img env source target)
   = (if negb (Z.eqb (round_size (s_used env + t_used env)) (t_total env))
      then [EResizeImg target (round_size (s_used env + t_used env))]
      else [])
     ++ [EMkdir SOURCE_TMP; EMkdir TARGET_TMP; EMountImage source SOURCE_TMP]
     ++ (match s_loop env with
         | Some _ => [EMountImage target TARGET_TMP]
         | None => []
         end)).
Proof.
  unfold merge_img.
  destruct (src_exists env); cbn [negb].
  2:{ split; [left; reflexivity|]. split.
      - split; [discriminate|]. intros (H & _). discriminate H.
      - discriminate. }
  destruct (dst_exists env); cbn [negb].
  2:{ split; [left; reflexivity|]. split.
      - split; [discriminate|]. intros (_ & H & _). discriminate H.
      - discriminate. }
  destruct (s_loop env) as [sl|].
  2:{ split; [right; reflexivity|]. split.
      - split; [intros _|reflexivity]. repeat split. left. reflexivity.
      - intros _. cbn [fst]. rewrite app_nil_r. reflexivity. }
  destruct (t_loop env) as [tl|].
  2:{ split; [right; reflexivity|]. split.
      - split; [intros _|reflexivity]. repeat split. right. left. reflexivity.
      - intros _. cbn [fst]. rewrite <- app_assoc. reflexivity. }
  destruct (src_dir env) as [ents|].
  2:{ split; [right; reflexivity|]. split.
      - split; [intros _|reflexivity]. repeat split. right. right. reflexivity.
      - intros _. cbn [fst]. rewrite <- app_assoc. reflexivity. }
  split; [left; reflexivity|]. split.
  - split; [discriminate|].
    intros (_ & _ & [H|[H|H]]); discriminate H.
  - discriminate.
Qed.

Lemma merge_img_failure_witness :
  fst (merge_img merge_target_busy "/cache/magisk.img" "/data/magisk.img")
  = [EMkdir SOURCE_TMP; EMkdir TARGET_TMP;
     EMountImage "/cache/magisk.img" SOURCE_TMP;
     EMountImage "/data/magisk.img" TARGET_TMP].
Proof.
  apply (proj2 (proj2 (merge_img_failure merge_target_busy "/cache/magisk.img"
                                         "/data/magisk.img"))).
  reflexivity.
Defined.

Lemma merge_entry_rmrf (env : merge_env) (e : dirent) (path : string) :
  In (ERmRf path) (merge_entry env e) <->
  d_type e = DT_DIR /\ merge_skipped (d_name e) = false /\
  in_target env (TARGET_TMP +:+ "/" +:+ d_name e) = true /\
  path = TARGET_TMP +:+ "/" +:+ d_name e.
Proof.
  unfold merge_entry.
  destruct (Z.eqb_spec (d_type e) DT_DIR) as [Hd|Hd].
  2:{ split; [intros []|intros (H & _); contradiction]. }
  destruct (merge_skipped (d_name e)).
  { split; [intros []|intros (_ & H & _); discriminate H]. }
  destruct (in_target env _) eqn:Hin.
  - split.
    + intros [H|[]]. injection H as <-. repeat split; assumption.
    + intros (_ & _ & _ & ->). left. reflexivity.
  - split; [intros []|intros (_ & _ & H & _); discriminate H].
Qed.

(** X4: when a merge goes through, what it removes from the target before
    cloning is exactly the directories of the source, other than [.],
    [..], [.core] and [lost+found], that also exist in the target; every
    removal comes before [clone_dir] and none after it. *)
Theorem merge_img_upgrades (env : merge_env) (source target : string)
    (sl tl : string) (ents : list dirent) :
  src_exists env = true -> dst_exists env = true ->
  s_loop env = Some sl -> t_loop env = Some tl -> src_dir env = Some ents ->
  exists before after,
    fst (merge_img env source target)
    = before ++ ECloneDir SOURCE_TMP TARGET_TMP :: after /\
    (forall path,
       In (ERmRf path) before <->
       exists e, In e ents /\ d_type e = DT_DIR /\
                 merge_skipped (d_name e) = false /\
                 in_target env (TARGET_TMP +:+ "/" +:+ d_name e) = true /\
                 path = TARGET_TMP +:+ "/" +:+ d_name e) /\
    (forall path, ~ In (ERmRf path) after).
Proof.
  intros H1 H2 Hsl Htl Hdir. unfold merge_img.
  rewrite H1, H2, Hsl, Htl, Hdir. cbn [negb fst].
  exists (((if negb (Z.eqb (round_size (s_used env + t_used env)) (t_total env))
            then [EResizeImg target (round_size (s_used env + t_used env))]
            else [])
           ++ [EMkdir SOURCE_TMP; EMkdir TARGET_TMP;
               EMountImage source SOURCE_TMP; EMountImage target TARGET_TMP])
          ++ flat_map (merge_entry env) ents),
         [EUmountImage SOURCE_TMP sl; EUmountImage TARGET_TMP tl;
          ERmdir SOURCE_TMP; ERmdir TARGET_TMP; EUnlink source].
  split; [|split].
  - rewrite <- !app_assoc. reflexivity.
  - intros path. rewrite in_app_iff, in_flat_map. split.
    + intros [H|(e & He & H)].
      * exfalso. apply in_app_or in H. destruct H as [H|H].
        -- destruct (negb _); [destruct H as [H|[]]; discriminate H|destruct H].
        -- repeat (destruct H as [H|H]; [discriminate H|]). exact H.
      * exists e. split; [exact He|]. apply merge_entry_rmrf. exact H.
    + intros (e & He & H). right. exists e. split; [exact He|].
      apply merge_entry_rmrf. exact H.
  - intros path H.
    repeat (destruct H as [H|H]; [discriminate H|]). exact H.
Qed.

Lemma merge_img_upgrades_witness :
  exists before after,
    fst (merge_img merge_scenario "/cache/magisk.img" "/data/magisk.img")
    = before ++ ECloneDir SOURCE_TMP TARGET_TMP :: after /\
    In (ERmRf "/dev/target/modA") before.
Proof.
  destruct (merge_img_upgrades merge_scenario "/cache/magisk.img"
              "/data/magisk.img" "/dev/block/loop0" "/dev/block/loop1"
              [dir "." []; dir ".." []; dir ".core" []; dir "lost+found" [];
               dir "modA" []; dir "modB" []; reg "note"]
              eq_refl eq_refl eq_refl eq_refl eq_refl)
    as (before & after & Heq & Hrm & _).
  exists before, after. split; [exact Heq|].
  apply Hrm. exists (dir "modA" []).
  split; [right; right; right; right; left; reflexivity|].
  repeat split.
Defined.

(** ** Scripts *)

(** X5: [exec_common_script] runs a file exactly when it is a regular
    file of the stage directory that is executable, under the path
    [COREDIR/<stage>.d/<name>]; directories and files without the
    execute permission are passed over, and nothing is run when the
    directory cannot be opened. *)
Theorem exec_common_script_runs (COREDIR : string) (access_x : string -> bool)
    (dir : option (list dirent)) (stage path : string) :
  (In (ERunScript path) (exec_common_script COREDIR access_x dir stage) <->
   exists ents e,
     dir = Some ents /\ In e ents /\ d_type e = DT_REG /\
     path = (COREDIR +:+ "/" +:+ stage +:+ ".d") +:+ "/" +:+ d_name e /\
     access_x path = true) /\
  (forall ev, In ev (exec_common_script COREDIR access_x dir stage) ->
              exists p, ev = ERunScript p) /\
  exec_common_script COREDIR access_x None stage = [].
Proof.
  unfold exec_common_script. split; [|split; [|reflexivity]].
  - destruct dir as [ents|].
    2:{ split; [intros []|intros (ents & e & H & _); discriminate H]. }
    rewrite in_flat_map. split.
    + intros (e & He & H).
      destruct (Z.eqb_spec (d_type e) DT_REG) as [Hr|Hr]; [|destruct H].
      destruct (access_x _) eqn:Hx; [|destruct H].
      destruct H as [H|[]]. injection H as <-.
      exists ents, e. repeat split; assumption.
    + intros (ents' & e & Hd & He & Hr & -> & Hx). injection Hd as <-.
      exists e. split; [exact He|]. rewrite Hr.
      change (Z.eqb DT_REG DT_REG) with true. cbv iota. rewrite Hx.
      left. reflexivity.
  - intros ev. destruct dir as [ents|]; [|intros []].
    rewrite in_flat_map. intros (e & _ & H).
    destruct (Z.eqb _ _); [|destruct H].
    destruct (access_x _); [|destruct H].
    destruct H as [H|[]]. eexists. symmetry. exact H.
Qed.

(** X6: [exec_module_script] runs a script exactly when it is the stage
    script [MOUNTPOINT/<module>/<stage>.sh] of a module of the list and
    the file exists; it runs nothing for an empty list, and the scripts
    of a list put together from two run in the order of the list. *)
Theorem exec_module_script_only_listed (MOUNTPOINT : string)
    (access_f : string -> bool) (module_list more : list string)
    (stage path : string) :
  (In (ERunScript path)
      (exec_module_script MOUNTPOINT access_f module_list stage) <->
   exists m, In m module_list /\
             path = MOUNTPOINT +:+ "/" +:+ m +:+ "/" +:+ stage +:+ ".sh" /\
             access_f path = true) /\
  exec_module_script MOUNTPOINT access_f [] stage = [] /\
  exec_module_script MOUNTPOINT access_f (module_list ++ more) stage
  = exec_module_script MOUNTPOINT access_f module_list stage
    ++ exec_module_script MOUNTPOINT access_f more stage.
Proof.
  unfold exec_module_script. split; [|split; [reflexivity|apply flat_map_app]].
  rewrite in_flat_map. split.
  - intros (m & Hm & H). destruct (access_f _) eqn:Hx; [|destruct H].
    destruct H as [H|[]]. injection H as <-. exists m. repeat split; assumption.
  - intros (m & Hm & -> & Hx). exists m. split; [exact Hm|]. rewrite Hx.
    left. reflexivity.
Qed.

(** ** Paths and tree surgery *)

Lemma get_full_path_append chain (a b : string) :
  get_full_path chain (a +:+ b) = get_full_path chain a +:+ b.
Proof.
  revert a b. induction chain as [|q chain IH]; intros a b; cbn [get_full_path];
    [reflexivity|].
  rewrite <- IH. f_equal. rewrite !append_assoc. reflexivity.
Qed.

Lemma concat_snoc (sep x : string) (l : list string) :
  l <> [] -> String.concat sep (l ++ [x]) = String.concat sep l +:+ sep +:+ x.
Proof.
  induction l as [|y l IH]; [intros H; contradiction|]. intros _.
  destruct l as [|z l].
  - reflexivity.
  - change (String.concat sep ((y :: z :: l) ++ [x]))
      with (y +:+ sep +:+ String.concat sep ((z :: l) ++ [x])).
    rewrite IH by discriminate.
    change (String.concat sep (y :: z :: l))
      with (y +:+ sep +:+ String.concat sep (z :: l)).
    rewrite !append_assoc. reflexivity.
Qed.

(** X7: [get_full_path] of a node is the names on the way from the root
    of its tree down to the node, joined by slashes; for a root it is the
    root's name, and for a child it is the path of its parent, a slash,
    and the child's name. *)
Theorem get_full_path_joined (chain : list string) (nm pname : string) :
  get_full_path chain nm = String.concat "/" (rev chain ++ [nm]) /\
  get_full_path [] nm = nm /\
  get_full_path (pname :: chain) nm
  = get_full_path chain pname +:+ "/" +:+ nm.
Proof.
  split; [|split; [reflexivity|]].
  - revert nm. induction chain as [|p up IH]; intros nm; [reflexivity|].
    cbn [get_full_path rev]. rewrite get_full_path_append, IH.
    rewrite (concat_snoc "/" nm (rev up ++ [p])); [reflexivity|].
    destruct (rev up); discriminate.
  - cbn [get_full_path]. apply get_full_path_append.
Qed.

Lemma destroy_subtree_unfold n :
  destroy_subtree n = flat_map destroy_subtree (children n) ++ [self n].
Proof. destruct n; reflexivity. Qed.

Lemma node_count_unfold n :
  node_count n
  = S (fold_right (fun c m => (node_count c + m)%nat) 0%nat (children n)).
Proof. destruct n; reflexivity. Qed.

(** X8: [destroy_subtree] frees the node and every node below it, and
    nothing else: an address is freed exactly when it is the address of a
    node of the subtree, there are as many frees as nodes, and the node
    itself is freed last, after all its descendants. *)
Theorem destroy_subtree_frees_subtree (n : node_entry) :
  (forall a, In a (destroy_subtree n) <->
             exists anc m, descends n anc m /\ self m = a) /\
  length (destroy_subtree n) = node_count n /\
  (exists below, destroy_subtree n = below ++ [self n] /\
                 length below = (node_count n - 1)%nat).
Proof.
  induction n as [a mo nm ty s p cs IH] using node_entry_ind.
  assert (Hlen : length (flat_map destroy_subtree cs)
                 = fold_right (fun c m => (node_count c + m)%nat) 0%nat cs).
  { induction IH as [|c cs Hc _ IHcs]; [reflexivity|].
    cbn [flat_map fold_right]. rewrite length_app, IHcs.
    destruct Hc as (_ & Hc & _). rewrite Hc. reflexivity. }
  split; [|split].
  - intros x. rewrite destroy_subtree_unfold. cbn [children self].
    rewrite in_app_iff, in_flat_map. split.
    + intros [(c & Hc & Hx)|[<-|[]]].
      * rewrite Forall_forall in IH.
        destruct (IH c (proj2 (list_elem_of_In _ _) Hc)) as (Hiff & _).
        apply Hiff in Hx. destruct Hx as (anc & m & Hd & Hm).
        eexists. exists m. split; [|exact Hm].
        eapply descends_child; [exact Hc|exact Hd].
      * exists [], (Node a mo nm ty s p cs). split; [apply descends_here|].
        reflexivity.
    + intros (anc & m & Hd & Hm).
      inversion Hd as [n0 Hn0|p0 c anc0 m0 Hc Hd' Hp0]; subst.
      * right. left. reflexivity.
      * left. exists c. cbn [children] in Hc. split; [exact Hc|].
        rewrite Forall_forall in IH.
        destruct (IH c (proj2 (list_elem_of_In _ _) Hc)) as (Hiff & _).
        apply Hiff. exists anc0, m. split; [exact Hd'|reflexivity].
  - rewrite destroy_subtree_unfold, node_count_unfold. cbn [children self].
    rewrite length_app, Hlen. cbn [length]. lia.
  - exists (flat_map destroy_subtree cs).
    rewrite destroy_subtree_unfold, node_count_unfold. cbn [children self].
    split; [reflexivity|]. rewrite Hlen. lia.
Qed.

Lemma find_first_name nm cs i e :
  find_first nm cs = Some (i, e) -> cs !! i = Some e /\ name e = nm.
Proof.
  intros H. apply find_first_Some in H. destruct H as (H1 & H2 & _).
  split; assumption.
Qed.

Lemma find_first_insert nm cs i e c :
  find_first nm cs = Some (i, e) -> name c = nm ->
  find_first nm (<[i:=c]> cs) = Some (i, c).
Proof.
  revert i. induction cs as [|x cs IH]; intros i; cbn [find_first];
    [discriminate|].
  destruct (String.eqb (name x) nm) eqn:Hx.
  - intros H Hc. injection H as <- <-.
    change (<[0%nat:=c]> (x :: cs)) with (c :: cs). cbn [find_first].
    rewrite Hc, String.eqb_refl. reflexivity.
  - destruct (find_first nm cs) as [[k y]|] eqn:Hf; [|discriminate].
    intros H Hc. injection H as <- <-.
    change (<[S k:=c]> (x :: cs)) with (x :: <[k:=c]> cs). cbn [find_first].
    rewrite Hx, (IH k eq_refl Hc). reflexivity.
Qed.

Lemma find_first_snoc nm cs c :
  find_first nm cs = None -> name c = nm ->
  find_first nm (cs ++ [c]) = Some (length cs, c).
Proof.
  induction cs as [|x cs IH]; cbn [find_first app length].
  - intros _ Hc. rewrite Hc, String.eqb_refl. reflexivity.
  - destruct (String.eqb (name x) nm); [discriminate|].
    destruct (find_first nm cs) as [[k y]|]; [discriminate|].
    intros _ Hc. rewrite (IH eq_refl Hc). reflexivity.
Qed.

(** X9: after [insert_child(p, c)], looking the name of [c] up among the
    children of [p] finds the returned child in the returned slot; that
    child carries the name of [c], points back to [p] if it is the new
    node, and its status is the greater of the status of [c] and of the
    node that had the name before (the status of [c] when there was
    none). *)
Theorem insert_child_lookup (p c : node_entry) :
  let r := insert_child p c in
  exists n,
    ins_child r = Some n /\
    find_first (name c) (children (ins_parent r)) = Some (ins_slot r, n) /\
    name n = name c /\
    (n = set_parent c (Some (self p)) \/ In n (children p)) /\
    status n = match find_first (name c) (children p) with
               | Some (_, e) => Z.max (status c) (status e)
               | None => status c
               end.
Proof.
  intros r. unfold r, insert_child, ins_child. rewrite insert_loop_find.
  set (c' := set_parent c (Some (self p))).
  change (name c') with (name c). change (status c') with (status c).
  destruct (find_first (name c) (children p)) as [[i e]|] eqn:Hf.
  - destruct (find_first_name _ _ _ _ Hf) as [Hi Hn].
    destruct (Z.gtb (status c) (status e)) eqn:Hgt;
      cbn [ins_parent ins_slot set_children children].
    + apply Z.gtb_lt in Hgt. exists c'.
      split; [apply list_lookup_insert_eq; apply lookup_lt_Some in Hi; exact Hi|].
      split; [exact (find_first_insert (name c) (children p) i e c' Hf eq_refl)|].
      split; [reflexivity|]. split; [left; reflexivity|].
      change (status c') with (status c). lia.
    + assert (Hle : status c <= status e).
      { destruct (Z.gtb_spec (status c) (status e)); [discriminate|lia]. }
      exists e. split; [exact Hi|]. split; [exact Hf|]. split; [exact Hn|].
      split; [right; apply list_elem_of_In, list_elem_of_lookup; exists i;
              exact Hi|].
      lia.
  - cbn [ins_parent ins_slot set_children children]. exists c'.
    rewrite Nat.add_0_l.
    split; [rewrite lookup_app_r, Nat.sub_diag by lia; reflexivity|].
    split; [apply find_first_snoc; [exact Hf|reflexivity]|].
    split; [reflexivity|]. split; [left; reflexivity|reflexivity].
Qed.

(** ** Names of children *)

Lemma names_distinct_NoDup (l : list string) :
  names_distinct l = true <-> NoDup l.
Proof.
  induction l as [|x l IH]; cbn [names_distinct].
  - split; [intros _; apply NoDup_nil; exact I|reflexivity].
  - rewrite andb_true_iff, negb_true_iff, NoDup_cons, IH.
    assert (Hx : existsb (String.eqb x) l = false <-> x ∉ l).
    { split.
      - intros Hf Hin. apply list_elem_of_In in Hin.
        assert (Ht : existsb (String.eqb x) l = true).
        { apply existsb_exists. exists x. split; [exact Hin|].
          apply String.eqb_refl. }
        rewrite Hf in Ht. discriminate Ht.
      - intros Hn. destruct (existsb (String.eqb x) l) eqn:He; [|reflexivity].
        exfalso. apply Hn. apply existsb_exists in He.
        destruct He as (y & Hy & Hxy). apply String.eqb_eq in Hxy. subst y.
        apply list_elem_of_In. exact Hy. }
    rewrite Hx. reflexivity.
Qed.

Lemma find_first_None_names nm cs :
  find_first nm cs = None <-> nm ∉ map name cs.
Proof.
  rewrite find_first_None. split.
  - intros H Hin. apply list_elem_of_In, in_map_iff in Hin.
    destruct Hin as (e & He & Hin). apply (H e Hin He).
  - intros H e He Hn. apply H. apply list_elem_of_In, in_map_iff.
    exists e. split; assumption.
Qed.

Lemma map_name_insert cs i (e x : node_entry) :
  cs !! i = Some e -> name x = name e ->
  map name (<[i:=x]> cs) = map name cs.
Proof.
  revert i. induction cs as [|y cs IH]; intros [|i] Hi Hx; try discriminate Hi.
  - cbn in Hi. injection Hi as ->. cbn. rewrite Hx. reflexivity.
  - cbn in Hi. change (<[S i:=x]> (y :: cs)) with (y :: <[i:=x]> cs).
    cbn [map]. rewrite (IH i Hi Hx). reflexivity.
Qed.

(** The names among the children after an insertion. *)
Lemma insert_child_names p c :
  map name (children (ins_parent (insert_child p c)))
  = match find_first (name c) (children p) with
    | Some _ => map name (children p)
    | None => map name (children p) ++ [name c]
    end.
Proof.
  unfold insert_child. rewrite insert_loop_find.
  set (c' := set_parent c (Some (self p))).
  change (name c') with (name c).
  destruct (find_first (name c) (children p)) as [[i e]|] eqn:Hf.
  - destruct (find_first_name _ _ _ _ Hf) as [Hi Hn].
    destruct (Z.gtb _ _); cbn [ins_parent set_children children];
      [|reflexivity].
    apply (map_name_insert _ i e c' Hi). symmetry. exact Hn.
  - cbn [ins_parent set_children children]. rewrite map_app. reflexivity.
Qed.

Lemma insert_child_distinct p c :
  names_distinct (map name (children p)) = true ->
  names_distinct (map name (children (ins_parent (insert_child p c)))) = true.
Proof.
  intros H. rewrite insert_child_names.
  destruct (find_first (name c) (children p)) as [[i e]|] eqn:Hf; [exact H|].
  apply names_distinct_NoDup. apply names_distinct_NoDup in H.
  apply NoDup_app. split; [exact H|]. split.
  - intros x Hx Hc. apply list_elem_of_In in Hc. destruct Hc as [<-|[]].
    apply find_first_None_names in Hf. contradiction.
  - apply NoDup_singleton.
Qed.

(** X10: [insert_child(p, c)] leaves every child with another name in its
    slot, adds at most one slot, changes nothing of [p] but its children,
    and keeps the names of the children pairwise distinct if they were. *)
Theorem insert_child_keeps_others (p c : node_entry) :
  let r := insert_child p c in
  (forall j e, children p !! j = Some e -> name e <> name c ->
               children (ins_parent r) !! j = Some e) /\
  (length (children p) <= length (children (ins_parent r))
   <= S (length (children p)))%nat /\
  ins_parent r = set_children p (children (ins_parent r)) /\
  (names_distinct (map name (children p)) = true ->
   names_distinct (map name (children (ins_parent r))) = true).
Proof.
  intros r. split; [|split; [|split]].
  - intros j e Hj Hne. unfold r, insert_child. rewrite insert_loop_find.
    set (c' := set_parent c (Some (self p))).
    change (name c') with (name c).
    destruct (find_first (name c) (children p)) as [[i x]|] eqn:Hf.
    + destruct (find_first_name _ _ _ _ Hf) as [Hi Hn].
      destruct (Z.gtb _ _); cbn [ins_parent set_children children];
        [|exact Hj].
      rewrite list_lookup_insert_ne; [exact Hj|].
      intros ->. rewrite Hi in Hj. injection Hj as ->. contradiction.
    + cbn [ins_parent set_children children].
      rewrite lookup_app_l; [exact Hj|]. apply lookup_lt_Some in Hj. exact Hj.
  - unfold r, insert_child. rewrite insert_loop_find.
    destruct (find_first _ _) as [[i x]|].
    + destruct (Z.gtb _ _); cbn [ins_parent set_children children].
      * rewrite length_insert. lia.
      * lia.
    + cbn [ins_parent set_children children]. rewrite length_app. cbn. lia.
  - unfold r, insert_child. destruct (insert_loop _ _ _) as [[cs i] fr].
    reflexivity.
  - apply insert_child_distinct.
Qed.

Lemma unique_names_unfold n :
  unique_names n
  = names_distinct (map name (children n)) && forallb unique_names (children n).
Proof. destruct n; reflexivity. Qed.

Lemma unique_names_intro n :
  names_distinct (map name (children n)) = true ->
  Forall (fun c => unique_names c = true) (children n) ->
  unique_names n = true.
Proof.
  intros Hd Hall. rewrite unique_names_unfold, Hd. cbn [andb].
  apply forallb_forall. intros c Hc. rewrite Forall_forall in Hall.
  apply Hall. apply list_elem_of_In. exact Hc.
Qed.

Lemma unique_names_elim n :
  unique_names n = true ->
  names_distinct (map name (children n)) = true /\
  Forall (fun c => unique_names c = true) (children n).
Proof.
  rewrite unique_names_unfold, andb_true_iff. intros [Hd Hall].
  split; [exact Hd|]. apply Forall_forall. intros c Hc.
  rewrite forallb_forall in Hall. apply Hall. apply list_elem_of_In. exact Hc.
Qed.

Section UniqueNames.

Variable live_access live_islnk : string -> bool.

Lemma construct_entry_name modname chain pp (entry : dirent) p next :
  name (fst (construct_entry live_access live_islnk modname chain pp entry
                             (p, next))) = name p.
Proof.
  destruct (dot_or_dotdot (d_name entry)) eqn:Hdot.
  - destruct entry as [nm ty sub]. cbn [d_name] in Hdot.
    cbn [construct_entry d_name]. rewrite Hdot. reflexivity.
  - rewrite construct_entry_step by exact Hdot. cbv zeta.
    match goal with
    | |- context [insert_child ?a ?b] =>
        destruct (insert_child_fields a b) as (_ & _ & Hn);
        assert (Ha : name a = name p)
          by (rewrite mark_node_fst; destruct (clone_decision _ _ _ _ _);
              reflexivity);
        destruct (ins_child (insert_child a b)) as [node|];
        [destruct (travels_deeper node)|];
        cbn [fst set_children name]; rewrite Hn; exact Ha
    end.
Qed.

Lemma construct_tree_name modname chain dir node next :
  name (fst (construct_tree live_access live_islnk modname chain dir node next))
  = name node.
Proof.
  unfold construct_tree. destruct dir as [ents|]; [|reflexivity].
  generalize (get_full_path chain (name node)) as pp. intros pp.
  revert node next. induction ents as [|e ents IH]; intros node next;
    [reflexivity|].
  cbn [fold_left].
  pose proof (construct_entry_name modname chain pp e node next) as H1.
  destruct (construct_entry _ _ _ _ _ _ _) as [node' next']. cbn [fst] in *.
  rewrite IH. exact H1.
Qed.

Lemma construct_tree_unique modname chain (dir : option (list dirent)) node next :
  (forall ents, dir = Some ents ->
     Forall (fun e => forall modname chain pp p next,
                unique_names p = true ->
                unique_names (fst (construct_entry live_access live_islnk
                                     modname chain pp e (p, next))) = true)
            ents) ->
  unique_names node = true ->
  unique_names (fst (construct_tree live_access live_islnk modname chain dir
                                    node next)) = true.
Proof.
  intros Hall. unfold construct_tree. destruct dir as [ents|]; [|auto].
  specialize (Hall ents eq_refl).
  generalize (get_full_path chain (name node)) as pp. intros pp.
  revert node next.
  induction Hall as [|e ents He _ IH]; intros node next Hw; [exact Hw|].
  cbn [fold_left]. specialize (He modname chain pp node next Hw).
  destruct (construct_entry _ _ _ _ _ _ _) as [node' next']. apply IH. exact He.
Qed.

Lemma construct_entry_unique (entry : dirent) :
  forall modname chain pp p next,
    unique_names p = true ->
    unique_names (fst (construct_entry live_access live_islnk modname chain pp
                                       entry (p, next))) = true.
Proof.
  induction entry as [nm ty sub IH] using dirent_ind.
  intros modname chain pp p next Hw.
  destruct (dot_or_dotdot nm) eqn:Hdot.
  { cbn [construct_entry d_name]. rewrite Hdot. exact Hw. }
  rewrite construct_entry_step by exact Hdot. cbv zeta. cbn [d_name d_type d_sub].
  set (marked := mark_node _ _ p _).
  set (r := insert_child (fst marked) (snd marked)).
  destruct (unique_names_elim p Hw) as [Hd Hall].
  assert (Hkids : children (fst marked) = children p).
  { unfold marked. rewrite mark_node_fst.
    destruct (clone_decision _ _ _ _ _); reflexivity. }
  assert (Hnew : unique_names (set_parent (snd marked) (Some (self (fst marked))))
                 = true).
  { unfold marked, mark_node.
    destruct (clone_decision _ _ _ _ _); [reflexivity|].
    destruct (IS_DIR _); [destruct (dir_has _ _); reflexivity|].
    destruct (IS_REG _); reflexivity. }
  assert (Hdr : names_distinct (map name (children (ins_parent r))) = true).
  { unfold r. apply insert_child_distinct. rewrite Hkids. exact Hd. }
  assert (Hwr : Forall (fun c => unique_names c = true)
                       (children (ins_parent r))).
  { unfold r. apply insert_child_forall; [|exact Hnew].
    rewrite Hkids. exact Hall. }
  destruct (ins_child r) as [node|] eqn:Hn;
    [|apply unique_names_intro; assumption].
  destruct (travels_deeper node); [|apply unique_names_intro; assumption].
  cbn [fst]. apply unique_names_intro; cbn [set_children children].
  - rewrite (map_name_insert _ _ node); [exact Hdr|exact Hn|].
    apply construct_tree_name.
  - apply Forall_insert; [exact Hwr|].
    apply construct_tree_unique.
    + intros ents Hents. unfold opendir in Hents. cbn [d_type d_sub] in Hents.
      destruct (Z.eqb ty DT_DIR); [|discriminate].
      injection Hents as <-. exact IH.
    + apply ins_child_In in Hn. rewrite Forall_forall in Hwr. apply Hwr.
      apply list_elem_of_In. exact Hn.
Qed.

End UniqueNames.

Lemma load_modules_unique MOUNTPOINT w :
  unique_names (ld_root (load_modules MOUNTPOINT w)) = true.
Proof.
  unfold load_modules.
  assert (H0 : unique_names (ld_root initial_loader) = true) by reflexivity.
  revert H0. generalize initial_loader as st.
  induction (w_modules w) as [|e es IH]; intros st H0; [exact H0|].
  cbn [fold_left]. apply IH. unfold load_module.
  destruct (Z.eqb _ _); [|auto].
  destruct (merge_skipped _); [auto|].
  destruct (dir_has "remove" _); [auto|].
  destruct (dir_has "disable" _); [auto|].
  destruct (negb (dir_has "auto_mount" _)); [auto|].
  destruct (dir_lookup "system" _) as [sys|]; [|auto].
  pose proof (construct_tree_unique (w_live_access w) (w_live_islnk w)
                (d_name e) [] (opendir sys) (ld_root st) (ld_next st)) as Hl.
  destruct (construct_tree _ _ _ _ _ _ _) as [root next].
  cbn [ld_root fst] in *. apply Hl; [|exact H0].
  intros ents _. apply Forall_forall. intros x _. apply construct_entry_unique.
Qed.

Lemma descends_unique root anc n :
  descends root anc n -> unique_names root = true -> unique_names n = true.
Proof.
  induction 1 as [n|p c anc n Hc Hd IH]; intros Hw; [exact Hw|].
  apply IH. destruct (unique_names_elim p Hw) as [_ Hall].
  rewrite Forall_forall in Hall. apply Hall. apply list_elem_of_In. exact Hc.
Qed.

Lemma insert_dummies_distinct ents :
  forall node next,
    names_distinct (map name (children node)) = true ->
    names_distinct
      (map name (children (fst (insert_dummies ents node next)))) = true.
Proof.
  unfold insert_dummies.
  induction ents as [|e ents IH]; intros node next H; [exact H|].
  cbn [fold_left].
  assert (H1 : names_distinct
                 (map name (children (fst (insert_dummy e (node, next)))))
               = true).
  { unfold insert_dummy. destruct (dot_or_dotdot _); [exact H|]. cbn [fst].
    apply insert_child_distinct. exact H. }
  destruct (insert_dummy e (node, next)) as [node' next']. apply IH. exact H1.
Qed.

(** X11: in the tree the module loop builds, no directory has two
    children of one name, whatever the modules provide: two slots of a
    node that hold the same name are the same slot; and the dummies that
    [clone_skeleton] adds for the mirror entries keep the names of a
    node's children distinct, even if the mirror lists a name twice. *)
Theorem children_names_unique (MOUNTPOINT : string) (w : world) :
  (forall anc n i j a b,
     descends (ld_root (load_modules MOUNTPOINT w)) anc n ->
     children n !! i = Some a -> children n !! j = Some b ->
     name a = name b -> i = j) /\
  (forall ents node next,
     names_distinct (map name (children node)) = true ->
     names_distinct
       (map name (children (fst (insert_dummies ents node next)))) = true).
Proof.
  split; [|intros; apply insert_dummies_distinct; assumption].
  intros anc n i j a b Hd Hi Hj Hab.
  pose proof (descends_unique _ _ _ Hd (load_modules_unique MOUNTPOINT w)) as Hu.
  destruct (unique_names_elim n Hu) as [Hdist _].
  apply names_distinct_NoDup in Hdist.
  eapply NoDup_lookup; [exact Hdist| |].
  - rewrite list_lookup_fmap, Hi. reflexivity.
  - rewrite list_lookup_fmap, Hj. cbn. rewrite Hab. reflexivity.
Qed.

(** ** The built tree *)

Lemma well_marked_status n :
  well_marked n = true ->
  (status n = 0 \/ status n = IS_INTER \/ status n = Z.lor IS_INTER IS_SKEL \/
   status n = IS_MODULE) /\
  (status n = 0 \/ status n = IS_MODULE -> children n = []).
Proof.
  rewrite well_marked_unfold, andb_true_iff. intros [H _].
  apply orb_true_iff in H. destruct H as [H|H].
  - apply inner_status_cases in H. split.
    + destruct H as [H|H]; auto.
    + intros [K|K]; rewrite K in H; destruct H as [H|H]; discriminate H.
  - apply andb_true_iff in H. destruct H as [Hs Hc]. split.
    + apply orb_true_iff in Hs. destruct Hs as [Hs|Hs]; apply Z.eqb_eq in Hs; auto.
    + intros _. destruct (children n); [reflexivity|discriminate Hc].
Qed.

(** X12: in the tree the module loop builds, every node has status 0,
    [INTER], [INTER | SKEL] or [MODULE]; a [MODULE] node (and a node of
    status 0) is a leaf, so the builder never goes below a path a module
    replaces; and no node is a [DUMMY] or the [VENDOR] placeholder before
    the mounters run. *)
Theorem module_nodes_are_leaves (MOUNTPOINT : string) (w : world)
    (anc : list node_entry) (n : node_entry) :
  descends (ld_root (load_modules MOUNTPOINT w)) anc n ->
  (status n = 0 \/ status n = IS_INTER \/ status n = Z.lor IS_INTER IS_SKEL \/
   status n = IS_MODULE) /\
  (status n = IS_MODULE -> children n = []) /\
  (children n <> [] -> Z.land (status n) IS_INTER = IS_INTER) /\
  Z.land (status n) (Z.lor IS_DUMMY IS_VENDOR) = 0.
Proof.
  intros Hd.
  destruct (load_modules_spine MOUNTPOINT w) as [Hw _].
  destruct (descends_well_marked _ _ _ Hd Hw) as [Hn _].
  destruct (well_marked_status n Hn) as [Hs Hleaf].
  split; [exact Hs|]. split; [intros H; apply Hleaf; right; exact H|].
  split.
  - intros Hc.
    destruct Hs as [H|[H|[H|H]]]; rewrite H; try reflexivity;
      exfalso; apply Hc; apply Hleaf; auto.
  - destruct Hs as [H|[H|[H|H]]]; rewrite H; reflexivity.
Qed.

Lemma module_nodes_are_leaves_witness :
  exists etc,
    In etc (children (ld_root (load_modules "/magisk" remount_fails))) /\
    Z.land (status etc) IS_INTER = IS_INTER.
Proof.
  exists (Node 1%nat (Some "modA") "etc" DT_DIR (Z.lor IS_INTER IS_SKEL)
               (Some 0%nat)
               [Node 2%nat (Some "modA") "new" DT_REG IS_MODULE (Some 1%nat) []]).
  split; [vm_compute; left; reflexivity|].
  refine (proj1 (proj2 (proj2
            (module_nodes_are_leaves "/magisk" remount_fails
               [ld_root (load_modules "/magisk" remount_fails)] _ _))) _).
  - eapply descends_child; [|apply descends_here].
    vm_compute. left. reflexivity.
  - discriminate.
Defined.

Lemma descends_nil root n : descends root [] n -> n = root.
Proof. intros H. inversion H. reflexivity. Qed.

Lemma descends_parent root l n :
  descends root l n -> well_linked root = true ->
  forall anc q, l = anc ++ [q] -> parent n = Some (self q).
Proof.
  induction 1 as [n|p c l n Hc Hd IH]; intros Hw anc q Hl.
  - destruct anc; discriminate Hl.
  - apply well_linked_children in Hw. rewrite Forall_forall in Hw.
    destruct (Hw c (proj2 (list_elem_of_In _ _) Hc)) as [Hpc Hwc].
    destruct anc as [|a anc].
    + cbn in Hl. injection Hl as Hp Hl'. subst p l.
      apply descends_nil in Hd. subst n. exact Hpc.
    + cbn in Hl. injection Hl as _ Hl. apply (IH Hwc anc q Hl).
Qed.

(** X13: in the tree the module loop builds, the [parent] pointer of
    every node below the root is the address of the node that owns it,
    the last of its ancestors, and the root has none: the chain
    [get_full_path] walks is the chain of owners. *)
Theorem parent_is_owner (MOUNTPOINT : string) (w : world)
    (anc : list node_entry) (q n : node_entry) :
  descends (ld_root (load_modules MOUNTPOINT w)) (anc ++ [q]) n ->
  parent n = Some (self q) /\
  parent (ld_root (load_modules MOUNTPOINT w)) = None.
Proof.
  intros Hd. destruct (load_modules_linked MOUNTPOINT w) as [Hl _]. split.
  - exact (descends_parent _ _ _ Hd Hl anc q eq_refl).
  - clear Hd Hl. unfold load_modules.
    assert (H0 : parent (ld_root initial_loader) = None) by reflexivity.
    revert H0. generalize initial_loader as st.
    induction (w_modules w) as [|e es IH]; intros st H0; [exact H0|].
    cbn [fold_left]. apply IH. unfold load_module.
    destruct (Z.eqb _ _); [|auto].
    destruct (merge_skipped _); [auto|].
    destruct (dir_has "remove" _); [auto|].
    destruct (dir_has "disable" _); [auto|].
    destruct (negb (dir_has "auto_mount" _)); [auto|].
    destruct (dir_lookup "system" _) as [sys|]; [|auto].
    pose proof (construct_tree_fields (w_live_access w) (w_live_islnk w)
                  (d_name e) [] (opendir sys) (ld_root st) (ld_next st))
      as [_ Hf].
    destruct (construct_tree _ _ _ _ _ _ _) as [root next].
    cbn [ld_root fst] in *. rewrite Hf. exact H0.
Qed.

Lemma parent_is_owner_witness :
  parent (Node 1%nat (Some "modA") "etc" DT_DIR (Z.lor IS_INTER IS_SKEL)
               (Some 0%nat)
               [Node 2%nat (Some "modA") "new" DT_REG IS_MODULE (Some 1%nat) []])
  = Some (self (ld_root (load_modules "/magisk" remount_fails))).
Proof.
  refine (proj1 (parent_is_owner "/magisk" remount_fails []
                   (ld_root (load_modules "/magisk" remount_fails)) _ _)).
  eapply descends_child; [|apply descends_here].
  vm_compute. left. reflexivity.
Defined.

(** ** Later modules *)

Lemma insert_child_slot_keeps p c i e :
  children p !! i = Some e -> status c <= status e ->
  children (ins_parent (insert_child p c)) !! i = Some e.
Proof.
  intros Hi Hle. unfold insert_child. rewrite insert_loop_find.
  set (c' := set_parent c (Some (self p))).
  change (status c') with (status c).
  destruct (find_first (name c') (children p)) as [[j x]|] eqn:Hf.
  - destruct (find_first_name _ _ _ _ Hf) as [Hj _].
    destruct (Z.gtb (status c) (status x)) eqn:Hgt;
      cbn [ins_parent set_children children]; [|exact Hi].
    apply Z.gtb_lt in Hgt. rewrite list_lookup_insert_ne; [exact Hi|].
    intros ->. rewrite Hj in Hi. injection Hi as ->. lia.
  - cbn [ins_parent set_children children].
    rewrite lookup_app_l; [exact Hi|]. apply lookup_lt_Some in Hi. exact Hi.
Qed.

Lemma mark_node_snd_status clone replace parent a m nm ty :
  status (snd (mark_node clone replace parent (Node a m nm ty 0 None [])))
  <= IS_MODULE.
Proof.
  unfold mark_node. destruct clone; [cbn; lia|].
  destruct (IS_DIR _); [destruct replace; cbn; unfold IS_INTER, IS_MODULE; lia|].
  destruct (IS_REG _); cbn; unfold IS_MODULE; lia.
Qed.

Lemma mark_node_fst_children clone replace parent node :
  children (fst (mark_node clone replace parent node)) = children parent.
Proof. rewrite mark_node_fst. destruct clone; reflexivity. Qed.

Section LaterModules.

Variable live_access live_islnk : string -> bool.

Lemma construct_entry_module_child modname chain pp (entry : dirent) p next i e :
  children p !! i = Some e -> status e = IS_MODULE ->
  children (fst (construct_entry live_access live_islnk modname chain pp entry
                                 (p, next))) !! i = Some e.
Proof.
  intros Hi Hs. destruct (dot_or_dotdot (d_name entry)) eqn:Hdot.
  - destruct entry as [nm ty sub]. cbn [d_name] in Hdot.
    cbn [construct_entry d_name]. rewrite Hdot. exact Hi.
  - rewrite construct_entry_step by exact Hdot. cbv zeta.
    set (marked := mark_node _ _ p _).
    set (r := insert_child (fst marked) (snd marked)).
    assert (Hr : children (ins_parent r) !! i = Some e).
    { unfold r. apply insert_child_slot_keeps.
      - unfold marked. rewrite mark_node_fst_children. exact Hi.
      - rewrite Hs. apply mark_node_snd_status. }
    destruct (ins_child r) as [node|] eqn:Hn; [|exact Hr].
    destruct (travels_deeper node) eqn:Ht; [|exact Hr].
    cbn [fst set_children children].
    rewrite list_lookup_insert_ne; [exact Hr|].
    intros Heq. unfold ins_child in Hn. rewrite Heq, Hr in Hn.
    injection Hn as <-. unfold travels_deeper in Ht. rewrite Hs in Ht.
    discriminate Ht.
Qed.

Lemma construct_tree_module_child modname chain dir node next i e :
  children node !! i = Some e -> status e = IS_MODULE ->
  children (fst (construct_tree live_access live_islnk modname chain dir node
                                next)) !! i = Some e.
Proof.
  intros Hi Hs. unfold construct_tree. destruct dir as [ents|]; [|exact Hi].
  generalize (get_full_path chain (name node)) as pp. intros pp.
  revert node next Hi. induction ents as [|x ents IH]; intros node next Hi;
    [exact Hi|].
  cbn [fold_left].
  pose proof (construct_entry_module_child modname chain pp x node next i e
                Hi Hs) as H1.
  destruct (construct_entry _ _ _ _ _ _ _) as [node' next']. apply IH. exact H1.
Qed.

End LaterModules.

Lemma load_module_module_child MOUNTPOINT w (entry : dirent) st i e :
  children (ld_root st) !! i = Some e -> status e = IS_MODULE ->
  children (ld_root (load_module MOUNTPOINT w entry st)) !! i = Some e.
Proof.
  intros Hi Hs. unfold load_module.
  destruct (Z.eqb _ _); [|exact Hi].
  destruct (merge_skipped _); [exact Hi|].
  destruct (dir_has "remove" _); [exact Hi|].
  destruct (dir_has "disable" _); [exact Hi|].
  destruct (negb (dir_has "auto_mount" _)); [exact Hi|].
  destruct (dir_lookup "system" _) as [sys|]; [|exact Hi].
  pose proof (construct_tree_module_child (w_live_access w) (w_live_islnk w)
                (d_name entry) [] (opendir sys) (ld_root st) (ld_next st) i e
                Hi Hs) as H.
  destruct (construct_tree _ _ _ _ _ _ _) as [root next]. exact H.
Qed.

(** X14: a [MODULE] child is never displaced: when [construct_tree]
    works on a directory for any module, every child of that directory
    that is [MODULE] is afterwards in its slot exactly as it was, with
    its module; so a top-level path one module provides as [MODULE] stays
    that module's through all the modules loaded after it. *)
Theorem module_child_stays (MOUNTPOINT : string) (w : world)
    (i : nat) (e : node_entry) :
  status e = IS_MODULE ->
  (forall modname chain dir node next,
     children node !! i = Some e ->
     children (fst (construct_tree (w_live_access w) (w_live_islnk w) modname
                                   chain dir node next)) !! i = Some e) /\
  (forall later st,
     children (ld_root st) !! i = Some e ->
     children (ld_root (fold_left (fun st x => load_module MOUNTPOINT w x st)
                                  later st)) !! i = Some e).
Proof.
  intros Hs. split.
  - intros modname chain dir node next Hi.
    apply construct_tree_module_child; assumption.
  - intros later. induction later as [|x later IH]; intros st Hi; [exact Hi|].
    cbn [fold_left]. apply IH. apply load_module_module_child; assumption.
Qed.

Lemma module_child_stays_witness :
  children
    (fst (construct_tree everything_exists nothing_is_a_link "B" ["/system"]
            (Some [reg "hosts"])
            (Node 1%nat (Some "A") "etc" DT_DIR IS_INTER (Some 0%nat)
                  [Node 2%nat (Some "A") "hosts" DT_REG IS_MODULE
                        (Some 1%nat) []])
            3%nat)) !! 0%nat
  = Some (Node 2%nat (Some "A") "hosts" DT_REG IS_MODULE (Some 1%nat) []).
Proof.
  refine (proj1 (module_child_stays "/magisk" two_hosts_world 0%nat
                   (Node 2%nat (Some "A") "hosts" DT_REG IS_MODULE
                         (Some 1%nat) []) _)
                "B" ["/system"] (Some [reg "hosts"])
                (Node 1%nat (Some "A") "etc" DT_DIR IS_INTER (Some 0%nat)
                      [Node 2%nat (Some "A") "hosts" DT_REG IS_MODULE
                            (Some 1%nat) []])
                3%nat _); reflexivity.
Defined.

Lemma insert_child_slot_grows p c i e :
  children p !! i = Some e ->
  exists e1, children (ins_parent (insert_child p c)) !! i = Some e1 /\
             name e1 = name e /\ status e <= status e1.
Proof.
  intros Hi. unfold insert_child. rewrite insert_loop_find.
  set (c' := set_parent c (Some (self p))).
  destruct (find_first (name c') (children p)) as [[j x]|] eqn:Hf.
  - destruct (find_first_name _ _ _ _ Hf) as [Hj Hn].
    destruct (Z.gtb (status c') (status x)) eqn:Hgt;
      cbn [ins_parent set_children children].
    + apply Z.gtb_lt in Hgt. destruct (Nat.eq_dec j i) as [->|Hne].
      * rewrite Hj in Hi. injection Hi as ->. exists c'.
        split; [apply list_lookup_insert_eq; apply lookup_lt_Some in Hj;
                exact Hj|].
        split; [symmetry; exact Hn|lia].
      * exists e. rewrite list_lookup_insert_ne by exact Hne.
        split; [exact Hi|]. split; [reflexivity|lia].
    + exists e. split; [exact Hi|]. split; [reflexivity|lia].
  - cbn [ins_parent set_children children]. exists e.
    rewrite lookup_app_l by (apply lookup_lt_Some in Hi; exact Hi).
    split; [exact Hi|]. split; [reflexivity|lia].
Qed.

Section StatusGrows.

Variable live_access live_islnk : string -> bool.

Lemma construct_tree_status modname chain dir node next :
  status (fst (construct_tree live_access live_islnk modname chain dir node
                              next)) = status node \/
  status (fst (construct_tree live_access live_islnk modname chain dir node
                              next)) = Z.lor (status node) IS_SKEL.
Proof.
  unfold construct_tree. destruct dir as [ents|]; [|left; reflexivity].
  generalize (get_full_path chain (name node)) as pp. intros pp.
  revert node next. induction ents as [|x ents IH]; intros node next;
    [left; reflexivity|].
  cbn [fold_left].
  pose proof (construct_entry_status live_access live_islnk modname chain pp x
                node next) as H1.
  destruct (construct_entry _ _ _ _ _ _ _) as [node' next']. cbn [fst] in H1.
  destruct (IH node' next') as [H|H]; rewrite H, H1.
  - destruct (dot_or_dotdot _); [left; reflexivity|].
    destruct (clone_decision _ _ _ _ _); [right|left]; reflexivity.
  - destruct (dot_or_dotdot _); [right; reflexivity|].
    destruct (clone_decision _ _ _ _ _); [|right; reflexivity].
    right. rewrite <- Z.lor_assoc, Z.lor_diag. reflexivity.
Qed.

Lemma construct_entry_grows modname chain pp (entry : dirent) p next i e :
  well_marked p = true -> inner_status (status p) = true ->
  children p !! i = Some e ->
  exists e1,
    children (fst (construct_entry live_access live_islnk modname chain pp
                                   entry (p, next))) !! i = Some e1 /\
    name e1 = name e /\ status e <= status e1.
Proof.
  intros Hw Hs Hi. destruct (dot_or_dotdot (d_name entry)) eqn:Hdot.
  - destruct entry as [nm ty sub]. cbn [d_name] in Hdot.
    cbn [construct_entry d_name]. rewrite Hdot. exists e. repeat split.
    + exact Hi.
    + lia.
  - rewrite construct_entry_step by exact Hdot. cbv zeta.
    set (marked := mark_node _ _ p _).
    set (r := insert_child (fst marked) (snd marked)).
    assert (Hi1 : children (fst marked) !! i = Some e).
    { unfold marked. rewrite mark_node_fst_children. exact Hi. }
    destruct (insert_child_slot_grows (fst marked) (snd marked) i e Hi1)
      as (e1 & He1 & Hn1 & Hs1).
    fold r in He1.
    assert (Hwr : Forall (fun c => well_marked c = true)
                         (children (ins_parent r))).
    { unfold r. apply insert_child_forall.
      - unfold marked. rewrite mark_node_fst_children.
        apply well_marked_children. exact Hw.
      - unfold marked. apply mark_node_fresh. }
    destruct (ins_child r) as [node|] eqn:Hn;
      [|exists e1; repeat split; assumption].
    destruct (travels_deeper node) eqn:Ht;
      [|exists e1; repeat split; assumption].
    cbn [fst set_children children].
    destruct (Nat.eq_dec (ins_slot r) i) as [Heq|Hne].
    + unfold ins_child in Hn. rewrite Heq, He1 in Hn. injection Hn as <-.
      eexists. rewrite Heq.
      split; [apply list_lookup_insert_eq; apply lookup_lt_Some in He1;
              exact He1|].
      split; [rewrite construct_tree_name; exact Hn1|].
      assert (Hin : inner_status (status e1) = true).
      { apply well_marked_deeper; [|exact Ht].
        rewrite Forall_forall in Hwr. apply Hwr.
        apply list_elem_of_lookup. exists i. exact He1. }
      apply inner_status_cases in Hin.
      match goal with
      | |- _ <= status (fst (construct_tree ?a ?b ?c ?d ?f ?g ?h)) =>
          destruct (construct_tree_status c d f g h) as [K|K]; rewrite K
      end.
      * exact Hs1.
      * destruct Hin as [Hin|Hin]; rewrite Hin in Hs1 |- *; revert Hs1;
          unfold IS_INTER, IS_SKEL; change (Z.lor 2 4) with 6;
          try change (Z.lor 6 4) with 6; lia.
    + exists e1. rewrite list_lookup_insert_ne by exact Hne.
      repeat split; assumption.
Qed.

Lemma construct_tree_grows modname chain dir node next i e :
  well_marked node = true -> inner_status (status node) = true ->
  children node !! i = Some e ->
  exists e1,
    children (fst (construct_tree live_access live_islnk modname chain dir
                                  node next)) !! i = Some e1 /\
    name e1 = name e /\ status e <= status e1.
Proof.
  unfold construct_tree. destruct dir as [ents|].
  2:{ intros _ _ Hi. exists e. repeat split; [exact Hi|lia]. }
  generalize (get_full_path chain (name node)) as pp. intros pp.
  revert node next e.
  induction ents as [|x ents IH]; intros node next e Hw Hs Hi.
  { exists e. repeat split; [exact Hi|lia]. }
  cbn [fold_left].
  destruct (construct_entry_grows modname chain pp x node next i e Hw Hs Hi)
    as (e1 & He1 & Hn1 & Hs1).
  pose proof (construct_entry_spine live_access live_islnk x modname chain pp
                node next Hw Hs) as Hw1.
  pose proof (construct_entry_status live_access live_islnk modname chain pp x
                node next) as Hst.
  destruct (construct_entry _ _ _ _ _ _ _) as [node' next']. cbn [fst] in *.
  assert (Hs' : inner_status (status node') = true).
  { rewrite Hst. destruct (dot_or_dotdot _); [exact Hs|].
    destruct (clone_decision _ _ _ _ _); [apply inner_status_skel|]; exact Hs. }
  destruct (IH node' next' e1 Hw1 Hs' He1) as (e2 & He2 & Hn2 & Hs2).
  exists e2. split; [exact He2|]. split; [congruence|lia].
Qed.

End StatusGrows.

(** X15: a module loaded later never takes a path away nor lowers its
    status: through the rest of the module loop, every slot among the
    children of the root keeps a node of the same name whose status is at
    least what it was; and the same holds for the children of any
    directory with status [INTER] or [INTER | SKEL] that [construct_tree]
    works on. *)
Theorem later_modules_only_raise (MOUNTPOINT : string) (w : world)
    (i : nat) (e : node_entry) :
  (forall later st,
     well_marked (ld_root st) = true ->
     inner_status (status (ld_root st)) = true ->
     children (ld_root st) !! i = Some e ->
     exists e1,
       children (ld_root (fold_left (fun st x => load_module MOUNTPOINT w x st)
                                    later st)) !! i = Some e1 /\
       name e1 = name e /\ status e <= status e1) /\
  (forall modname chain dir node next,
     well_marked node = true -> inner_status (status node) = true ->
     children node !! i = Some e ->
     exists e1,
       children (fst (construct_tree (w_live_access w) (w_live_islnk w)
                                     modname chain dir node next)) !! i
       = Some e1 /\
       name e1 = name e /\ status e <= status e1).
Proof.
  split; [|intros; apply construct_tree_grows; assumption].
  intros later. revert e.
  induction later as [|x later IH]; intros e st Hw Hs Hi.
  { exists e. repeat split; [exact Hi|lia]. }
  cbn [fold_left].
  destruct (load_module_spine MOUNTPOINT w x st (conj Hw Hs)) as [Hw1 Hs1].
  assert (H1 : exists e1,
             children (ld_root (load_module MOUNTPOINT w x st)) !! i = Some e1 /\
             name e1 = name e /\ status e <= status e1).
  { unfold load_module.
    assert (Hsame : exists e1, children (ld_root st) !! i = Some e1 /\
                               name e1 = name e /\ status e <= status e1)
      by (exists e; repeat split; [exact Hi|lia]).
    destruct (Z.eqb _ _); [|exact Hsame].
    destruct (merge_skipped _); [exact Hsame|].
    destruct (dir_has "remove" _); [exact Hsame|].
    destruct (dir_has "disable" _); [exact Hsame|].
    destruct (negb (dir_has "auto_mount" _)); [exact Hsame|].
    destruct (dir_lookup "system" _) as [sys|]; [|exact Hsame].
    pose proof (construct_tree_grows (w_live_access w) (w_live_islnk w)
                  (d_name x) [] (opendir sys) (ld_root st) (ld_next st) i e
                  Hw Hs Hi) as H.
    destruct (construct_tree _ _ _ _ _ _ _) as [root next]. exact H. }
  destruct H1 as (e1 & He1 & Hn1 & Hle1).
  destruct (IH e1 (load_module MOUNTPOINT w x st) Hw1 Hs1 He1)
    as (e2 & He2 & Hn2 & Hle2).
  exists e2. split; [exact He2|]. split; [congruence|lia].
Qed.

Lemma later_modules_only_raise_witness :
  exists e1,
    children
      (ld_root
         (fold_left (fun st x => load_module "/magisk" two_hosts_world x st)
                    [new_file_module]
                    (Loader [] true
                            (Node 0%nat None "/system" 0 IS_INTER None
                                  [Node 1%nat (Some "A") "etc" DT_DIR IS_INTER
                                        (Some 0%nat) []])
                            2%nat []))) !! 0%nat = Some e1 /\
    name e1 = "etc" /\ IS_INTER <= status e1.
Proof.
  apply (proj1 (later_modules_only_raise "/magisk" two_hosts_world 0%nat
                  (Node 1%nat (Some "A") "etc" DT_DIR IS_INTER (Some 0%nat) []))
               [new_file_module]
               (Loader [] true
                       (Node 0%nat None "/system" 0 IS_INTER None
                             [Node 1%nat (Some "A") "etc" DT_DIR IS_INTER
                                   (Some 0%nat) []])
                       2%nat []));
    reflexivity.
Defined.

(** ** Module loop *)

Lemma dir_lookup_has nm es :
  dir_has nm es = match dir_lookup nm es with Some _ => true | None => false end.
Proof.
  unfold dir_has, dir_lookup. induction es as [|e es IH]; [reflexivity|].
  cbn [existsb List.find]. destruct (String.eqb (d_name e) nm); [reflexivity|].
  exact IH.
Qed.

Lemma load_module_list MOUNTPOINT w (e : dirent) st :
  ld_list (load_module MOUNTPOINT w e st)
  = ld_list st ++ (if module_active e then [d_name e] else []).
Proof.
  unfold load_module, module_active, module_dir.
  destruct (Z.eqb _ _); cbn [andb]; [|rewrite app_nil_r; reflexivity].
  destruct (merge_skipped _); cbn [andb negb]; [rewrite app_nil_r; reflexivity|].
  destruct (dir_has "remove" _); cbn [andb negb];
    [rewrite app_nil_r; reflexivity|].
  destruct (dir_has "disable" _); cbn [andb negb];
    [rewrite app_nil_r; reflexivity|].
  destruct (negb (dir_has "auto_mount" _)); [reflexivity|].
  destruct (dir_lookup "system" _) as [sys|]; [|reflexivity].
  destruct (construct_tree _ _ _ _ _ _ _). reflexivity.
Qed.

Lemma load_module_rmrf MOUNTPOINT w (e : dirent) st path :
  In (ERmRf path) (ld_trace (load_module MOUNTPOINT w e st)) <->
  In (ERmRf path) (ld_trace st) \/
  (module_removed e = true /\ path = MOUNTPOINT +:+ "/" +:+ d_name e).
Proof.
  unfold load_module, module_removed, module_dir.
  assert (Hno : forall b, false && b = true <-> False)
    by (intros b; split; [discriminate|intros []]).
  destruct (Z.eqb _ _); cbn [andb].
  2:{ split; [auto|intros [H|[H _]]; [exact H|discriminate H]]. }
  destruct (merge_skipped _); cbn [andb negb].
  { split; [auto|intros [H|[H _]]; [exact H|discriminate H]]. }
  destruct (dir_has "remove" _); cbn [ld_trace].
  { rewrite in_app_iff. split.
    - intros [H|[H|[]]]; [left; exact H|]. injection H as <-. right. auto.
    - intros [H|[_ ->]]; [left; exact H|]. right. left. reflexivity. }
  assert (Hskip : forall tr more,
             (forall p, ~ In (ERmRf p) more) ->
             In (ERmRf path) (tr ++ more) <->
             In (ERmRf path) tr \/
             (false = true /\ path = MOUNTPOINT +:+ "/" +:+ d_name e)).
  { intros tr more Hm. rewrite in_app_iff. split.
    - intros [H|H]; [left; exact H|]. exfalso. apply (Hm path H).
    - intros [H|[H _]]; [left; exact H|discriminate H]. }
  destruct (dir_has "disable" _).
  { split; [auto|intros [H|[H _]]; [exact H|discriminate H]]. }
  assert (Hprop : forall p,
             ~ In (ERmRf p)
                  (if dir_has "system.prop" (d_sub e)
                   then [EReadPropFile ((MOUNTPOINT +:+ "/" +:+ d_name e)
                                          +:+ "/system.prop")]
                   else [])).
  { intros p. destruct (dir_has "system.prop" _); [|intros []].
    intros [H|[]]. discriminate H. }
  destruct (negb (dir_has "auto_mount" _)); cbn [ld_trace];
    [apply Hskip; exact Hprop|].
  destruct (dir_lookup "system" _) as [sys|]; cbn [ld_trace];
    [|apply Hskip; exact Hprop].
  destruct (construct_tree _ _ _ _ _ _ _) as [root next]. cbn [ld_trace].
  rewrite <- app_assoc. apply Hskip.
  intros q H. apply in_app_or in H. destruct H as [H|H]; [exact (Hprop q H)|].
  destruct (dir_has "vendor" _); [|destruct H].
  repeat (destruct H as [H|H]; [discriminate H|]). exact H.
Qed.

Lemma load_module_has_modules MOUNTPOINT w (e : dirent) st :
  ld_has_modules (load_module MOUNTPOINT w e st)
  = ld_has_modules st || module_overlays e.
Proof.
  unfold load_module, module_overlays, module_active, module_dir.
  rewrite (dir_lookup_has "system").
  destruct (Z.eqb _ _); cbn [andb]; [|rewrite orb_false_r; reflexivity].
  destruct (merge_skipped _); cbn [andb negb];
    [rewrite orb_false_r; reflexivity|].
  destruct (dir_has "remove" _); cbn [andb negb];
    [rewrite orb_false_r; reflexivity|].
  destruct (dir_has "disable" _); cbn [andb negb];
    [rewrite orb_false_r; reflexivity|].
  destruct (dir_has "auto_mount" _); cbn [andb negb];
    [|rewrite orb_false_r; reflexivity].
  destruct (dir_lookup "system" _) as [sys|];
    [|rewrite orb_false_r; reflexivity].
  destruct (construct_tree _ _ _ _ _ _ _). cbn [ld_has_modules].
  rewrite orb_true_r. reflexivity.
Qed.

(** X16: the module list the loop leaves is exactly the names of the
    module directories of MOUNTPOINT that carry neither [remove] nor
    [disable], in directory order; and the loop deletes exactly the
    module directories that carry [remove], so a disabled module is
    neither listed nor removed. *)
Theorem module_list_is_active (MOUNTPOINT : string) (w : world) :
  ld_list (load_modules MOUNTPOINT w)
  = map d_name (List.filter module_active (w_modules w)) /\
  (forall path,
     In (ERmRf path) (ld_trace (load_modules MOUNTPOINT w)) <->
     exists e, In e (w_modules w) /\ module_removed e = true /\
               path = MOUNTPOINT +:+ "/" +:+ d_name e).
Proof.
  unfold load_modules. split.
  - assert (H : forall es st,
               ld_list (fold_left (fun st e => load_module MOUNTPOINT w e st)
                                  es st)
               = ld_list st ++ map d_name (List.filter module_active es)).
    { induction es as [|e es IH]; intros st; cbn [fold_left List.filter map].
      - rewrite app_nil_r. reflexivity.
      - rewrite IH, load_module_list, <- app_assoc.
        destruct (module_active e); reflexivity. }
    rewrite H. reflexivity.
  - intros path.
    assert (H : forall es st,
               In (ERmRf path)
                  (ld_trace (fold_left (fun st e => load_module MOUNTPOINT w e st)
                                       es st)) <->
               In (ERmRf path) (ld_trace st) \/
               exists e, In e es /\ module_removed e = true /\
                         path = MOUNTPOINT +:+ "/" +:+ d_name e).
    { induction es as [|e es IH]; intros st; cbn [fold_left].
      - split; [auto|intros [K|(e & [] & _)]; exact K].
      - rewrite IH, load_module_rmrf. split.
        + intros [[H|[Hr Hp]]|(x & Hx & Hr & Hp)].
          * left. exact H.
          * right. exists e. split; [left; reflexivity|]. split; assumption.
          * right. exists x. split; [right; exact Hx|]. split; assumption.
        + intros [H|(x & [<-|Hx] & Hr & Hp)].
          * left. left. exact H.
          * left. right. split; assumption.
          * right. exists x. split; [exact Hx|]. split; assumption. }
    rewrite H. cbn [initial_loader ld_trace]. split.
    + intros [[]|K]. exact K.
    + intros K. right. exact K.
Qed.

(** ** Stage orchestrator: the ways out *)






Lemma merge_img_quiet env source target :
  forallb quiet_event (fst (merge_img env source target)) = true.
Proof.
  unfold merge_img.
  destruct (negb (src_exists env)); [reflexivity|].
  destruct (negb (dst_exists env)); [reflexivity|].
  assert (Hpre : forallb quiet_event
                   ((if negb (Z.eqb (round_size (s_used env + t_used env))
                                    (t_total env))
                     then [EResizeImg target
                                      (round_size (s_used env + t_used env))]
                     else [])
                    ++ [EMkdir SOURCE_TMP; EMkdir TARGET_TMP;
                        EMountImage source SOURCE_TMP]) = true).
  { rewrite forallb_app. destruct (negb _); reflexivity. }
  cbv zeta. destruct (s_loop env); cbn [fst]; [|exact Hpre].
  destruct (t_loop env); cbn [fst];
    [|rewrite forallb_app, Hpre; reflexivity].
  destruct (src_dir env) as [ents|]; cbn [fst];
    [|rewrite forallb_app, Hpre; reflexivity].
  rewrite forallb_app in Hpre. rewrite !forallb_app, Hpre.
  cbn [andb forallb quiet_event].
  rewrite andb_true_r. apply forallb_forall. intros ev Hev.
  apply in_flat_map in Hev. destruct Hev as (e & _ & Hev).
  revert Hev. unfold merge_entry.
  destruct (Z.eqb (d_type e) DT_DIR); [|contradiction].
  destruct (merge_skipped (d_name e)); [contradiction|].
  destruct (in_target env _); [|contradiction].
  intros [<-|[]]. reflexivity.
Qed.

Lemma stops_quietly_unblock : stops_quietly (unblock_boot_process, []).
Proof. split; [reflexivity|]. exists []. split; reflexivity. Qed.

Lemma stops_quietly_and_then evs rest :
  forallb quiet_event evs = true -> stops_quietly rest ->
  stops_quietly (and_then evs rest).
Proof.
  intros Hq (Hl & b & Hb & Hqb). split; [exact Hl|].
  exists (evs ++ b). cbn [and_then fst]. rewrite Hb, app_assoc.
  split; [reflexivity|]. rewrite forallb_app, Hq, Hqb. reflexivity.
Qed.

(** X18: when data is not ready, or a merge fails, or a missing image
    cannot be created, or the first mount of the image fails,
    [post_fs_data] gives up at once: it leaves no module list and ends by
    unblocking the boot, and nothing before that is a bind mount, the
    mount of a partition, a script, or the reading of a property file. *)
Theorem post_fs_data_gives_up
    (MOUNTPOINT COREDIR MIRRDIR DUMMDIR MAINIMG DATABIN UNINSTALLER HOSTSFILE
     : string) (w : world) :
  w_check_data w = false \/
  (w_uninstaller w = false /\
   (snd (merge_img (w_merge_cache w) "/cache/magisk.img" MAINIMG) <> 0 \/
    snd (merge_img (w_merge_data w) "/data/magisk_merge.img" MAINIMG) <> 0 \/
    (w_mainimg w = false /\ w_create_img w <> 0) \/
    w_mount_first w = None)) ->
  stops_quietly
    (post_fs_data MOUNTPOINT COREDIR MIRRDIR DUMMDIR MAINIMG DATABIN
                  UNINSTALLER HOSTSFILE w).
Proof.
  intros Hwhy. unfold post_fs_data. cbv zeta.
  apply stops_quietly_and_then; [destruct (w_latelogmon w); reflexivity|].
  destruct (w_check_data w); cbn [negb]; [|apply stops_quietly_unblock].
  destruct Hwhy as [H|[Hu Hwhy]]; [discriminate H|]. rewrite Hu.
  apply stops_quietly_and_then.
  { destruct (w_cache_data_bin w); destruct (w_magisk_inject w); reflexivity. }
  apply stops_quietly_and_then; [apply merge_img_quiet|].
  destruct (Z.eqb_spec
              (snd (merge_img (w_merge_cache w) "/cache/magisk.img" MAINIMG)) 0)
    as [H1|H1]; cbn [negb]; [|apply stops_quietly_unblock].
  apply stops_quietly_and_then; [apply merge_img_quiet|].
  destruct (Z.eqb_spec
              (snd (merge_img (w_merge_data w) "/data/magisk_merge.img"
                              MAINIMG)) 0)
    as [H2|H2]; cbn [negb]; [|apply stops_quietly_unblock].
  apply stops_quietly_and_then; [destruct (negb (w_mainimg w)); reflexivity|].
  destruct (w_mainimg w) eqn:Himg; cbn [negb andb].
  - apply stops_quietly_and_then; [reflexivity|].
    destruct (w_mount_first w); [|apply stops_quietly_unblock].
    exfalso. destruct Hwhy as [H|[H|[[H _]|H]]];
      [apply H; exact H1|apply H; exact H2|discriminate H|discriminate H].
  - destruct (Z.eqb_spec (w_create_img w) 0) as [Hc|Hc]; cbn [negb];
      [|apply stops_quietly_unblock].
    apply stops_quietly_and_then; [reflexivity|].
    destruct (w_mount_first w); [|apply stops_quietly_unblock].
    exfalso. destruct Hwhy as [H|[H|[[_ H]|H]]];
      [apply H; exact H1|apply H; exact H2|apply H; exact Hc|discriminate H].
Qed.

Lemma post_fs_data_gives_up_witness :
  stops_quietly
    (post_fs_data "/magisk" "/magisk/.core" "/dev/magisk/mirror"
                  "/dev/magisk/dummy" "/data/magisk.img" "/data/magisk"
                  "/cache/magisk_uninstaller.sh" "/magisk/.core/hosts"
                  first_mount_fails).
Proof.
  apply (post_fs_data_gives_up "/magisk" "/magisk/.core" "/dev/magisk/mirror"
           "/dev/magisk/dummy" "/data/magisk.img" "/data/magisk"
           "/cache/magisk_uninstaller.sh" "/magisk/.core/hosts"
           first_mount_fails).
  right. split; [reflexivity|]. right. right. right. reflexivity.
Defined.

Section OrchestratorPaths.

Variable MOUNTPOINT COREDIR MIRRDIR DUMMDIR MAINIMG DATABIN UNINSTALLER HOSTSFILE
  : string.

(** X19: in core-only mode (the disable file exists), once the image is
    mounted and the common scripts have run, [post_fs_data] loads no
    module, does not trim or remount the image and mounts no overlay: it
    goes straight to the systemless hosts file, the hide thread and the
    unblocking, and leaves no module list. *)
Theorem post_fs_data_core_only (w : world) (loop : string) :
  reaches_mount MAINIMG w -> w_mount_first w = Some loop ->
  w_disablefile w = true ->
  post_fs_data MOUNTPOINT COREDIR MIRRDIR DUMMDIR MAINIMG DATABIN UNINSTALLER
               HOSTSFILE w
  = (up_to_mount MOUNTPOINT MAINIMG DATABIN w
     ++ image_setup COREDIR w
     ++ (if w_hostsfile w then [EBindMount HOSTSFILE "/system/etc/hosts"]
         else [])
     ++ (match w_hide_prop w with Some "0" => [] | _ => [ELaunchHide] end)
     ++ unblock_boot_process,
     []).
Proof.
  intros (Hc & Hu & Hm1 & Hm2 & Himg) Hmount Hdis.
  assert (Hgo : negb (w_mainimg w) && negb (Z.eqb (w_create_img w) 0) = false).
  { destruct Himg as [-> | ->]; [reflexivity|]. apply andb_false_r. }
  unfold post_fs_data, up_to_mount, image_setup, core_only. cbv zeta.
  rewrite Hc, Hu, Hm1, Hm2, Hgo, Hmount, Hdis.
  unfold and_then. cbn [negb Z.eqb fst snd]. rewrite <- !app_assoc.
  reflexivity.
Qed.

(** X20: when no module that is loaded has both [auto_mount] and
    [system], the tree stays the bare root and [post_fs_data] mounts no
    mirror and no overlay: after the remount it goes on to the module
    scripts. *)
Theorem post_fs_data_without_overlay (w : world) (loop : string) :
  reaches_mount MAINIMG w -> w_mount_first w = Some loop ->
  w_disablefile w = false ->
  existsb module_overlays (w_modules w) = false ->
  ld_root (load_modules MOUNTPOINT w) = fresh_sys_root /\
  post_fs_data MOUNTPOINT COREDIR MIRRDIR DUMMDIR MAINIMG DATABIN UNINSTALLER
               HOSTSFILE w
  = (up_to_mount MOUNTPOINT MAINIMG DATABIN w
     ++ image_setup COREDIR w
     ++ ld_trace (load_modules MOUNTPOINT w)
     ++ [EUmountImage MOUNTPOINT loop]
     ++ trim_img (w_used w) (w_total w) MAINIMG
     ++ [EMountImage MAINIMG MOUNTPOINT]
     ++ exec_module_script MOUNTPOINT (w_script w)
          (ld_list (load_modules MOUNTPOINT w)) "post-fs-data"
     ++ core_only HOSTSFILE w,
     ld_list (load_modules MOUNTPOINT w)).
Proof.
  intros Hreach Hmount Hdis Hnone.
  assert (Hhas : ld_has_modules (load_modules MOUNTPOINT w) = false).
  { unfold load_modules.
    assert (H : forall es st,
               ld_has_modules
                 (fold_left (fun st e => load_module MOUNTPOINT w e st) es st)
               = ld_has_modules st || existsb module_overlays es).
    { induction es as [|e es IH]; intros st; cbn [fold_left existsb].
      - rewrite orb_false_r. reflexivity.
      - rewrite IH, load_module_has_modules, orb_assoc. reflexivity. }
    rewrite H, Hnone. reflexivity. }
  split; [apply load_modules_children; exact Hhas|].
  rewrite (post_fs_data_loaded MOUNTPOINT COREDIR MIRRDIR DUMMDIR MAINIMG
             DATABIN UNINSTALLER HOSTSFILE w loop Hreach Hmount Hdis).
  rewrite Hhas. reflexivity.
Qed.

End OrchestratorPaths.

Lemma post_fs_data_core_only_witness :
  post_fs_data "/magisk" "/magisk/.core" "/dev/magisk/mirror"
               "/dev/magisk/dummy" "/data/magisk.img" "/data/magisk"
               "/cache/magisk_uninstaller.sh" "/magisk/.core/hosts"
               core_only_world
  = ([EAck; ESystem "mv /data/magisk/stock_boot* /data;";
      EMountImage "/data/magisk.img" "/magisk";
      EBindMount "/magisk/.core/hosts" "/system/etc/hosts";
      ECreateUnblock; EThreadExit], []).
Proof.
  apply (post_fs_data_core_only "/magisk" "/magisk/.core" "/dev/magisk/mirror"
           "/dev/magisk/dummy" "/data/magisk.img" "/data/magisk"
           "/cache/magisk_uninstaller.sh" "/magisk/.core/hosts"
           core_only_world "/dev/block/loop0").
  - repeat split; try reflexivity. left. reflexivity.
  - reflexivity.
  - reflexivity.
Defined.

Lemma post_fs_data_without_overlay_witness :
  ld_root (load_modules "/magisk" scripts_only_world) = fresh_sys_root.
Proof.
  refine (proj1 (post_fs_data_without_overlay "/magisk" "/magisk/.core"
                   "/dev/magisk/mirror" "/dev/magisk/dummy" "/data/magisk.img"
                   "/data/magisk" "/cache/magisk_uninstaller.sh"
                   "/magisk/.core/hosts" scripts_only_world "/dev/block/loop0"
                   _ _ _ _)).
  - repeat split; try reflexivity. left. reflexivity.
  - reflexivity.
  - reflexivity.
  - reflexivity.
Defined.

(** ** The post-fs stage *)

Section PostFsProperties.

Variable CACHEMOUNT : string.
Variable live_access : string -> bool.

Lemma simple_mount_entry_below src tgt (e : dirent) :
  forall path,
    In (EBindMount src tgt) (simple_mount_entry CACHEMOUNT live_access path e) ->
    src = CACHEMOUNT +:+ tgt /\ live_access tgt = true /\
    exists rest, tgt = path +:+ "/" +:+ rest.
Proof.
  induction e as [nm ty sub IH] using dirent_ind. intros path.
  rewrite simple_mount_entry_unfold. cbn [d_name d_type d_sub].
  destruct (dot_or_dotdot nm); [contradiction|].
  destruct (live_access (path +:+ "/" +:+ nm)) eqn:Hlive; cbn [negb];
    [|contradiction].
  destruct (Z.eqb ty DT_DIR).
  { rewrite in_flat_map. intros (x & Hx & Hin).
    rewrite Forall_forall in IH.
    destruct (IH x (proj2 (list_elem_of_In _ _) Hx) _ Hin)
      as (Hs & Hl & rest & Hr).
    split; [exact Hs|]. split; [exact Hl|].
    exists (nm +:+ "/" +:+ rest). rewrite Hr, !append_assoc. reflexivity. }
  destruct (Z.eqb ty DT_REG); [|contradiction].
  unfold mount_pair. intros [H|[H|[]]]; [discriminate H|].
  injection H as Hs Ht. subst src tgt.
  split; [reflexivity|]. split; [exact Hlive|]. exists nm. reflexivity.
Qed.

Lemma simple_mount_below src tgt path dir :
  In (EBindMount src tgt) (simple_mount CACHEMOUNT live_access path dir) ->
  dir <> None /\ src = CACHEMOUNT +:+ tgt /\ live_access tgt = true /\
  exists rest, tgt = path +:+ "/" +:+ rest.
Proof.
  destruct dir as [ents|]; cbn [simple_mount]; [|contradiction].
  rewrite in_flat_map. intros (e & _ & Hin).
  split; [discriminate|]. eapply simple_mount_entry_below. exact Hin.
Qed.

(** X21: whatever [post_fs] bind-mounts lies below [/system] or
    [/vendor], is mounted from the same path under CACHEMOUNT, and exists
    on the live system; and it mounts nothing when the uninstaller or the
    disable file is there, or when nothing is staged. *)
Theorem post_fs_mounts_in_place (uninstaller disablefile : bool)
    (staged_system staged_vendor : option (list dirent)) (src tgt : string) :
  In (EBindMount src tgt)
     (post_fs CACHEMOUNT live_access uninstaller disablefile
              staged_system staged_vendor) ->
  uninstaller = false /\ disablefile = false /\
  src = CACHEMOUNT +:+ tgt /\ live_access tgt = true /\
  ((staged_system <> None /\ exists rest, tgt = "/system" +:+ "/" +:+ rest) \/
   (staged_vendor <> None /\ exists rest, tgt = "/vendor" +:+ "/" +:+ rest)).
Proof.
  unfold post_fs, unblock_boot_process. rewrite !in_app_iff.
  intros [[H|[H|[]]]|[Hin|[H|[H|[]]]]]; try discriminate H.
  destruct uninstaller; [contradiction|].
  destruct disablefile; [contradiction|]. cbn [orb] in Hin.
  split; [reflexivity|]. split; [reflexivity|].
  apply in_app_iff in Hin.
  destruct Hin as [Hin|Hin]; apply simple_mount_below in Hin;
    destruct Hin as (Hd & Hs & Hl & Hr);
    (split; [exact Hs|]); (split; [exact Hl|]);
    [left|right]; split; assumption.
Qed.

End PostFsProperties.

Lemma post_fs_mounts_in_place_witness :
  false = false /\ false = false /\
  "/cache/magisk_mount/system/etc/hosts"
  = "/cache/magisk_mount" +:+ "/system/etc/hosts" /\
  everything_exists "/system/etc/hosts" = true /\
  ((Some hosts_module <> None /\
    exists rest, "/system/etc/hosts" = "/system" +:+ "/" +:+ rest) \/
   (@None (list dirent) <> None /\
    exists rest, "/system/etc/hosts" = "/vendor" +:+ "/" +:+ rest)).
Proof.
  apply (post_fs_mounts_in_place "/cache/magisk_mount" everything_exists
           false false (Some hosts_module) None
           "/cache/magisk_mount/system/etc/hosts" "/system/etc/hosts").
  vm_compute. right. right. right. left. reflexivity.
Defined.

(** ** Mirrors *)




(** ** Mounters: where the bind mounts go *)

Lemma under_refl a : under a a.
Proof. left. reflexivity. Qed.

Lemma under_child a nm : under a (a +:+ "/" +:+ nm).
Proof. right. exists nm. reflexivity. Qed.

Lemma under_trans a b c : under a b -> under b c -> under a c.
Proof.
  intros [->|(r1 & ->)] [->|(r2 & ->)].
  - apply under_refl.
  - apply under_child.
  - apply under_child.
  - right. exists (r1 +:+ "/" +:+ r2). rewrite !append_assoc. reflexivity.
Qed.

Lemma mounts_below_nil path : mounts_below path [].
Proof. intros src tgt []. Qed.

Lemma mounts_below_app path a b :
  mounts_below path a -> mounts_below path b -> mounts_below path (a ++ b).
Proof.
  intros Ha Hb src tgt Hin. apply in_app_iff in Hin.
  destruct Hin as [Hin|Hin]; [exact (Ha _ _ Hin)|exact (Hb _ _ Hin)].
Qed.

Lemma mounts_below_up a b evs :
  under a b -> mounts_below b evs -> mounts_below a evs.
Proof.
  intros Hab Hb src tgt Hin. eapply under_trans; [exact Hab|].
  exact (Hb _ _ Hin).
Qed.

Lemma for_each_child_below path body cs :
  (forall c st r, In c cs -> body c st = Some r ->
     exists evs, ms_trace (snd r) = ms_trace st ++ evs /\
                 mounts_below path evs) ->
  forall st r, for_each_child body cs st = Some r ->
    exists evs, ms_trace (snd r) = ms_trace st ++ evs /\ mounts_below path evs.
Proof.
  induction cs as [|c cs IH]; intros Hbody st r; cbn [for_each_child].
  - intros H. injection H as <-. exists []. rewrite app_nil_r.
    split; [reflexivity|apply mounts_below_nil].
  - destruct (body c st) as [[c' st']|] eqn:Hc; [|discriminate].
    destruct (for_each_child body cs st') as [[cs' st'']|] eqn:Hcs;
      [|discriminate].
    intros H. injection H as <-. cbn [snd].
    destruct (Hbody c st (c', st') (or_introl eq_refl) Hc) as (e1 & He1 & Hb1).
    destruct (IH (fun c0 st0 r0 Hin => Hbody c0 st0 r0 (or_intror Hin)) st'
                 (cs', st'') Hcs) as (e2 & He2 & Hb2).
    cbn [snd] in *. exists (e1 ++ e2). rewrite He2, He1, app_assoc.
    split; [reflexivity|]. apply mounts_below_app; assumption.
Qed.

Section MounterTargets.

Variable MOUNTPOINT MIRRDIR DUMMDIR : string.
Variable mirror : string -> option (list dirent).

Lemma clone_child_below recurse full_path child st r :
  (forall st r, recurse child st = Some r ->
     exists evs, ms_trace (snd r) = ms_trace st ++ evs /\
                 mounts_below (full_path +:+ "/" +:+ name child) evs) ->
  clone_child MOUNTPOINT MIRRDIR DUMMDIR recurse full_path child st = Some r ->
  exists evs, ms_trace (snd r) = ms_trace st ++ evs /\
              mounts_below full_path evs.
Proof.
  intros Hrec. unfold clone_child.
  set (ev1 := if IS_DIR child then _ else _).
  assert (Hev1 : mounts_below full_path ev1).
  { subst ev1. intros src tgt.
    destruct (IS_DIR child); [|destruct (IS_REG child)];
      cbn [In]; intros H; try contradiction;
      destruct H as [H|[]]; discriminate H. }
  assert (Hfin : forall b2 r,
             (if IS_LNK child
              then Some (child, emit (set_buf2 (emit st ev1) b2)
                                     [ECpAfc b2 (DUMMDIR +:+ full_path +:+ "/"
                                                   +:+ name child)])
              else Some (child, emit (set_buf2 (emit st ev1) b2)
                                     [EBindMount b2 (full_path +:+ "/"
                                                       +:+ name child)]))
             = Some r ->
             exists evs, ms_trace (snd r) = ms_trace st ++ evs /\
                         mounts_below full_path evs).
  { intros b2 r0. destruct (IS_LNK child); intros H; injection H as <-;
      cbn [snd emit set_buf2 ms_trace]; rewrite <- app_assoc;
      eexists; (split; [reflexivity|]); apply mounts_below_app;
      try exact Hev1; intros src tgt [H|[]]; [discriminate H|].
    injection H as _ <-. apply under_child. }
  destruct (has_flag child IS_VENDOR).
  { intros H. injection H as <-. cbn [snd emit ms_trace].
    rewrite <- app_assoc. eexists. split; [reflexivity|].
    apply mounts_below_app; [exact Hev1|]. intros src tgt.
    destruct (IS_LNK child); cbn [In]; intros H; try contradiction.
    destruct H as [H|[]]. discriminate H. }
  destruct (has_flag child IS_MODULE); [apply Hfin|].
  destruct (has_flag child (Z.lor IS_SKEL IS_INTER)).
  { intros H. destruct (Hrec _ _ H) as (evs & Hevs & Hb).
    exists (ev1 ++ evs). rewrite Hevs. cbn [emit ms_trace].
    rewrite app_assoc. split; [reflexivity|].
    apply mounts_below_app; [exact Hev1|].
    eapply mounts_below_up; [apply under_child|exact Hb]. }
  destruct (has_flag child IS_DUMMY); [apply Hfin|].
  intros H. apply (Hfin (ms_buf2 st)). exact H.
Qed.

Lemma clone_skeleton_below fuel :
  forall chain node st r,
    clone_skeleton MOUNTPOINT MIRRDIR DUMMDIR mirror fuel chain node st = Some r ->
    exists evs, ms_trace (snd r) = ms_trace st ++ evs /\
                mounts_below (get_full_path chain (name node)) evs.
Proof.
  induction fuel as [|fuel IH]; intros chain node st r; cbn [clone_skeleton];
    [discriminate|].
  destruct (mirror _) as [ents|].
  2:{ intros H. injection H as <-. exists []. rewrite app_nil_r.
      split; [reflexivity|apply mounts_below_nil]. }
  destruct (insert_dummies_root ents node (ms_next st)) as (_ & _ & Hname).
  destruct (insert_dummies ents node (ms_next st)) as [node' next'].
  cbn [fst] in Hname.
  match goal with
  | |- context [for_each_child ?b ?cs ?s] =>
      destruct (for_each_child b cs s) as [[cs' st']|] eqn:Hloop;
      [|discriminate]
  end.
  intros H. injection H as <-. cbn [snd].
  apply (for_each_child_below (get_full_path chain (name node))) in Hloop.
  - destruct Hloop as (evs & Hevs & Hb).
    cbn [snd emit set_next ms_trace] in Hevs.
    rewrite Hevs, <- app_assoc. eexists. split; [reflexivity|].
    apply mounts_below_app; [|exact Hb].
    intros src tgt. destruct (has_flag node' IS_SKEL); cbn [app In];
      intros [H|[H|H]]; try discriminate H; try contradiction.
    destruct H as [H|[]]. injection H as _ <-. apply under_refl.
  - intros c st0 r0 _. apply clone_child_below. intros st1 r1 Hr.
    apply IH in Hr. rewrite Hname, get_full_path_child in Hr. exact Hr.
Qed.

(** X23: [magic_mount] of a node only adds to the trace, and every bind
    mount it adds, by itself or through [clone_skeleton], has its target
    at the path of the node or below it: mounting a tree rooted at
    [/system] touches nothing outside [/system]. *)
Theorem magic_mount_stays_below (fuel : nat) (chain : list string)
    (node : node_entry) (st : mstate) (r : node_entry * mstate) :
  magic_mount MOUNTPOINT MIRRDIR DUMMDIR mirror fuel chain node st = Some r ->
  exists evs, ms_trace (snd r) = ms_trace st ++ evs /\
              mounts_below (get_full_path chain (name node)) evs.
Proof.
  revert chain node st r.
  induction fuel as [|fuel IH]; intros chain node st r; cbn [magic_mount];
    [discriminate|].
  destruct (has_flag node IS_MODULE).
  { intros H. injection H as <-. eexists. split; [reflexivity|].
    intros src tgt [H|[]]. injection H as _ <-. apply under_refl. }
  destruct (has_flag node IS_SKEL); [apply clone_skeleton_below|].
  destruct (has_flag node IS_INTER).
  - destruct (for_each_child _ _ _) as [[cs' st']|] eqn:Hloop; [|discriminate].
    intros H. injection H as <-. cbn [snd].
    apply (for_each_child_below (get_full_path chain (name node))) in Hloop;
      [exact Hloop|].
    intros c st0 r0 _ Hr. apply IH in Hr.
    destruct Hr as (evs & Hevs & Hb). exists evs. split; [exact Hevs|].
    rewrite get_full_path_child in Hb.
    eapply mounts_below_up; [apply under_child|exact Hb].
  - intros H. injection H as <-. exists []. rewrite app_nil_r.
    split; [reflexivity|apply mounts_below_nil].
Qed.

End MounterTargets.

Lemma magic_mount_stays_below_witness :
  exists evs,
    ms_trace (snd (magic_mount_root "/magisk" "/dev/magisk/mirror"
                     "/dev/magisk/dummy" pipe_world
                     (ld_root (load_modules "/magisk" pipe_world))
                     (MState (ld_next (load_modules "/magisk" pipe_world))
                             "/dev/magisk/mirror/vendor" [])))
    = [] ++ evs /\
    mounts_below "/system" evs.
Proof.
  apply (magic_mount_stays_below "/magisk" "/dev/magisk/mirror"
           "/dev/magisk/dummy" (w_mirror pipe_world)
           (height (ld_root (load_modules "/magisk" pipe_world))) []
           (ld_root (load_modules "/magisk" pipe_world))
           (MState (ld_next (load_modules "/magisk" pipe_world))
                   "/dev/magisk/mirror/vendor" [])).
  vm_compute. reflexivity.
Defined.

(** ** Tree surgery: nothing is lost *)

Lemma destroy_subtree_length n : length (destroy_subtree n) = node_count n.
Proof.
  induction n as [a mo nm ty s p cs IH] using node_entry_ind.
  rewrite destroy_subtree_unfold, node_count_unfold. cbn [children self].
  rewrite length_app. cbn [length].
  assert (Hlen : length (flat_map destroy_subtree cs)
                 = fold_right (fun c m => (node_count c + m)%nat) 0%nat cs).
  { induction IH as [|c cs Hc _ IHcs]; [reflexivity|].
    cbn [flat_map fold_right]. rewrite length_app, IHcs, Hc. reflexivity. }
  rewrite Hlen. lia.
Qed.

Lemma count_snoc cs c :
  fold_right (fun c m => (node_count c + m)%nat) 0%nat (cs ++ [c])
  = (fold_right (fun c m => (node_count c + m)%nat) 0%nat cs + node_count c)%nat.
Proof.
  induction cs as [|x cs IH]; cbn [app fold_right]; [lia|]. rewrite IH. lia.
Qed.

Lemma count_insert cs : forall i e c,
  cs !! i = Some e ->
  (fold_right (fun c m => (node_count c + m)%nat) 0%nat (<[i:=c]> cs)
   + node_count e
   = fold_right (fun c m => (node_count c + m)%nat) 0%nat cs + node_count c)%nat.
Proof.
  induction cs as [|x cs IH]; intros [|i] e c Hi; try discriminate Hi.
  - injection Hi as ->. change (<[0%nat:=c]> (e :: cs)) with (c :: cs).
    cbn [fold_right]. lia.
  - change (<[S i:=c]> (x :: cs)) with (x :: <[i:=c]> cs).
    cbn [fold_right]. specialize (IH i e c Hi). lia.
Qed.

(** X24: [insert_child] with a new node that has no children loses no
    node: afterwards every node of the parent and the new node is either
    in the tree of the parent or freed, each freed exactly once in the
    count; what is freed is nothing when the name was new, the whole
    subtree of the node that had the name when the new node displaces it,
    and the new node alone when it does not. *)
Theorem insert_child_accounts (p c : node_entry) :
  children c = [] ->
  (node_count (ins_parent (insert_child p c))
   + length (ins_freed (insert_child p c))
   = node_count p + 1)%nat /\
  ins_freed (insert_child p c)
  = match find_first (name c) (children p) with
    | None => []
    | Some (_, e) =>
        if Z.gtb (status c) (status e) then destroy_subtree e else [self c]
    end.
Proof.
  intros Hleaf. unfold insert_child. cbv zeta. rewrite insert_loop_find.
  assert (Hone : node_count (set_parent c (Some (self p))) = 1%nat).
  { rewrite node_count_unfold. destruct c. cbn in Hleaf |- *.
    rewrite Hleaf. reflexivity. }
  replace (name (set_parent c (Some (self p)))) with (name c)
    by (destruct c; reflexivity).
  replace (status (set_parent c (Some (self p)))) with (status c)
    by (destruct c; reflexivity).
  destruct (find_first (name c) (children p)) as [[i e]|] eqn:Hf.
  - apply find_first_Some in Hf. destruct Hf as (Hi & _).
    destruct (Z.gtb (status c) (status e)); cbn [ins_parent ins_freed].
    + split; [|reflexivity].
      rewrite destroy_subtree_length, (node_count_unfold p).
      rewrite (node_count_unfold (set_children p _)).
      replace (children (set_children p
                 (<[i:=set_parent c (Some (self p))]> (children p))))
        with (<[i:=set_parent c (Some (self p))]> (children p))
        by (destruct p; reflexivity).
      pose proof (count_insert (children p) i e
                    (set_parent c (Some (self p))) Hi) as H.
      rewrite Hone in H. lia.
    + split; [|destruct c; reflexivity].
      replace (set_children p (children p)) with p by (destruct p; reflexivity).
      unfold destroy_node. cbn [length]. lia.
  - cbn [ins_parent ins_freed]. split; [|reflexivity].
    rewrite (node_count_unfold p), (node_count_unfold (set_children p _)).
    replace (children (set_children p
               (children p ++ [set_parent c (Some (self p))])))
      with (children p ++ [set_parent c (Some (self p))])
      by (destruct p; reflexivity).
    rewrite count_snoc, Hone. cbn [length]. lia.
Qed.

Lemma insert_child_accounts_witness :
  (node_count (ins_parent (insert_child vendor_sys_root
                 (Node 9%nat (Some "modB") "vendor" DT_REG IS_MODULE None [])))
   + length (ins_freed (insert_child vendor_sys_root
                 (Node 9%nat (Some "modB") "vendor" DT_REG IS_MODULE None [])))
   = node_count vendor_sys_root + 1)%nat /\
  ins_freed (insert_child vendor_sys_root
                 (Node 9%nat (Some "modB") "vendor" DT_REG IS_MODULE None []))
  = [3%nat; 2%nat; 1%nat].
Proof.
  apply (insert_child_accounts vendor_sys_root
           (Node 9%nat (Some "modB") "vendor" DT_REG IS_MODULE None [])).
  reflexivity.
Defined.

(** ** The late_start stage *)

Section LateStartProperties.

Variable MOUNTPOINT COREDIR MANAGERAPK : string.
Variable access_f access_x : string -> bool.
Variable service_dir : option (list dirent).
Variable pm_output : nat -> string.

Lemma install_manager_from k : forall fuel attempt,
  (forall j, (j < k)%nat ->
             strstr (pm_output (attempt + j)) "Error:" = true) ->
  strstr (pm_output (attempt + k)) "Error:" = false ->
  (k < fuel)%nat ->
  install_manager MANAGERAPK pm_output fuel attempt
  = Some (concat (repeat [LSleep 5; LInstallManager MANAGERAPK] (S k))).
Proof.
  induction k as [|k IH]; intros [|fuel] attempt Herr Hok Hfuel; try lia;
    cbn [install_manager].
  - rewrite Nat.add_0_r in Hok. rewrite Hok. reflexivity.
  - pose proof (Herr 0%nat ltac:(lia)) as H0. rewrite Nat.add_0_r in H0.
    rewrite H0. rewrite (IH fuel (S attempt)).
    + reflexivity.
    + intros j Hj. replace (S attempt + j)%nat with (attempt + S j)%nat by lia.
      apply Herr. lia.
    + replace (S attempt + k)%nat with (attempt + S k)%nat by lia. exact Hok.
    + lia.
Qed.

Lemma install_manager_never fuel : forall attempt,
  (forall j, strstr (pm_output j) "Error:" = true) ->
  install_manager MANAGERAPK pm_output fuel attempt = None.
Proof.
  induction fuel as [|fuel IH]; intros attempt Herr; cbn [install_manager];
    [reflexivity|].
  rewrite Herr, IH; [reflexivity|exact Herr].
Qed.

(** X25: with the manager package present and no disable file,
    [late_start] sleeps and calls the package manager once for every
    answer that contains [Error:] and once more for the first answer that
    does not; then it deletes the package, frees the buffers and the
    module list, and returns.  Any fuel above the number of failed rounds
    gives this result. *)
Theorem late_start_installs_manager (k fuel : nat) (module_list : list string) :
  (forall j, (j < k)%nat -> strstr (pm_output j) "Error:" = true) ->
  strstr (pm_output k) "Error:" = false ->
  (k < fuel)%nat ->
  late_start MOUNTPOINT COREDIR MANAGERAPK access_f access_x service_dir
             false true pm_output fuel module_list
  = Some ([LStage EAck; LJoinSepol]
          ++ map LStage (exec_common_script COREDIR access_x service_dir
                                            "service")
          ++ map LStage (exec_module_script MOUNTPOINT access_f module_list
                                            "service")
          ++ concat (repeat [LSleep 5; LInstallManager MANAGERAPK] (S k))
          ++ [LStage (EUnlink MANAGERAPK); LFreeBuffers; LDestroyModuleList],
          []).
Proof.
  intros Herr Hok Hfuel. unfold late_start. cbv zeta.
  rewrite (install_manager_from k fuel 0%nat Herr Hok Hfuel).
  rewrite <- !app_assoc. reflexivity.
Qed.

(** X26: as long as every answer of the package manager contains
    [Error:], the loop of [late_start] goes on: the stage does not
    return with any amount of fuel, so the package is not deleted and the
    module list is not freed.  Without the package, or in core-only mode,
    the stage returns whatever the answers would be; in core-only mode it
    keeps the module list. *)
Theorem late_start_keeps_trying (fuel : nat) (module_list : list string) :
  ((forall j, strstr (pm_output j) "Error:" = true) ->
   late_start MOUNTPOINT COREDIR MANAGERAPK access_f access_x service_dir
              false true pm_output fuel module_list = None) /\
  (exists tr,
     late_start MOUNTPOINT COREDIR MANAGERAPK access_f access_x service_dir
                false false pm_output fuel module_list = Some (tr, [])) /\
  (forall manager_apk, exists tr,
     late_start MOUNTPOINT COREDIR MANAGERAPK access_f access_x service_dir
                true manager_apk pm_output fuel module_list
     = Some (tr, module_list)).
Proof.
  split; [|split].
  - intros Herr. unfold late_start. cbv zeta.
    rewrite (install_manager_never fuel 0%nat Herr). reflexivity.
  - eexists. reflexivity.
  - intros manager_apk. eexists. reflexivity.
Qed.

End LateStartProperties.

Lemma late_start_installs_manager_witness :
  late_start "/magisk" "/magisk/.core" "/data/magisk.apk"
             (fun _ => false) (fun _ => false) None false true
             pm_up_at_third 3 ["modA"]
  = Some ([LStage EAck; LJoinSepol;
           LSleep 5; LInstallManager "/data/magisk.apk";
           LSleep 5; LInstallManager "/data/magisk.apk";
           LSleep 5; LInstallManager "/data/magisk.apk";
           LStage (EUnlink "/data/magisk.apk"); LFreeBuffers;
           LDestroyModuleList], []).
Proof.
  apply (late_start_installs_manager "/magisk" "/magisk/.core"
           "/data/magisk.apk" (fun _ => false) (fun _ => false) None
           pm_up_at_third 2 3 ["modA"]).
  - intros [|[|j]] Hj; [reflexivity|reflexivity|lia].
  - reflexivity.
  - lia.
Defined.

Lemma late_start_keeps_trying_witness :
  late_start "/magisk" "/magisk/.core" "/data/magisk.apk"
             (fun _ => false) (fun _ => false) None false true
             pm_never_up 100 ["modA"]
  = None.
Proof.
  refine (proj1 (late_start_keeps_trying "/magisk" "/magisk/.core"
                   "/data/magisk.apk" (fun _ => false) (fun _ => false) None
                   pm_never_up 100 ["modA"]) _).
  intros j. reflexivity.
Defined.

(** ** Mounters: the recursion ends *)

Lemma for_each_child_mono body1 body2 cs :
  (forall c st r, In c cs -> body1 c st = Some r -> body2 c st = Some r) ->
  forall st r, for_each_child body1 cs st = Some r ->
               for_each_child body2 cs st = Some r.
Proof.
  induction cs as [|c cs IH]; intros Hbody st r; cbn [for_each_child];
    [trivial|].
  destruct (body1 c st) as [[c' st']|] eqn:Hc; [|discriminate].
  rewrite (Hbody c st (c', st') (or_introl eq_refl) Hc).
  destruct (for_each_child body1 cs st') as [[cs' st'']|] eqn:Hcs;
    [|discriminate].
  rewrite (IH (fun c0 st0 r0 Hin => Hbody c0 st0 r0 (or_intror Hin)) st'
              (cs', st'') Hcs).
  trivial.
Qed.

Section MounterMono.

Variable MOUNTPOINT MIRRDIR DUMMDIR : string.
Variable mirror : string -> option (list dirent).

Lemma clone_child_mono recurse1 recurse2 full_path child st r :
  (forall st r, recurse1 child st = Some r -> recurse2 child st = Some r) ->
  clone_child MOUNTPOINT MIRRDIR DUMMDIR recurse1 full_path child st = Some r ->
  clone_child MOUNTPOINT MIRRDIR DUMMDIR recurse2 full_path child st = Some r.
Proof.
  intros Hrec. unfold clone_child.
  destruct (has_flag child IS_VENDOR); [trivial|].
  destruct (has_flag child IS_MODULE); [trivial|].
  destruct (has_flag child (Z.lor IS_SKEL IS_INTER)); [apply Hrec|].
  trivial.
Qed.

Lemma clone_skeleton_mono fuel :
  forall fuel' chain node st r,
    (fuel <= fuel')%nat ->
    clone_skeleton MOUNTPOINT MIRRDIR DUMMDIR mirror fuel chain node st = Some r ->
    clone_skeleton MOUNTPOINT MIRRDIR DUMMDIR mirror fuel' chain node st = Some r.
Proof.
  induction fuel as [|fuel IH]; intros [|fuel'] chain node st r Hle;
    try discriminate; [lia|].
  cbn [clone_skeleton].
  destruct (mirror _) as [ents|]; [|trivial].
  destruct (insert_dummies ents node (ms_next st)) as [node' next'].
  match goal with
  | |- context [for_each_child ?b ?cs ?s] =>
      destruct (for_each_child b cs s) as [[cs' st']|] eqn:Hloop;
      [|discriminate]
  end.
  intros H.
  match goal with
  | |- context [for_each_child ?b ?cs ?s] =>
      assert (Hloop' : for_each_child b cs s = Some (cs', st'))
  end.
  { eapply for_each_child_mono; [|exact Hloop].
    intros c st0 r0 _. apply clone_child_mono. intros st1 r1. apply IH. lia. }
  rewrite Hloop'. exact H.
Qed.

Lemma magic_mount_mono fuel :
  forall fuel' chain node st r,
    (fuel <= fuel')%nat ->
    magic_mount MOUNTPOINT MIRRDIR DUMMDIR mirror fuel chain node st = Some r ->
    magic_mount MOUNTPOINT MIRRDIR DUMMDIR mirror fuel' chain node st = Some r.
Proof.
  induction fuel as [|fuel IH]; intros [|fuel'] chain node st r Hle;
    try discriminate; [lia|].
  cbn [magic_mount].
  destruct (has_flag node IS_MODULE); [trivial|].
  destruct (has_flag node IS_SKEL); [apply clone_skeleton_mono; exact Hle|].
  destruct (has_flag node IS_INTER); [|trivial].
  match goal with
  | |- context [for_each_child ?b ?cs ?s] =>
      destruct (for_each_child b cs s) as [[cs' st']|] eqn:Hloop;
      [|discriminate]
  end.
  intros H.
  match goal with
  | |- context [for_each_child ?b ?cs ?s] =>
      assert (Hloop' : for_each_child b cs s = Some (cs', st'))
  end.
  { eapply for_each_child_mono; [|exact Hloop].
    intros c st0 r0 _. apply IH. lia. }
  rewrite Hloop'. exact H.
Qed.

(** X27: the recursion of [magic_mount] and [clone_skeleton] ends on
    every tree and every mirror, although [clone_skeleton] adds nodes on
    its way: with fuel for the height of the tree it returns, and any
    larger amount of fuel gives the same tree and the same trace. *)
Theorem magic_mount_terminates (fuel : nat) (chain : list string)
    (node : node_entry) (st : mstate) :
  (height node <= fuel)%nat ->
  exists r,
    magic_mount MOUNTPOINT MIRRDIR DUMMDIR mirror fuel chain node st = Some r /\
    forall more,
      magic_mount MOUNTPOINT MIRRDIR DUMMDIR mirror (more + fuel) chain node st
      = Some r.
Proof.
  intros Hh.
  destruct (magic_mount_returns MOUNTPOINT MIRRDIR DUMMDIR mirror fuel chain
              node st Hh) as [r Hr].
  exists r. split; [exact Hr|].
  intros more. apply (magic_mount_mono fuel); [lia|exact Hr].
Qed.

End MounterMono.

Lemma magic_mount_terminates_witness :
  exists r,
    magic_mount "/magisk" "/dev/magisk/mirror" "/dev/magisk/dummy" pipe_mirror
                4%nat [] vendor_sys_root (MState 5%nat "/dev/magisk/mirror/vendor" [])
    = Some r /\
    forall more,
      magic_mount "/magisk" "/dev/magisk/mirror" "/dev/magisk/dummy"
                  pipe_mirror (more + 4)%nat [] vendor_sys_root
                  (MState 5%nat "/dev/magisk/mirror/vendor" [])
      = Some r.
Proof.
  apply (magic_mount_terminates "/magisk" "/dev/magisk/mirror"
           "/dev/magisk/dummy" pipe_mirror 4%nat [] vendor_sys_root
           (MState 5%nat "/dev/magisk/mirror/vendor" [])).
  vm_compute. lia.
Defined.
